(** * generate_lytte_from_rss.py: a shallow embedding and its properties

    The script Scripts/generate_lytte_from_rss.py turns the items of a podcast
    feed into content files (front matter plus body) and keeps a small JSON
    index of the identifiers it has seen.

    Python strings are sequences of Unicode code points and are modelled as
    lists of integers.  A file holds the string that [write_text] received
    (its UTF-8 encoding, on a platform whose line separator is the line
    feed), and [read_text] returns it with universal newlines.  The parts of the Python runtime that are
    tables or depend on the interpreter version (the Unicode decimal digits
    outside ASCII, lower-casing outside ASCII, [html.unescape],
    [datetime.fromisoformat], the clock) are variables of the section
    [Runtime]. *)

From Stdlib Require Import ZArith List String Ascii Lia Bool.
From stdpp Require Import gmap list sorting.

Local Open Scope Z_scope.

(** ** Python strings *)

Definition str := list Z.

(** An ASCII literal of the source, as a list of code points. *)
Fixpoint py (s : string) : str :=
  match s with
  | EmptyString => []
  | String a r => Z.of_N (N_of_ascii a) :: py r
  end.

Arguments py s%_string.

(** Code points of the characters the source names. *)
Definition LF : Z := 10.
Definition CR : Z := 13.
Definition QUOTE : Z := 34.
Definition HYPHEN : Z := 45.
Definition SLASH : Z := 47.
Definition BACKSLASH : Z := 92.

Definition str_eqb (a b : str) : bool := bool_decide (a = b).

(** Truth value of a string: [if s], [s or d]. *)
Definition truthy (s : str) : bool :=
  match s with [] => false | _ :: _ => true end.

Definition py_or (s d : str) : str := if truthy s then s else d.

(** [str.isspace] of one code point (CPython's _PyUnicode_IsWhitespace). *)
Definition is_space (c : Z) : bool :=
  ((9 <=? c) && (c <=? 13)) || ((28 <=? c) && (c <=? 32))
  || (c =? 133) || (c =? 160) || (c =? 5760)
  || ((8192 <=? c) && (c <=? 8202))
  || (c =? 8232) || (c =? 8233) || (c =? 8239) || (c =? 8287) || (c =? 12288).

Fixpoint lstrip_by (p : Z -> bool) (s : str) : str :=
  match s with
  | [] => []
  | c :: t => if p c then lstrip_by p t else s
  end.

Fixpoint rstrip_by (p : Z -> bool) (s : str) : str :=
  match s with
  | [] => []
  | c :: t =>
      match rstrip_by p t with
      | [] => if p c then [] else [c]
      | (_ :: _) as r => c :: r
      end
  end.

Definition strip_by (p : Z -> bool) (s : str) : str :=
  rstrip_by p (lstrip_by p s).

(** [s.strip()], [s.rstrip()] and [s.strip(chars)] for a one-character set. *)
Definition strip (s : str) : str := strip_by is_space s.
Definition rstrip (s : str) : str := rstrip_by is_space s.
Definition strip_char (ch : Z) (s : str) : str := strip_by (Z.eqb ch) s.

(** [s.replace(old, new)] where [old] is a single character. *)
Definition replace1 (old : Z) (new : str) (s : str) : str :=
  flat_map (fun c => if c =? old then new else [c]) s.

(** [sep.join(parts)] *)
Fixpoint join (sep : str) (parts : list str) : str :=
  match parts with
  | [] => []
  | [p] => p
  | p :: rest => p ++ sep ++ join sep rest
  end.

Fixpoint starts_with (p s : str) : bool :=
  match p, s with
  | [], _ => true
  | _ :: _, [] => false
  | a :: p', b :: s' => (a =? b) && starts_with p' s'
  end.

(** [needle in s] *)
Fixpoint contains (needle s : str) : bool :=
  starts_with needle s ||
  match s with
  | [] => false
  | _ :: t => contains needle t
  end.

(** [s.endswith(suffix)] *)
Definition ends_with (suffix s : str) : bool :=
  starts_with (rev suffix) (rev s).

Definition is_ascii (c : Z) : bool := (0 <=? c) && (c <? 128).

Definition ascii_lower (c : Z) : Z :=
  if (65 <=? c) && (c <=? 90) then c + 32 else c.

Definition ascii_digit (c : Z) : bool := (48 <=? c) && (c <=? 57).

(** The class [a-z0-9] of the slug pattern. *)
Definition slug_alnum (c : Z) : bool :=
  ((97 <=? c) && (c <=? 122)) || ascii_digit c.

(** [re.sub] of the pattern [[^a-z0-9]+] by a hyphen: every maximal run of characters
    outside the class becomes one hyphen.  [in_run] says that the previous
    character belonged to the run being replaced. *)
Fixpoint sub_non_alnum_from (in_run : bool) (s : str) : str :=
  match s with
  | [] => []
  | c :: t =>
      if slug_alnum c then c :: sub_non_alnum_from false t
      else if in_run then sub_non_alnum_from true t
      else HYPHEN :: sub_non_alnum_from true t
  end.

Definition sub_non_alnum (s : str) : str := sub_non_alnum_from false s.

(** [re.sub] of the pattern [-{2,}] by a hyphen: a run of two or more
    hyphens becomes one hyphen, a single hyphen is not matched and stays. *)
Fixpoint sub_hyphen_runs_from (in_run : bool) (s : str) : str :=
  match s with
  | [] => []
  | c :: t =>
      if c =? HYPHEN then
        if in_run then sub_hyphen_runs_from true t
        else HYPHEN :: sub_hyphen_runs_from true t
      else c :: sub_hyphen_runs_from false t
  end.

Definition sub_hyphen_runs (s : str) : str := sub_hyphen_runs_from false s.

Section Runtime.

(** [str.lower] on a string that is not pure ASCII (the Unicode case
    tables; on ASCII strings CPython lowers byte by byte). *)
Variable unicode_lower : str -> str.

Definition str_lower (s : str) : str :=
  if forallb is_ascii s then map ascii_lower s else unicode_lower s.

(** Lines 12-13 of the source: the text the slug patterns are applied to. *)
Definition slug_prepare (text : str) : str :=
  let text := str_lower (strip text) in
  replace1 229 (py "a") (replace1 248 (py "o") (replace1 230 (py "ae") text)).

Definition slugify (text : str) : str :=
  let text := slug_prepare text in
  let text := sub_non_alnum text in
  let text := strip_char HYPHEN (sub_hyphen_runs text) in
  py_or text (py "episode").


(** ** YAML helpers (lines 56-66) *)

Definition yml_escape_inline (s : str) : str :=
  replace1 QUOTE [BACKSLASH; QUOTE] s.

(** The line boundaries of [str.splitlines]. *)
Definition is_linebreak (c : Z) : bool :=
  ((10 <=? c) && (c <=? 13)) || ((28 <=? c) && (c <=? 30))
  || (c =? 133) || (c =? 8232) || (c =? 8233).

(** [s.splitlines()]: [cur] is the current line, reversed.  A carriage
    return followed by a line feed is one boundary, and the text after the
    last boundary is a line only when it is not empty. *)
Fixpoint splitlines_from (cur : str) (s : str) : list str :=
  match s with
  | [] => match cur with [] => [] | _ :: _ => [rev cur] end
  | c :: t =>
      if is_linebreak c then
        rev cur ::
          match t with
          | c' :: t' =>
              if (c =? CR) && (c' =? LF) then splitlines_from [] t'
              else splitlines_from [] t
          | [] => splitlines_from [] t
          end
      else splitlines_from (c :: cur) t
  end.

Definition splitlines (s : str) : list str := splitlines_from [] s.

Definition yml_block (s : str) : str :=
  let s := rstrip s in
  if negb (truthy s) then [QUOTE; QUOTE]
  else
    let lines := splitlines s in
    let indented := join [LF] (map (fun ln => rstrip (py "  " ++ ln)) lines) in
    py "|" ++ [LF] ++ indented.

(** ** Episode identifier (lines 68-70) *)

(** Decimal value of a non-ASCII code point of category Nd, from the
    Unicode database of the interpreter; [None] for every other one. *)
Variable unicode_decimal : Z -> option Z.

Definition digit_value (c : Z) : option Z :=
  if is_ascii c then (if ascii_digit c then Some (c - 48) else None)
  else unicode_decimal c.

(** The class [\d] of a pattern over [str]. *)
Definition is_digit (c : Z) : bool :=
  match digit_value c with Some _ => true | None => false end.

(** The longest run of digits at the head of [s], and what follows it. *)
Fixpoint span_digits (s : str) : str * str :=
  match s with
  | [] => ([], [])
  | c :: t =>
      if is_digit c then let '(d, r) := span_digits t in (c :: d, r)
      else ([], s)
  end.

(** [$] without MULTILINE: the end of the string, or just before a line
    feed that ends the string. *)
Definition at_end (s : str) : bool :=
  match s with
  | [] => true
  | c :: t => (c =? LF) && negb (truthy t)
  end.

(** The pattern of line 69 (a slash, a group of one or more digits, an
    optional slash, the end) matched at the head of [s]; the result is group
    1.  The digit run is followed by a slash, the end, or neither, so giving
    back digits never yields a match and group 1 is the whole run. *)
Definition match_id_here (s : str) : option str :=
  match s with
  | [] => None
  | c :: t =>
      if c =? SLASH then
        let '(d, r) := span_digits t in
        if negb (truthy d) then None
        else
          match r with
          | c' :: r' =>
              if (c' =? SLASH) && at_end r' then Some d
              else if at_end r then Some d else None
          | [] => Some d
          end
      else None
  end.

(** [re.search]: the leftmost position at which the pattern matches. *)
Fixpoint search_id (s : str) : option str :=
  match match_id_here s with
  | Some d => Some d
  | None => match s with [] => None | _ :: t => search_id t end
  end.

Definition episode_id_from_link (link : str) : option str := search_id link.

(** ** The episode record and its front matter (lines 92-119) *)

(** The dictionary [build_front_matter] returns: always these nine keys. *)
Record EpisodeRecord := {
  title : str;
  date : str;
  display_date : str;
  description : str;
  rss_embed : str;
  audio_url : str;
  link : str;
  tags : list str;
  draft : bool
}.

(** The values such a dictionary holds. *)
Inductive pyval :=
| VStr (s : str)
| VBool (b : bool)
| VList (l : list str).

Definition TAGS : list str :=
  [py "lytte" ++ [248] ++ py "velser"; py "podcast"].

Definition FRONTMATTER_ORDER : list str :=
  [py "title"; py "date"; py "display_date"; py "description";
   py "rss_embed"; py "audio_url"; py "link"; py "tags"; py "draft"].

(** [fm.get(key, default)] with the empty string as default. *)
Definition fm_get (fm : EpisodeRecord) (key : str) : pyval :=
  if str_eqb key (py "title") then VStr (title fm)
  else if str_eqb key (py "date") then VStr (date fm)
  else if str_eqb key (py "display_date") then VStr (display_date fm)
  else if str_eqb key (py "description") then VStr (description fm)
  else if str_eqb key (py "rss_embed") then VStr (rss_embed fm)
  else if str_eqb key (py "audio_url") then VStr (audio_url fm)
  else if str_eqb key (py "link") then VStr (link fm)
  else if str_eqb key (py "tags") then VList (tags fm)
  else if str_eqb key (py "draft") then VBool (draft fm)
  else VStr [].

(** [str(val)].  A list never reaches it: the key tags is rendered from a
    literal before its value is looked at. *)
Definition py_str (v : pyval) : str :=
  match v with
  | VStr s => s
  | VBool true => py "True"
  | VBool false => py "False"
  | VList _ => []
  end.

(** The string a value is when it is one (the argument of [yml_block]). *)
Definition as_str (v : pyval) : str :=
  match v with VStr s => s | _ => [] end.

(** The literal of line 111. *)
Definition TAGS_LINE : str :=
  py "tags: [" ++ [QUOTE] ++ py "lytte" ++ [248] ++ py "velser" ++ [QUOTE]
  ++ py "," ++ [QUOTE] ++ py "podcast" ++ [QUOTE] ++ py "]".

(** One turn of the loop of [render_front_matter]: the line appended. *)
Definition render_entry (fm : EpisodeRecord) (key : str) : str :=
  let val := fm_get fm key in
  if str_eqb key (py "tags") then TAGS_LINE
  else if str_eqb key (py "description") then
    py "description: " ++ yml_block (as_str val)
  else
    match val with
    | VBool _ => key ++ py ": " ++ str_lower (py_str val)
    | _ => key ++ py ": " ++ [QUOTE] ++ yml_escape_inline (py_str val) ++ [QUOTE]
    end.

Definition MARKER : str := py "---".

Definition render_front_matter (fm : EpisodeRecord) : str :=
  let out := [MARKER] in
  let out := fold_left (fun out key => out ++ [render_entry fm key])
                       FRONTMATTER_ORDER out in
  let out := out ++ [MARKER] in
  join [LF] out ++ [LF].

(** ** The generated body (lines 121-133) *)

Definition PLAYER_DIRECTIVE : str := py "{{< episodeplayer >}}".

Definition NOTES_SECTION : str :=
  [LF] ++ py "## Notater" ++ [LF] ++ py "- Viktige punkter:" ++ [LF]
  ++ py "  - " ++ [8230] ++ [LF] ++ py "  - " ++ [8230].

Definition PLAYER_URL : str := py "https://player.rss.com/lytte/".

Definition standard_body (fm : EpisodeRecord) : str :=
  let parts := [PLAYER_DIRECTIVE] in
  let parts :=
    if truthy (description fm)
    then parts ++ [[LF] ++ py "## Beskrivelse"] ++ [description fm]
    else parts in
  let parts := parts ++ [NOTES_SECTION] in
  let parts := parts ++ [[LF] ++ py "## Lenker"] in
  let parts := parts ++ [py "- Original episode: " ++ link fm] in
  let parts :=
    match episode_id_from_link (link fm) with
    | Some eid =>
        if truthy eid
        then parts ++ [py "- Delbar spiller: " ++ PLAYER_URL ++ eid]
        else parts
    | None => parts
    end in
  join [LF] parts ++ [LF].

(** ** The front-matter pattern of [normalize_file] (line 138)

    The pattern, matched by [re.match] with the flag DOTALL, is: the marker,
    an optional carriage return and a line feed; a lazy group 1 of any
    characters; an optional carriage return and a line feed, the marker, an
    optional carriage return and a line feed; a greedy group 2 of any
    characters; the end.
    With DOTALL the lazy group 1 grows one character at a time until the
    closing marker line matches at its end, and the greedy group 2 then takes
    the rest of the text, where [$] holds.  The result is the pair of
    groups. *)

Definition strip_prefix (p s : str) : option str :=
  if starts_with p s then Some (drop (length p) s) else None.

(** [\r?\n] at the head of [s]: what follows it. *)
Definition eat_newline (s : str) : option str :=
  match s with
  | [] => None
  | c :: t =>
      if c =? LF then Some t
      else if c =? CR then
        match t with
        | [] => None
        | c' :: t' => if c' =? LF then Some t' else None
        end
      else None
  end.

(** [\r?\n---\r?\n] at the head of [s]: what follows it. *)
Definition closing_marker (s : str) : option str :=
  match eat_newline s with
  | None => None
  | Some r =>
      match strip_prefix MARKER r with
      | None => None
      | Some r' => eat_newline r'
      end
  end.

(** Group 1, the closing marker line and group 2: the shortest group 1
    first. *)
Fixpoint split_at_closing (s : str) : option (str * str) :=
  match closing_marker s with
  | Some rest => Some ([], rest)
  | None =>
      match s with
      | [] => None
      | c :: t =>
          match split_at_closing t with
          | Some (g1, g2) => Some (c :: g1, g2)
          | None => None
          end
      end
  end.

Definition match_front_matter (text : str) : option (str * str) :=
  match strip_prefix MARKER text with
  | None => None
  | Some r =>
      match eat_newline r with
      | None => None
      | Some r' => split_at_closing r'
      end
  end.

(** ** Files

    The content files, by path, each with the string last written to it
    (line feeds are written as they are), and the trace of the writes of a
    run.  The files of a world are text files: a file whose bytes are not
    UTF-8, on which the [read_text] of line 137 raises, has no counterpart
    here, so that what is proved of a call or of a run is proved for content
    directories that hold text.  An operation that raises gives [None]. *)

Record world := {
  files : gmap str str;
  writes : list (str * str)
}.

Definition io (A : Type) : Type := world -> option (A * world).

Definition io_ret {A : Type} (a : A) : io A := fun w => Some (a, w).

Definition io_bind {A B : Type} (m : io A) (k : A -> io B) : io B :=
  fun w => match m w with Some (a, w') => k a w' | None => None end.

Notation "'do' x <- m ; k" := (io_bind m (fun x => k))
  (at level 10, x name, m at level 99, k at level 200).

Definition path_exists (path : str) : io bool :=
  fun w => Some (bool_decide (is_Some (files w !! path)), w).

(** Reading in text mode: a carriage return, alone or with the line feed
    that follows it, is read as a line feed. *)
Fixpoint universal_newlines (s : str) : str :=
  match s with
  | [] => []
  | c :: t =>
      if c =? CR then
        LF :: match t with
              | c' :: t' =>
                  if c' =? LF then universal_newlines t' else universal_newlines t
              | [] => []
              end
      else c :: universal_newlines t
  end.

(** [path.read_text] of a text file; it raises when there is no file. *)
Definition read_text (path : str) : io str :=
  fun w => match files w !! path with
           | Some stored => Some (universal_newlines stored, w)
           | None => None
           end.

Definition write_text (path : str) (text : str) : io unit :=
  fun w => Some (tt, {| files := <[path := text]> (files w);
                        writes := writes w ++ [(path, text)] |}).

(** ** The writer (lines 135-173) *)

Definition LEGACY_SEPARATOR : str :=
  [LF] ++ py "---" ++ [LF] ++ py "<!-- Tidligere innhold bevart under -->" ++ [LF].

Definition PLAYER_TOKEN : str := py "episodeplayer".

Definition normalize_file (md_path : str) (fm : EpisodeRecord) : io bool :=
  do text <- read_text md_path;
  match match_front_matter text with
  | None =>
      let old := strip text in
      let new := render_front_matter fm ++ standard_body fm in
      let new := if truthy old then new ++ LEGACY_SEPARATOR ++ old ++ [LF] else new in
      do _ <- write_text md_path new;
      io_ret true
  | Some (_, g2) =>
      let body := strip g2 in
      let new_fm := render_front_matter fm in
      let body :=
        if negb (truthy body) || negb (contains PLAYER_TOKEN body)
        then standard_body fm else body in
      let new := new_fm ++ body ++ (if negb (ends_with [LF] body) then [LF] else []) in
      if negb (str_eqb new text) then
        do _ <- write_text md_path new;
        io_ret true
      else io_ret false
  end.

Definition CONTENT_ROOT : str := py "content/lytteovelser".

(** [CONTENT_ROOT / slug / index.md] *)
Definition episode_path (slug : str) : str :=
  CONTENT_ROOT ++ [SLASH] ++ slug ++ [SLASH] ++ py "index.md".

Definition write_or_update_episode_file (fm : EpisodeRecord) (slug : str) : io bool :=
  let md_path := episode_path slug in
  do present <- path_exists md_path;
  if present then normalize_file md_path fm
  else
    let new := render_front_matter fm ++ standard_body fm in
    do _ <- write_text md_path new;
    io_ret true.

(** ** Dates (lines 37-44 and 75-76) *)

Record pydate := { year : Z; month : Z; day : Z }.

Definition is_leap (y : Z) : bool :=
  ((y mod 4 =? 0) && negb (y mod 100 =? 0)) || (y mod 400 =? 0).

Definition days_in_month (y m : Z) : Z :=
  if m =? 2 then (if is_leap y then 29 else 28)
  else if (m =? 4) || (m =? 6) || (m =? 9) || (m =? 11) then 30
  else 31.

Definition digit_char (n : Z) : Z := 48 + n mod 10.

Definition pad2 (n : Z) : str := [digit_char (n / 10); digit_char n].

Definition pad4 (n : Z) : str :=
  [digit_char (n / 1000); digit_char (n / 100); digit_char (n / 10); digit_char n].

(** [d.isoformat()] *)
Definition isoformat (d : pydate) : str :=
  pad4 (year d) ++ [HYPHEN] ++ pad2 (month d) ++ [HYPHEN] ++ pad2 (day d).

(** The conversion Y of the C library (glibc): the year in decimal, without
    padding, so that a year before 1000 has fewer than four digits. *)
Definition year_digits (y : Z) : str :=
  if y <? 10 then [digit_char y]
  else if y <? 100 then pad2 y
  else if y <? 1000 then digit_char (y / 100) :: pad2 y
  else pad4 y.

(** [d.strftime] with the format of line 76: day, month, year. *)
Definition strftime_dmy (d : pydate) : str :=
  pad2 (day d) ++ [HYPHEN] ++ pad2 (month d) ++ [HYPHEN] ++ year_digits (year d).

(** *** [datetime.strptime] with the format of line 39

    CPython turns the format into a pattern (module _strptime, C locale,
    flag IGNORECASE), matches it at the start of the string, raises when the
    match does not reach the end and then builds the date.  The pattern is
    matched with backtracking; a parser gives its matches in the order in
    which the matcher tries them, and the first one is the match. *)

Definition parser (A : Type) : Type := str -> list (A * str).

Definition p_ret {A : Type} (a : A) : parser A := fun s => [(a, s)].

Definition p_bind {A B : Type} (p : parser A) (f : A -> parser B) : parser B :=
  fun s => flat_map (fun '(a, r) => f a r) (p s).

Definition p_alt {A : Type} (p q : parser A) : parser A :=
  fun s => p s ++ q s.

Notation "'get' x <~ p ;; q" := (p_bind p (fun x => q))
  (at level 10, x name, p at level 99, q at level 200).

(** One character satisfying [ok]. *)
Definition p_char (ok : Z -> bool) : parser Z :=
  fun s => match s with
           | c :: t => if ok c then [(c, t)] else []
           | [] => []
           end.

(** [\d]: its decimal value. *)
Definition p_digit : parser Z :=
  fun s => match s with
           | c :: t => match digit_value c with Some v => [(v, t)] | None => [] end
           | [] => []
           end.

(** An ASCII digit class such as [[0-5]]: its value. *)
Definition p_range (lo hi : Z) : parser Z :=
  get v <~ p_char (fun c => (48 + lo <=? c) && (c <=? 48 + hi)) ;; p_ret (v - 48).

Definition p_lit (c : Z) : parser unit :=
  get _ <~ p_char (Z.eqb c) ;; p_ret tt.

(** A greedy optional item. *)
Definition p_opt {A : Type} (p : parser A) : parser (option A) :=
  p_alt (get a <~ p ;; p_ret (Some a)) (p_ret None).

(** [\s+], greedy: the longest run first. *)
Fixpoint p_spaces (s : str) : list (unit * str) :=
  match s with
  | c :: t => if is_space c then p_spaces t ++ [(tt, t)] else []
  | [] => []
  end.

(** A name of the C locale, letters compared without case.  (A non-ASCII
    letter that the pattern accepts for s makes the later look-up of the name
    raise, which is the result of no match.) *)
Definition p_name (name : str) : parser unit :=
  fun s => if starts_with name (map ascii_lower (take (length name) s))
              && (length name <=? length s)%nat
           then [(tt, drop (length name) s)] else [].

Fixpoint p_names (names : list str) (index : Z) : parser Z :=
  match names with
  | [] => fun _ => []
  | n :: rest => p_alt (get _ <~ p_name n ;; p_ret index) (p_names rest (index + 1))
  end.

Definition WEEKDAYS : list str :=
  [py "mon"; py "tue"; py "wed"; py "thu"; py "fri"; py "sat"; py "sun"].

Definition MONTHS : list str :=
  [py "jan"; py "feb"; py "mar"; py "apr"; py "may"; py "jun";
   py "jul"; py "aug"; py "sep"; py "oct"; py "nov"; py "dec"].

(** The directive d: 3[0-1], [1-2]\d, 0[1-9], [1-9], or a space and [1-9]. *)
Definition p_day : parser Z :=
  p_alt (get _ <~ p_lit 51 ;; get v <~ p_range 0 1 ;; p_ret (30 + v))
 (p_alt (get a <~ p_range 1 2 ;; get v <~ p_digit ;; p_ret (10 * a + v))
 (p_alt (get _ <~ p_lit 48 ;; p_range 1 9)
 (p_alt (p_range 1 9)
        (get _ <~ p_lit 32 ;; p_range 1 9)))).

(** The directive Y: four digits. *)
Definition p_year : parser Z :=
  get a <~ p_digit ;; get b <~ p_digit ;; get c <~ p_digit ;; get d <~ p_digit ;;
  p_ret (1000 * a + 100 * b + 10 * c + d).

(** The directive H: 2[0-3], [0-1]\d, or one digit. *)
Definition p_hour : parser Z :=
  p_alt (get _ <~ p_lit 50 ;; get v <~ p_range 0 3 ;; p_ret (20 + v))
 (p_alt (get a <~ p_range 0 1 ;; get v <~ p_digit ;; p_ret (10 * a + v))
        p_digit).

(** The directive M: [0-5]\d, or one digit. *)
Definition p_minute : parser Z :=
  p_alt (get a <~ p_range 0 5 ;; get v <~ p_digit ;; p_ret (10 * a + v)) p_digit.

(** The directive S: 6[0-1], [0-5]\d, or one digit. *)
Definition p_second : parser Z :=
  p_alt (get _ <~ p_lit 54 ;; get v <~ p_range 0 1 ;; p_ret (60 + v))
 (p_alt (get a <~ p_range 0 5 ;; get v <~ p_digit ;; p_ret (10 * a + v))
        p_digit).

(** At most [n] more digits, greedy. *)
Fixpoint p_digits_upto (n : nat) : parser unit :=
  match n with
  | O => p_ret tt
  | S k => p_alt (get _ <~ p_digit ;; p_digits_upto k) (p_ret tt)
  end.

(** What the directive z found: the hours, whether a colon follows them,
    and the seconds part when there is one (whether a colon precedes it). *)
Record zone := {
  zone_hours : Z;
  zone_colon : bool;
  zone_seconds : option bool
}.

Definition p_colon : parser bool :=
  get c <~ p_opt (p_lit 58) ;; p_ret (match c with Some _ => true | None => false end).

(** The directive z: a sign, two digits, an optional colon, [0-5] and a
    digit, optionally seconds (an optional colon, [0-5] and a digit,
    optionally a dot and one to six digits); or the capital letter Z. *)
Definition p_zone : parser zone :=
  p_alt
    (get _ <~ p_char (fun c => (c =? 43) || (c =? 45)) ;;
     get h1 <~ p_digit ;; get h2 <~ p_digit ;;
     get c1 <~ p_colon ;;
     get _ <~ p_range 0 5 ;; get _ <~ p_digit ;;
     get sec <~ p_opt (get c2 <~ p_colon ;;
                       get _ <~ p_range 0 5 ;; get _ <~ p_digit ;;
                       get _ <~ p_opt (get _ <~ p_lit 46 ;;
                                       get _ <~ p_digit ;; p_digits_upto 5) ;;
                       p_ret c2) ;;
     p_ret {| zone_hours := 10 * h1 + h2; zone_colon := c1; zone_seconds := sec |})
    (get _ <~ p_lit 90 ;;
     p_ret {| zone_hours := 0; zone_colon := false; zone_seconds := None |}).

(** The conversion of the zone raises when the colons of a zone with
    seconds disagree, and the time zone raises at twenty-four hours. *)
Definition zone_ok (z : zone) : bool :=
  match zone_seconds z with
  | Some c2 => eqb (zone_colon z) c2
  | None => true
  end && (zone_hours z <? 24).

(** The whole pattern: the fields day, month, year, second and zone. *)
Definition p_rfc822 : parser (Z * Z * Z * Z * zone) :=
  get _ <~ p_names WEEKDAYS 0 ;;
  get _ <~ p_lit 44 ;; get _ <~ p_spaces ;;
  get d <~ p_day ;; get _ <~ p_spaces ;;
  get m <~ p_names MONTHS 1 ;; get _ <~ p_spaces ;;
  get y <~ p_year ;; get _ <~ p_spaces ;;
  get _ <~ p_hour ;; get _ <~ p_lit 58 ;;
  get _ <~ p_minute ;; get _ <~ p_lit 58 ;;
  get sec <~ p_second ;; get _ <~ p_spaces ;;
  get z <~ p_zone ;;
  p_ret (d, m, y, sec, z).

(** [datetime.strptime(s, format).date()]; [None] when it raises. *)
Definition strptime_rfc822 (s : str) : option pydate :=
  match p_rfc822 s with
  | [] => None
  | ((d, m, y, sec, z), rest) :: _ =>
      if truthy rest then None
      else if zone_ok z && (1 <=? y) && (d <=? days_in_month y m) && (sec <=? 59)
      then Some {| year := y; month := m; day := d |}
      else None
  end.

(** [datetime.fromisoformat(s).date()]; [None] when it raises.  What it
    accepts depends on the version of the interpreter. *)
Variable fromisoformat_date : str -> option pydate.

(** [datetime.now(timezone.utc).date()] at the time of the run. *)
Variable utc_today : pydate.

Definition parse_date_rfc822 (s : str) : pydate :=
  match strptime_rfc822 s with
  | Some d => d
  | None =>
      match fromisoformat_date s with
      | Some d => d
      | None => utc_today
      end
  end.

(** ** Cleaning the description (lines 49-54) *)

(** [html.unescape], a table of the standard library. *)
Variable html_unescape : str -> str.

(** [re.sub]: [m] gives the length of the match at the head of a string;
    [skip] counts the characters of the last match still to pass. *)
Fixpoint re_sub (m : str -> option nat) (repl : str) (skip : nat) (s : str) : str :=
  match s with
  | [] => []
  | c :: t =>
      match skip with
      | S k => re_sub m repl k t
      | O =>
          match m s with
          | Some (S n) => repl ++ re_sub m repl n t
          | _ => c :: re_sub m repl O t
          end
      end
  end.

Definition letter_is (lower : Z) (c : Z) : bool := ascii_lower c =? lower.

(** Length of the white space at the head of [s]. *)
Fixpoint space_run (s : str) : nat :=
  match s with
  | c :: t => if is_space c then S (space_run t) else O
  | [] => O
  end.

(** The line-break tag with optional space and slash, without case. *)
Definition match_br (s : str) : option nat :=
  match s with
  | a :: b :: c :: t =>
      if (a =? 60) && letter_is 98 b && letter_is 114 c then
        let n := space_run t in
        match drop n t with
        | x :: y :: _ =>
            if x =? 62 then Some (4 + n)%nat
            else if (x =? SLASH) && (y =? 62) then Some (5 + n)%nat else None
        | [x] => if x =? 62 then Some (4 + n)%nat else None
        | [] => None
        end
      else None
  | _ => None
  end.

(** A closing paragraph tag, optional space, an opening one, without case. *)
Definition match_p_p (s : str) : option nat :=
  match s with
  | a :: b :: c :: d :: t =>
      if (a =? 60) && (b =? SLASH) && letter_is 112 c && (d =? 62) then
        let n := space_run t in
        match drop n t with
        | x :: y :: z :: _ =>
            if (x =? 60) && letter_is 112 y && (z =? 62) then Some (7 + n)%nat
            else None
        | _ => None
        end
      else None
  | _ => None
  end.

(** Length of the run of characters other than the closing bracket. *)
Fixpoint tag_run (s : str) : nat :=
  match s with
  | c :: t => if c =? 62 then O else S (tag_run t)
  | [] => O
  end.

(** Any tag: an opening bracket, one or more other characters, a closing one. *)
Definition match_tag (s : str) : option nat :=
  match s with
  | a :: t =>
      if a =? 60 then
        let n := tag_run t in
        match n, drop n t with
        | S _, _ :: _ => Some (2 + n)%nat
        | _, _ => None
        end
      else None
  | [] => None
  end.

Definition strip_html (s : str) : str :=
  let s := html_unescape s in
  let s := re_sub match_br [LF] O s in
  let s := re_sub match_p_p [LF; LF] O s in
  let s := re_sub match_tag [] O s in
  strip s.

(** ** From a feed item to an episode record (lines 46-47 and 72-102) *)

(** An item element: the text of its first child of each name ([None] when
    the child or its text is missing), and the url attribute of its first
    enclosure ([None] without enclosure, [Some None] without attribute). *)
Record FeedItem := {
  item_title : option str;
  item_pubDate : option str;
  item_description : option str;
  item_link : option str;
  item_guid : option str;
  item_enclosure : option (option str)
}.

(** [text_or(item.find(name))] *)
Definition text_or (e : option str) : str :=
  match e with Some s => s | None => [] end.

(** The markup of lines 85-87. *)
Definition iframe (eid title : str) : str :=
  py "<iframe src=" ++ [QUOTE] ++ PLAYER_URL ++ eid ++ [QUOTE] ++ py " "
  ++ py "loading=" ++ [QUOTE] ++ py "lazy" ++ [QUOTE]
  ++ py " style=" ++ [QUOTE]
  ++ py "width:100%;height:180px;border:0;overflow:hidden;" ++ [QUOTE] ++ py " "
  ++ py "title=" ++ [QUOTE] ++ title ++ [QUOTE] ++ py "></iframe>".

Definition build_front_matter (item : FeedItem) : EpisodeRecord :=
  let title := strip (text_or (item_title item)) in
  let pub_dt := parse_date_rfc822 (text_or (item_pubDate item)) in
  let iso_date := isoformat pub_dt in
  let display_date := strftime_dmy pub_dt in
  let description_html := text_or (item_description item) in
  let description_clean := strip_html description_html in
  let link := strip (text_or (item_link item)) in
  let eid := episode_id_from_link link in
  let rss_embed :=
    match eid with
    | Some e => if truthy e then iframe e title else []
    | None => []
    end in
  let audio_url :=
    match item_enclosure item with
    | Some (Some url) => if truthy url then strip url else []
    | _ => []
    end in
  {| title := title;
     date := iso_date;
     display_date := display_date;
     description := description_clean;
     rss_embed := rss_embed;
     audio_url := audio_url;
     link := link;
     tags := TAGS;
     draft := false |}.

(** ** The index of seen identifiers and the run (lines 22-31, 175-202) *)

(** The object of the state file: its list seen when it has one, a list of
    strings as the script saves it, and its other members, which the run does
    not touch. *)
Record FeedIndexState := {
  seen : option (list str);
  other_members : list (str * str)
}.

Definition empty_state : FeedIndexState :=
  {| seen := Some []; other_members := [] |}.

(** [load_state]: the file is absent ([None]), does not parse ([Some None])
    or holds an object. *)
Definition load_state (state_file : option (option FeedIndexState)) : FeedIndexState :=
  match state_file with
  | Some (Some st) => st
  | Some None => empty_state
  | None => empty_state
  end.

(** The order of [sorted] on strings: code point by code point. *)
Fixpoint str_leb (a b : str) : bool :=
  match a, b with
  | [], _ => true
  | _ :: _, [] => false
  | x :: a', y :: b' => (x <? y) || ((x =? y) && str_leb a' b')
  end.

Definition str_le (a b : str) : Prop := str_leb a b = true.

#[local] Instance str_le_dec (a b : str) : Decision (str_le a b).
Proof. unfold str_le. apply _. Defined.

(** [sorted(seen)] for a set of strings. *)
Definition sorted_seen (s : gset str) : list str :=
  merge_sort str_le (elements s).

(** The identifier of an item: the guid, or else the link. *)
Definition item_identifier (item : FeedItem) : str :=
  py_or (text_or (item_guid item)) (text_or (item_link item)).

(** One turn of the loop of [main] on the set seen and the counter. *)
Definition process_item (acc : gset str * Z) (item : FeedItem) : io (gset str * Z) :=
  let '(seen, changed) := acc in
  let guid := item_identifier item in
  if negb (truthy guid) then io_ret (seen, changed)
  else
    let fm := build_front_matter item in
    let slug := date fm ++ [HYPHEN] ++ slugify (title fm) in
    do updated <- write_or_update_episode_file fm slug;
    let seen := if bool_decide (guid ∉ seen) then seen ∪ {[guid]} else seen in
    let changed := if updated then changed + 1 else changed in
    io_ret (seen, changed).

Fixpoint process_items (acc : gset str * Z) (items : list FeedItem) : io (gset str * Z) :=
  match items with
  | [] => io_ret acc
  | item :: rest =>
      do acc' <- process_item acc item;
      process_items acc' rest
  end.

(** [main]: the state file as loaded, and the items of the channel of the
    feed ([None] when the feed has no channel, where the run exits with
    status 1).  The result is the state saved and the number of files
    changed.  Directories and the messages printed are left out. *)
Definition main (state_file : option (option FeedIndexState))
    (channel : option (list FeedItem)) : io (FeedIndexState * Z) :=
  let state := load_state state_file in
  let seen0 : gset str :=
    list_to_set (match seen state with Some l => l | None => [] end) in
  match channel with
  | None => fun _ => None
  | Some items =>
      do acc <- process_items (seen0, 0) items;
      let '(seen1, changed) := acc in
      let state := {| seen := Some (sorted_seen seen1);
                      other_members := other_members state |} in
      io_ret (state, changed)
  end.

(** ** Shapes used in the statements *)

(** Letters and digits separated by single hyphens: [after_hyphen] says that
    the previous character was a hyphen. *)
Fixpoint hyphens_apart (after_hyphen : bool) (s : str) : bool :=
  match s with
  | [] => true
  | c :: t =>
      if slug_alnum c then hyphens_apart false t
      else (c =? HYPHEN) && negb after_hyphen && hyphens_apart true t
  end.

(** The same, and no hyphen at the end. *)
Fixpoint slug_shape (after_hyphen : bool) (s : str) : bool :=
  match s with
  | [] => negb after_hyphen
  | c :: t =>
      if slug_alnum c then slug_shape false t
      else (c =? HYPHEN) && negb after_hyphen && slug_shape true t
  end.

(** A slug: not empty, made of the characters a-z, 0-9 and hyphen, no hyphen
    at either end and no two hyphens in a row. *)
Definition is_slug (s : str) : bool := slug_shape true s.

(** A string field as the front matter writes it: in quotes, the quotes
    inside escaped. *)
Definition quoted (s : str) : str := [QUOTE] ++ yml_escape_inline s ++ [QUOTE].

(** ** Data of the examples *)

(** The record of an item with a title, a date and a guid but no link. *)
Definition empty_link_record : EpisodeRecord :=
  {| title := py "T"; date := py "2024-01-02"; display_date := py "02-01-2024";
     description := []; rss_embed := []; audio_url := []; link := [];
     tags := TAGS; draft := false |}.

Definition example_slug : str := py "2024-01-02-t".

Definition example_path : str := episode_path example_slug.

Definition no_files : world := {| files := ∅; writes := [] |}.

Definition one_file (text : str) : world :=
  {| files := {[ example_path := text ]}; writes := [] |}.

(** A body that has the player directive after two spaces. *)
Definition indented_body : str := py "  {{< episodeplayer >}}" ++ [LF].

Definition indented_text : str :=
  py "---" ++ [LF] ++ py "x: 1" ++ [LF] ++ py "---" ++ [LF] ++ indented_body.

(** A file without front matter whose text starts with a space. *)
Definition legacy_text : str := py " x".

(** ** Observations of a run *)

(** The list seen of the state a run starts from. *)
Definition loaded_seen (state_file : option (option FeedIndexState)) : list str :=
  match seen (load_state state_file) with Some l => l | None => [] end.

(** What a run does to the content files: the number it reports changed,
    the files afterwards and the trace of its writes. *)
Definition content_effect (r : option ((FeedIndexState * Z) * world))
  : option (Z * gmap str str * list (str * str)) :=
  match r with
  | Some ((_, changed), w') => Some (changed, files w', writes w')
  | None => None
  end.

(** The four ways a link can end after its identifier. *)
Definition id_tail (tail : str) : Prop :=
  tail = [] \/ tail = [SLASH] \/ tail = [LF] \/ tail = [SLASH; LF].

(** An item whose title is one double quote. *)
Definition quote_title_item : FeedItem :=
  {| item_title := Some [QUOTE]; item_pubDate := None; item_description := None;
     item_link := Some (py "https://x/lytte/7"); item_guid := None;
     item_enclosure := None |}.

(** An item with the link and the date of the examples of the specification. *)
Definition example_item : FeedItem :=
  {| item_title := Some (py "Episode"); 
     item_pubDate := Some (py "Mon, 02 Jan 2024 10:00:00 +0000");
     item_description := None;
     item_link := Some (py "https://x/lytte/12345");
     item_guid := Some (py "guid-1");
     item_enclosure := None |}.

(** ** Records whose fields stay on their line *)

(** No line feed. *)
Definition lf_free (s : str) : bool := forallb (fun c => negb (c =? LF)) s.

(** No line feed directly followed by a hyphen. *)
Fixpoint lf_hyphen_free (s : str) : bool :=
  match s with
  | [] => true
  | c :: t => negb ((c =? LF) && starts_with [HYPHEN] t) && lf_hyphen_free t
  end.

(** No carriage return. *)
Definition cr_free (s : str) : bool := forallb (fun c => negb (c =? CR)) s.

(** The fields written in quotes hold no line feed. *)
Definition one_line_fields (fm : EpisodeRecord) : bool :=
  lf_free (title fm) && lf_free (date fm) && lf_free (display_date fm)
  && lf_free (rss_embed fm) && lf_free (audio_url fm) && lf_free (link fm).

(** ** Shapes of the further statements *)

(** No white space at either end. *)
Definition trimmed (s : str) : Prop :=
  lstrip_by is_space s = s /\ rstrip_by is_space s = s.

(** The slug [main] gives an item: its date, a hyphen and the slug of its
    title (line 193). *)
Definition item_slug (item : FeedItem) : str :=
  date (build_front_matter item) ++ [HYPHEN]
  ++ slugify (title (build_front_matter item)).

(** The items [main] does not skip. *)
Definition has_identifier (item : FeedItem) : bool :=
  truthy (item_identifier item).

(** A character of a slug: a-z, 0-9 or the hyphen. *)
Definition slug_char (c : Z) : bool := slug_alnum c || (c =? HYPHEN).


(** The world after [write_text path text]. *)
Definition after_write (path text : str) (w : world) : world :=
  {| files := <[path := text]> (files w);
     writes := writes w ++ [(path, text)] |}.


(** Whether the pattern of a tag matches somewhere in [s]. *)
Fixpoint tag_anywhere (s : str) : bool :=
  match s with
  | [] => false
  | _ :: t =>
      match match_tag s with Some _ => true | None => false end || tag_anywhere t
  end.

(** No opening angle bracket. *)
Definition bracket_free (s : str) : bool := forallb (fun c => negb (c =? 60)) s.


(** ** Dates as a feed writes them *)

Definition DAY_NAMES : list str :=
  [py "Mon"; py "Tue"; py "Wed"; py "Thu"; py "Fri"; py "Sat"; py "Sun"].

Definition MONTH_NAMES : list str :=
  [py "Jan"; py "Feb"; py "Mar"; py "Apr"; py "May"; py "Jun";
   py "Jul"; py "Aug"; py "Sep"; py "Oct"; py "Nov"; py "Dec"].

Definition month_name (m : Z) : str := nth (Z.to_nat (m - 1)) MONTH_NAMES [].

(** A date of RFC 822 with a numeric zone: the name of a day, the day, the
    month, the year, the time, and the sign, hours and minutes of the zone. *)
Definition rfc822_text (wd : str) (d m y hh mi ss sign zh zm : Z) : str :=
  wd ++ py ", " ++ pad2 d ++ py " " ++ month_name m ++ py " " ++ pad4 y ++ py " "
  ++ pad2 hh ++ py ":" ++ pad2 mi ++ py ":" ++ pad2 ss ++ py " "
  ++ [sign] ++ pad2 zh ++ pad2 zm.

(** The character a match of the zone directive ends with: a digit or the
    capital letter Z. *)
Definition final_char (c : Z) : Prop := is_digit c = true \/ c = 90.

(** Every match of [p] takes a prefix of its input that satisfies [good]. *)
Definition consumes {A : Type} (good : str -> Prop) (p : parser A) : Prop :=
  forall s v r, In (v, r) (p s) -> exists c, s = c ++ r /\ good c.

Definition anything (c : str) : Prop := True.

Definition closing (c : str) : Prop := exists c' x, c = c' ++ [x] /\ final_char x.

Definition nothing_or_closing (c : str) : Prop := c = [] \/ closing c.


(** A file with front matter whose body lacks the player token. *)
Definition plain_body : str := py "hello" ++ [LF].

Definition plain_text : str :=
  py "---" ++ [LF] ++ py "x: 1" ++ [LF] ++ py "---" ++ [LF] ++ plain_body.


(** ** The writer seen from one file *)

(** A world that holds at most the file [p]. *)
Definition file_world (p : str) (c : option str) : world :=
  {| files := match c with Some t => {[ p := t ]} | None => ∅ end; writes := [] |}.

(** What the writer answers and leaves in the file of the episode, when the
    file holds [c] before ([None]: no file). *)
Definition writer_result (fm : EpisodeRecord) (slug : str) (c : option str)
  : bool * option str :=
  match write_or_update_episode_file fm slug (file_world (episode_path slug) c) with
  | Some (b, w') => (b, files w' !! episode_path slug)
  | None => (false, c)
  end.

(** The record of the item keeps its quoted fields on their lines, and the
    text generated for it holds no carriage return. *)
Definition plain_record (item : FeedItem) : bool :=
  let fm := build_front_matter item in
  one_line_fields fm && cr_free (render_front_matter fm ++ standard_body fm).


(** An item with a title, a date and a guid but no link. *)
Definition no_link_item : FeedItem :=
  {| item_title := Some (py "T");
     item_pubDate := Some (py "Mon, 02 Jan 2024 10:00:00 +0000");
     item_description := None;
     item_link := None;
     item_guid := Some (py "guid-2");
     item_enclosure := None |}.


(** ** The lines of the front matter *)

(** [s.split] at the line feed: the lines of a text. *)
Fixpoint lines_lf (s : str) : list str :=
  match s with
  | [] => [[]]
  | c :: t =>
      if c =? LF then [] :: lines_lf t
      else match lines_lf t with
           | l :: ls => (c :: l) :: ls
           | [] => [[c]]
           end
  end.

(** A line at the top level of a mapping: not blank and not indented. *)
Definition top_level (l : str) : bool :=
  match l with
  | [] => false
  | c :: _ => negb (c =? 32)
  end.

(** What stands before the first colon of a line. *)
Fixpoint line_key (l : str) : str :=
  match l with
  | [] => []
  | c :: t => if c =? 58 then [] else c :: line_key t
  end.

(** What the top-level lines of a text start with, line by line. *)
Definition front_matter_keys (text : str) : list str :=
  map line_key (List.filter top_level (lines_lf text)).

(** A record whose title holds a line feed followed by the text of an
    entry, and one whose title holds a marker line. *)
Definition newline_title_record : EpisodeRecord :=
  {| title := py "x" ++ [LF] ++ py "draft: true";
     date := py "2024-01-02"; display_date := py "02-01-2024";
     description := []; rss_embed := []; audio_url := []; link := [];
     tags := TAGS; draft := false |}.

Definition marker_title_record : EpisodeRecord :=
  {| title := py "x" ++ [LF] ++ py "---" ++ [LF] ++ py "y";
     date := py "2024-01-02"; display_date := py "02-01-2024";
     description := []; rss_embed := []; audio_url := []; link := [];
     tags := TAGS; draft := false |}.


(** An item whose title holds a line feed. *)
Definition newline_title_item : FeedItem :=
  {| item_title := Some (py "x" ++ [LF] ++ py "draft: true");
     item_pubDate := Some (py "Mon, 02 Jan 2024 10:00:00 +0000");
     item_description := None;
     item_link := None;
     item_guid := Some (py "guid-3");
     item_enclosure := None |}.


(** The date of the item is read from its pubDate: one of the two parsers
    accepts it, and the clock is not asked. *)
Definition dated (item : FeedItem) : bool :=
  match strptime_rfc822 (text_or (item_pubDate item)) with
  | Some _ => true
  | None =>
      match fromisoformat_date (text_or (item_pubDate item)) with
      | Some _ => true
      | None => false
      end
  end.

(** A second item with a link and a date. *)
Definition second_item : FeedItem :=
  {| item_title := Some (py "Second");
     item_pubDate := Some (py "Tue, 09 Jan 2024 10:00:00 +0000");
     item_description := None;
     item_link := Some (py "https://x/lytte/7");
     item_guid := None;
     item_enclosure := None |}.


(** * Properties *)

#[local] Arguments Z.eqb : simpl never.
#[local] Arguments Z.leb : simpl never.
#[local] Arguments Z.ltb : simpl never.

(** Comparisons of an integer that the context bounds. *)
Ltac decide_cmp :=
  repeat match goal with
  | |- context [Z.leb ?a ?b] =>
      first [rewrite (proj2 (Z.leb_le a b)) by lia
            |rewrite (proj2 (Z.leb_gt a b)) by lia]
  | |- context [Z.ltb ?a ?b] =>
      first [rewrite (proj2 (Z.ltb_lt a b)) by lia
            |rewrite (proj2 (Z.ltb_ge a b)) by lia]
  | |- context [Z.eqb ?a ?b] =>
      first [rewrite (proj2 (Z.eqb_eq a b)) by lia
            |rewrite (proj2 (Z.eqb_neq a b)) by lia]
  end.

(** Literals as lists, and concatenations nested to the right. *)
Ltac eval_py :=
  repeat match goal with
  | |- context [py ?s] =>
      let v := eval vm_compute in (py s) in change (py s) with v
  end.

Ltac norm_app := repeat first [rewrite <- app_assoc | progress cbn [app]].

(** ** Slugs *)

Lemma slug_alnum_facts c :
  slug_alnum c = true ->
  is_space c = false /\ is_ascii c = true /\ ascii_lower c = c /\
  (c =? HYPHEN) = false /\ (c =? 229) = false /\ (c =? 248) = false /\
  (c =? 230) = false.
Proof.
  unfold slug_alnum, ascii_digit, is_space, is_ascii, ascii_lower, HYPHEN.
  intros H.
  assert (Hc : 97 <= c <= 122 \/ 48 <= c <= 57).
  { apply orb_prop in H as [H|H]; apply andb_prop in H as [H1 H2]; lia. }
  clear H. destruct Hc; repeat split; decide_cmp; reflexivity.
Qed.

Lemma hyphen_not_alnum c : (c =? HYPHEN) = true -> slug_alnum c = false.
Proof. unfold HYPHEN. intros H. assert (c = 45) by lia. subst. reflexivity. Qed.

Lemma slug_shape_weaken s : slug_shape true s = true -> slug_shape false s = true.
Proof.
  destruct s as [|c t]; simpl; [discriminate|].
  destruct (slug_alnum c); [auto|]. rewrite andb_false_r. discriminate.
Qed.

Lemma slug_shape_rstrip p b s :
  (forall c, slug_alnum c = true -> p c = false) ->
  slug_shape b s = true -> rstrip_by p s = s.
Proof.
  intros Hp. revert b. induction s as [|c t IH]; intros b H; simpl in *; [reflexivity|].
  destruct (slug_alnum c) eqn:Ec.
  - rewrite (IH _ H). destruct t; [rewrite (Hp _ Ec)|]; reflexivity.
  - apply andb_prop in H as [_ H]. rewrite (IH _ H).
    destruct t; [discriminate|reflexivity].
Qed.

Lemma slug_shape_lstrip p s :
  (forall c, slug_alnum c = true -> p c = false) ->
  slug_shape true s = true -> lstrip_by p s = s.
Proof.
  intros Hp H. destruct s as [|c t]; simpl in *; [reflexivity|].
  destruct (slug_alnum c) eqn:Ec; [rewrite (Hp _ Ec); reflexivity|].
  rewrite andb_false_r in H. discriminate.
Qed.

Lemma slug_shape_chars b s :
  slug_shape b s = true -> Forall (fun c => slug_alnum c = true \/ c = HYPHEN) s.
Proof.
  revert b. induction s as [|c t IH]; intros b H; simpl in *; constructor.
  - destruct (slug_alnum c); [auto|]. right. unfold HYPHEN in *. lia.
  - destruct (slug_alnum c); [eauto|]. apply andb_prop in H as [_ H]. eauto.
Qed.

Lemma slug_chars_lower s :
  Forall (fun c => slug_alnum c = true \/ c = HYPHEN) s -> str_lower s = s.
Proof.
  intros H. unfold str_lower.
  assert (Ha : forallb is_ascii s = true).
  { induction H as [|c t [Hc| ->] _ IH]; simpl; [reflexivity| |exact IH].
    apply slug_alnum_facts in Hc as (_ & -> & _). exact IH. }
  rewrite Ha. clear Ha.
  induction H as [|c t [Hc| ->] _ IH]; simpl; [reflexivity| |]; rewrite IH.
  - apply slug_alnum_facts in Hc as (_ & _ & -> & _). reflexivity.
  - reflexivity.
Qed.

Lemma replace1_absent old new s :
  Forall (fun c => (c =? old) = false) s -> replace1 old new s = s.
Proof.
  unfold replace1. induction 1 as [|c t Hc _ IH]; simpl; [reflexivity|].
  rewrite Hc. simpl. f_equal. exact IH.
Qed.

Lemma slug_chars_prepare s :
  Forall (fun c => slug_alnum c = true \/ c = HYPHEN) s ->
  replace1 229 (py "a") (replace1 248 (py "o") (replace1 230 (py "ae") s)) = s.
Proof.
  intros H.
  assert (Hx : forall old, old = 229 \/ old = 248 \/ old = 230 ->
               Forall (fun c => (c =? old) = false) s).
  { intros old Ho. eapply Forall_impl; [exact H|]. intros c [Hc| ->].
    - apply slug_alnum_facts in Hc. destruct Ho as [->|[->| ->]]; tauto.
    - destruct Ho as [->|[->| ->]]; reflexivity. }
  rewrite (replace1_absent 230) by (apply Hx; auto).
  rewrite (replace1_absent 248) by (apply Hx; auto).
  apply replace1_absent, Hx; auto.
Qed.

Lemma slug_shape_sub_non_alnum b s :
  slug_shape b s = true -> sub_non_alnum_from b s = s.
Proof.
  revert b. induction s as [|c t IH]; intros b H; simpl in *; [reflexivity|].
  destruct (slug_alnum c); [rewrite (IH _ H); reflexivity|].
  apply andb_prop in H as [H Ht]. apply andb_prop in H as [Hc Hb].
  destruct b; [discriminate|]. rewrite (IH _ Ht).
  unfold HYPHEN in *. f_equal. lia.
Qed.

Lemma hyphens_apart_sub_hyphen_runs b s :
  hyphens_apart b s = true -> sub_hyphen_runs_from b s = s.
Proof.
  revert b. induction s as [|c t IH]; intros b H; simpl in *; [reflexivity|].
  destruct (slug_alnum c) eqn:Ec.
  - apply slug_alnum_facts in Ec as (_ & _ & _ & -> & _).
    rewrite (IH _ H). reflexivity.
  - apply andb_prop in H as [H Ht]. apply andb_prop in H as [Hc Hb].
    rewrite Hc. destruct b; [discriminate|]. rewrite (IH _ Ht).
    unfold HYPHEN in *. f_equal. lia.
Qed.

Lemma slug_shape_hyphens_apart b s :
  slug_shape b s = true -> hyphens_apart b s = true.
Proof.
  revert b. induction s as [|c t IH]; intros b H; simpl in *; [reflexivity|].
  destruct (slug_alnum c); [eauto|].
  apply andb_prop in H as [H Ht]. rewrite H. simpl. eauto.
Qed.

(** The slug patterns leave a slug as it is. *)
Lemma is_slug_fixed s : is_slug s = true -> slugify s = s.
Proof.
  unfold is_slug. intros H.
  assert (Hsp : forall c, slug_alnum c = true -> is_space c = false)
    by (intros c Hc; apply slug_alnum_facts in Hc; tauto).
  assert (Hhy : forall c, slug_alnum c = true -> (HYPHEN =? c) = false).
  { intros c Hc. apply slug_alnum_facts in Hc as (_ & _ & _ & Hc & _).
    rewrite Z.eqb_sym. exact Hc. }
  pose proof (slug_shape_chars _ _ H) as Hch.
  unfold slugify, slug_prepare, strip, strip_char, strip_by.
  rewrite (slug_shape_lstrip _ _ Hsp H), (slug_shape_rstrip _ _ _ Hsp H).
  rewrite (slug_chars_lower _ Hch), (slug_chars_prepare _ Hch).
  unfold sub_non_alnum, sub_hyphen_runs.
  rewrite (slug_shape_sub_non_alnum _ _ (slug_shape_weaken _ H)).
  rewrite (hyphens_apart_sub_hyphen_runs _ _
             (slug_shape_hyphens_apart _ _ (slug_shape_weaken _ H))).
  rewrite (slug_shape_lstrip _ _ Hhy H), (slug_shape_rstrip _ _ _ Hhy H).
  destruct s; [discriminate|reflexivity].
Qed.

Lemma sub_non_alnum_apart b s : hyphens_apart b (sub_non_alnum_from b s) = true.
Proof.
  revert b. induction s as [|c t IH]; intros b; simpl; [reflexivity|].
  destruct (slug_alnum c) eqn:Ec; simpl.
  - rewrite Ec. apply IH.
  - destruct b; [apply IH|]. simpl. rewrite IH. reflexivity.
Qed.

Lemma hyphens_apart_lstrip b s :
  hyphens_apart b s = true -> hyphens_apart true (lstrip_by (Z.eqb HYPHEN) s) = true.
Proof.
  revert b. induction s as [|c t IH]; intros b H; simpl in *; [reflexivity|].
  destruct (HYPHEN =? c) eqn:Eh.
  - rewrite Z.eqb_sym in Eh. rewrite (hyphen_not_alnum _ Eh) in H.
    apply andb_prop in H as [_ H]. eauto.
  - simpl. destruct (slug_alnum c); [exact H|].
    rewrite Z.eqb_sym in Eh. rewrite Eh in H. discriminate.
Qed.

Lemma hyphens_apart_rstrip b s :
  hyphens_apart b s = true ->
  rstrip_by (Z.eqb HYPHEN) s = [] \/ slug_shape b (rstrip_by (Z.eqb HYPHEN) s) = true.
Proof.
  revert b. induction s as [|c t IH]; intros b H; simpl in *; [auto|].
  destruct (slug_alnum c) eqn:Ec.
  - right. specialize (IH _ H). destruct (rstrip_by _ t) as [|z l] eqn:Er.
    + pose proof (slug_alnum_facts _ Ec) as (_ & _ & _ & Hc & _).
      rewrite Z.eqb_sym, Hc. simpl. rewrite Ec. reflexivity.
    + destruct IH as [E|E]; [discriminate|]. simpl. rewrite Ec. exact E.
  - apply andb_prop in H as [H Ht]. apply andb_prop in H as [Hc Hb].
    destruct (IH _ Ht) as [E|E].
    + left. rewrite E, Z.eqb_sym, Hc. reflexivity.
    + right. destruct (rstrip_by _ t) as [|z l] eqn:Er; [discriminate|].
      change (slug_shape b (c :: z :: l) = true).
      cbn [slug_shape]. cbn [slug_shape] in E. rewrite Ec, Hc, Hb. exact E.
Qed.

(** Every result of [slugify] is a slug. *)
Lemma slugify_is_slug x : is_slug (slugify x) = true.
Proof.
  unfold slugify, strip_char, strip_by, sub_non_alnum, sub_hyphen_runs.
  set (u := sub_non_alnum_from false (slug_prepare x)).
  pose proof (sub_non_alnum_apart false (slug_prepare x)) as Hu. fold u in Hu.
  rewrite (hyphens_apart_sub_hyphen_runs _ _ Hu).
  destruct (hyphens_apart_rstrip _ _ (hyphens_apart_lstrip _ _ Hu)) as [E|E].
  - rewrite E. reflexivity.
  - unfold py_or. destruct (rstrip_by _ _) eqn:Er; [reflexivity|]. exact E.
Qed.

(** C7. Slugify is idempotent: for every string x, the slug of the slug of
    x is the slug of x. *)
Theorem slugify_idempotent (x : str) : slugify (slugify x) = slugify x.
Proof. apply is_slug_fixed, slugify_is_slug. Qed.

Lemma no_alnum_sub s :
  forallb (fun c => negb (slug_alnum c)) s = true ->
  sub_non_alnum_from true s = [] /\
  (sub_non_alnum_from false s = [] \/ sub_non_alnum_from false s = [HYPHEN]).
Proof.
  induction s as [|c t IH]; simpl; [auto|].
  intros H. apply andb_prop in H as [Hc Ht]. apply negb_true_iff in Hc.
  rewrite Hc. destruct (IH Ht) as [E _]. rewrite E. auto.
Qed.

Lemma filter_sub_non_alnum b s :
  List.filter slug_alnum (sub_non_alnum_from b s) = List.filter slug_alnum s.
Proof.
  revert b. induction s as [|c t IH]; intros b; simpl; [reflexivity|].
  destruct (slug_alnum c) eqn:Ec.
  - simpl. rewrite Ec. f_equal. apply IH.
  - destruct b; simpl; apply IH.
Qed.

Lemma filter_lstrip_hyphen s :
  List.filter slug_alnum (lstrip_by (Z.eqb HYPHEN) s) = List.filter slug_alnum s.
Proof.
  induction s as [|c t IH]; simpl; [reflexivity|].
  destruct (HYPHEN =? c) eqn:Eh; [|reflexivity].
  rewrite Z.eqb_sym in Eh. rewrite (hyphen_not_alnum _ Eh). exact IH.
Qed.

Lemma filter_rstrip_hyphen s :
  List.filter slug_alnum (rstrip_by (Z.eqb HYPHEN) s) = List.filter slug_alnum s.
Proof.
  induction s as [|c t IH]; simpl; [reflexivity|].
  rewrite <- IH. destruct (rstrip_by _ t) as [|z l].
  - destruct (HYPHEN =? c) eqn:Eh; [|reflexivity].
    rewrite Z.eqb_sym in Eh. rewrite (hyphen_not_alnum _ Eh). reflexivity.
  - reflexivity.
Qed.

(** C8. Slugify never returns the empty string.  An input whose prepared
    text (trimmed, lowered, with the three letters replaced) has no character
    of a-z or 0-9 gives the literal episode; any other input keeps exactly
    those characters, in their order. *)
Theorem slugify_never_empty (x : str) :
  slugify x <> [] /\
  (forallb (fun c => negb (slug_alnum c)) (slug_prepare x) = true ->
   slugify x = py "episode") /\
  (existsb slug_alnum (slug_prepare x) = true ->
   List.filter slug_alnum (slugify x) = List.filter slug_alnum (slug_prepare x)).
Proof.
  split; [|split].
  - pose proof (slugify_is_slug x) as H. intros E. rewrite E in H. discriminate.
  - intros H. apply no_alnum_sub in H as [_ H].
    unfold slugify, sub_non_alnum. destruct H as [-> | ->]; reflexivity.
  - intros H. unfold slugify, strip_char, strip_by, sub_non_alnum, sub_hyphen_runs.
    set (u := sub_non_alnum_from false (slug_prepare x)).
    pose proof (sub_non_alnum_apart false (slug_prepare x)) as Hu. fold u in Hu.
    rewrite (hyphens_apart_sub_hyphen_runs _ _ Hu).
    assert (Hf : List.filter slug_alnum
                   (rstrip_by (Z.eqb HYPHEN) (lstrip_by (Z.eqb HYPHEN) u))
                 = List.filter slug_alnum (slug_prepare x)).
    { rewrite filter_rstrip_hyphen, filter_lstrip_hyphen. apply filter_sub_non_alnum. }
    unfold py_or. destruct (rstrip_by _ _) as [|z l]; [|exact Hf].
    exfalso. apply existsb_exists in H as (c & Hin & Hc).
    assert (Hin' : In c (List.filter slug_alnum (slug_prepare x)))
      by (apply filter_In; auto).
    rewrite <- Hf in Hin'. destruct Hin'.
Qed.

(** ** Front matter *)

(** The text of the front matter, line by line. *)
Lemma render_front_matter_layout (fm : EpisodeRecord) :
  render_front_matter fm =
    py "---" ++ [LF]
    ++ py "title: " ++ quoted (title fm) ++ [LF]
    ++ py "date: " ++ quoted (date fm) ++ [LF]
    ++ py "display_date: " ++ quoted (display_date fm) ++ [LF]
    ++ py "description: " ++ yml_block (description fm) ++ [LF]
    ++ py "rss_embed: " ++ quoted (rss_embed fm) ++ [LF]
    ++ py "audio_url: " ++ quoted (audio_url fm) ++ [LF]
    ++ py "link: " ++ quoted (link fm) ++ [LF]
    ++ TAGS_LINE ++ [LF]
    ++ py "draft: " ++ (if draft fm then py "true" else py "false") ++ [LF]
    ++ py "---" ++ [LF].
Proof.
  destruct fm as [t d dd de em au li tg dr].
  unfold render_front_matter, FRONTMATTER_ORDER, quoted. cbn [fold_left].
  unfold render_entry, fm_get.
  repeat match goal with
         | |- context [str_eqb ?a ?b] =>
             let v := eval vm_compute in (str_eqb a b) in
             change (str_eqb a b) with v
         end.
  cbn [as_str py_str title date display_date description rss_embed audio_url
       link tags draft].
  destruct dr; cbn [py_str];
    repeat match goal with
           | |- context [str_lower ?a] =>
               let v := eval vm_compute in (str_lower a) in
               change (str_lower a) with v
           end;
    unfold MARKER, TAGS_LINE; eval_py; norm_app; cbn [join]; norm_app; reflexivity.
Qed.

Lemma starts_with_app p x y :
  starts_with p x = true -> starts_with p (x ++ y) = true.
Proof.
  revert x. induction p as [|a p IH]; intros [|b x] H; simpl in *;
    try reflexivity; try discriminate.
  apply andb_prop in H as [-> H]. simpl. auto.
Qed.

Lemma ends_with_app_r suf a b :
  ends_with suf b = true -> ends_with suf (a ++ b) = true.
Proof. unfold ends_with. rewrite rev_app_distr. apply starts_with_app. Qed.

(** ** Trimming *)

Lemma rstrip_by_last p s :
  match rev (rstrip_by p s) with
  | [] => True
  | c :: _ => p c = false
  end.
Proof.
  induction s as [|c t IH]; simpl; [exact I|].
  destruct (rstrip_by p t) as [|z l].
  - destruct (p c) eqn:Ep; simpl; auto.
  - change (rev (c :: z :: l)) with (rev (z :: l) ++ [c]).
    destruct (rev (z :: l)) eqn:Er; [|exact IH].
    simpl in Er. destruct (rev l); discriminate.
Qed.

Lemma strip_no_final_newline s : ends_with [LF] (strip s) = false.
Proof.
  unfold ends_with, strip, strip_by.
  pose proof (rstrip_by_last is_space (lstrip_by is_space s)) as H.
  destruct (rev (rstrip_by is_space (lstrip_by is_space s))) as [|c r]; [reflexivity|].
  simpl. destruct (Z.eqb_spec LF c) as [<-|]; [discriminate|reflexivity].
Qed.

Lemma contains_nil_r tok : contains tok [] = true -> tok = [].
Proof. destruct tok; simpl; [reflexivity|discriminate]. Qed.

Lemma contains_lstrip a tok s :
  is_space a = false ->
  contains (a :: tok) s = true -> contains (a :: tok) (lstrip_by is_space s) = true.
Proof.
  intros Ha. induction s as [|c t IH]; [auto|].
  cbn [lstrip_by]. destruct (is_space c) eqn:Ec; [|auto].
  cbn [contains starts_with]. destruct (Z.eqb_spec a c) as [->|]; [congruence|].
  simpl. exact IH.
Qed.

Lemma starts_with_rstrip tok s :
  tok <> [] -> forallb (fun c => negb (is_space c)) tok = true ->
  starts_with tok s = true -> starts_with tok (rstrip_by is_space s) = true.
Proof.
  revert s. induction tok as [|a tok IH]; intros s Hne Hall H; [congruence|].
  destruct s as [|c t]; [discriminate|].
  cbn [starts_with forallb] in *.
  apply andb_prop in H as [Hac Ht]. apply andb_prop in Hall as [Ha Hall].
  apply negb_true_iff in Ha. apply Z.eqb_eq in Hac. subst c.
  cbn [rstrip_by]. destruct tok as [|b tok].
  - destruct (rstrip_by is_space t); [rewrite Ha|]; simpl; rewrite Z.eqb_refl; reflexivity.
  - specialize (IH t ltac:(discriminate) Hall Ht).
    destruct (rstrip_by is_space t) as [|z l]; [discriminate|].
    cbn [starts_with]. rewrite Z.eqb_refl. exact IH.
Qed.

Lemma contains_rstrip tok s :
  tok <> [] -> forallb (fun c => negb (is_space c)) tok = true ->
  contains tok s = true -> contains tok (rstrip_by is_space s) = true.
Proof.
  intros Hne Hall. induction s as [|c t IH]; intros H.
  - apply contains_nil_r in H. congruence.
  - cbn [contains] in H. apply orb_prop in H as [H|H].
    + apply (starts_with_rstrip _ _ Hne Hall) in H.
      destruct (rstrip_by is_space (c :: t)); simpl; rewrite H; reflexivity.
    + specialize (IH H). cbn [rstrip_by].
      destruct (rstrip_by is_space t) as [|z l].
      * apply contains_nil_r in IH. congruence.
      * cbn [contains]. cbn [contains] in IH. rewrite IH. apply orb_true_r.
Qed.

(** The player token of a body is still there after trimming. *)
Lemma contains_token_strip s :
  contains PLAYER_TOKEN s = true ->
  contains PLAYER_TOKEN (strip s) = true /\ truthy (strip s) = true.
Proof.
  intros H.
  assert (Hc : contains PLAYER_TOKEN (strip s) = true).
  { unfold strip, strip_by. apply contains_rstrip; [discriminate|reflexivity|].
    apply (contains_lstrip 101); [reflexivity|exact H]. }
  split; [exact Hc|]. destruct (strip s); [discriminate|reflexivity].
Qed.

(** ** The front-matter pattern *)

Lemma split_at_closing_app a b :
  (exists g, split_at_closing b = Some g) ->
  exists g, split_at_closing (a ++ b) = Some g.
Proof.
  intros Hb. induction a as [|c a IH]; [exact Hb|].
  cbn [app split_at_closing].
  destruct (closing_marker (c :: a ++ b)); [eauto|].
  destruct IH as [[g1 g2] ->]. eauto.
Qed.

(** What [render_front_matter] writes is matched by the pattern, whatever
    follows it. *)
Lemma match_front_matter_render fm rest :
  exists g, match_front_matter (render_front_matter fm ++ rest) = Some g.
Proof.
  rewrite render_front_matter_layout. rewrite <- !app_assoc.
  unfold match_front_matter.
  change (strip_prefix MARKER (py "---" ++ [LF] ++ ?x)) with (Some ([LF] ++ x)).
  cbn [app eat_newline]. rewrite Z.eqb_refl.
  repeat first [ solve [eexists; reflexivity]
               | apply split_at_closing_app
               | apply (split_at_closing_app [_]) ].
Qed.

(** ** The writer *)

Lemma str_eqb_eq a b : str_eqb a b = true <-> a = b.
Proof. unfold str_eqb. apply bool_decide_eq_true. Qed.

(** Normalization of a file whose body holds the player token. *)
Lemma normalize_file_with_token
    (p : str) (fm : EpisodeRecord) (w : world) (stored g1 g2 : str) :
  files w !! p = Some stored ->
  match_front_matter (universal_newlines stored) = Some (g1, g2) ->
  contains PLAYER_TOKEN g2 = true ->
  normalize_file p fm w =
    if str_eqb (render_front_matter fm ++ strip g2 ++ [LF]) (universal_newlines stored)
    then Some (false, w)
    else Some (true,
               {| files := <[p := render_front_matter fm ++ strip g2 ++ [LF]]> (files w);
                  writes := writes w
                            ++ [(p, render_front_matter fm ++ strip g2 ++ [LF])] |}).
Proof.
  intros Hf Hm Hc. unfold normalize_file, io_bind, read_text.
  rewrite Hf, Hm.
  destruct (contains_token_strip _ Hc) as [Hc' Ht]. rewrite Hc', Ht.
  cbn [negb orb]. rewrite strip_no_final_newline. cbn [negb].
  destruct (str_eqb _ (universal_newlines stored)); reflexivity.
Qed.

(** C2, as the code has it.  When the text read from an existing file
    matches the front-matter pattern and its body holds the player token,
    normalization gives the file the front matter of the current record
    followed by the body with the white space at its two ends removed and one
    line feed added.  The file is written, and reported changed, exactly when
    this text differs from the text read. *)
Theorem normalize_keeps_trimmed_body
    (p : str) (fm : EpisodeRecord) (w : world) (stored g1 g2 : str) :
  files w !! p = Some stored ->
  let text := universal_newlines stored in
  match_front_matter text = Some (g1, g2) ->
  contains PLAYER_TOKEN g2 = true ->
  let new := render_front_matter fm ++ strip g2 ++ [LF] in
  normalize_file p fm w =
    if str_eqb new text then Some (false, w)
    else Some (true, {| files := <[p := new]> (files w);
                        writes := writes w ++ [(p, new)] |}).
Proof.
  intros Hf text Hm Hc new.
  exact (normalize_file_with_token p fm w stored g1 g2 Hf Hm Hc).
Qed.

(** C3, as the code has it.  When the text read from an existing file does
    not match the front-matter pattern, normalization writes the front matter
    of the record and the generated body and then, when the old text is not
    blank, the separator, the old text with the white space at its two ends
    removed, and a line feed.  It always reports the file changed, and the
    text written matches the front-matter pattern. *)
Theorem normalize_malformed_keeps_trimmed_text
    (p : str) (fm : EpisodeRecord) (w : world) (stored : str) :
  files w !! p = Some stored ->
  let text := universal_newlines stored in
  match_front_matter text = None ->
  let new :=
    render_front_matter fm ++ standard_body fm ++
    (if truthy (strip text) then LEGACY_SEPARATOR ++ strip text ++ [LF] else []) in
  normalize_file p fm w =
    Some (true, {| files := <[p := new]> (files w);
                   writes := writes w ++ [(p, new)] |}) /\
  exists g1 g2, match_front_matter new = Some (g1, g2).
Proof.
  intros Hf text Hm new. split.
  - unfold normalize_file, io_bind, read_text, write_text, io_ret.
    rewrite Hf. fold text. rewrite Hm. subst new.
    destruct (truthy (strip text)); rewrite <- ?app_assoc, ?app_nil_r; reflexivity.
  - destruct (match_front_matter_render fm
                (standard_body fm ++
                 (if truthy (strip text)
                  then LEGACY_SEPARATOR ++ strip text ++ [LF] else [])))
      as [[g1 g2] H].
    exists g1, g2. exact H.
Qed.

(** C1, at a record with an empty link.  The writer creates the file, and
    run again with the same record it writes the file once more and reports
    it changed: the generated body ends with a space before its line feed,
    which the second run trims away. *)
Theorem rerun_with_empty_link_rewrites :
  exists w1 w2 c1 c2,
    write_or_update_episode_file empty_link_record example_slug no_files
      = Some (true, w1) /\
    files w1 !! example_path = Some c1 /\
    write_or_update_episode_file empty_link_record example_slug w1
      = Some (true, w2) /\
    files w2 !! example_path = Some c2 /\
    c1 = render_front_matter empty_link_record ++ standard_body empty_link_record /\
    c2 = render_front_matter empty_link_record
         ++ rstrip (standard_body empty_link_record) ++ [LF] /\
    ends_with (py ": " ++ [LF]) c1 = true /\
    ends_with (py ":" ++ [LF]) c2 = true /\
    c1 <> c2.
Proof.
  do 4 eexists.
  split; [vm_compute; reflexivity|].
  split; [vm_compute; reflexivity|].
  split; [vm_compute; reflexivity|].
  split; [vm_compute; reflexivity|].
  split; [vm_compute; reflexivity|].
  split; [vm_compute; reflexivity|].
  split; [vm_compute; reflexivity|].
  split; [vm_compute; reflexivity|].
  vm_compute. discriminate.
Qed.

(** ** The episode identifier and the embed *)

Lemma span_digits_spec s d r :
  span_digits s = (d, r) ->
  s = d ++ r /\ forallb is_digit d = true /\
  match r with [] => True | c :: _ => is_digit c = false end.
Proof.
  revert d r. induction s as [|c t IH]; intros d r H; cbn [span_digits] in H.
  - inversion H. auto.
  - destruct (is_digit c) eqn:Ec.
    + destruct (span_digits t) as [d' r'] eqn:Et. inversion H; subst.
      destruct (IH _ _ eq_refl) as (-> & Hd & Hr).
      cbn [forallb]. rewrite Ec, Hd. auto.
    + inversion H; subst. auto.
Qed.

Lemma span_digits_app d r :
  forallb is_digit d = true ->
  match r with [] => True | c :: _ => is_digit c = false end ->
  span_digits (d ++ r) = (d, r).
Proof.
  intros Hd Hr. induction d as [|c d IH]; cbn [app span_digits].
  - destruct r as [|c r]; [reflexivity|]. cbn [span_digits]. rewrite Hr. reflexivity.
  - cbn [forallb] in Hd. apply andb_prop in Hd as [-> Hd]. rewrite (IH Hd). reflexivity.
Qed.

Lemma at_end_spec s : at_end s = true -> s = [] \/ s = [LF].
Proof.
  destruct s as [|c [|c' t]]; cbn; auto; intros H.
  - right. f_equal. apply andb_prop in H as [H _]. unfold LF in *. lia.
  - apply andb_prop in H as [_ H]. discriminate.
Qed.

Lemma match_id_here_spec s d :
  match_id_here s = Some d ->
  d <> [] /\ forallb is_digit d = true /\
  exists tail, s = SLASH :: d ++ tail /\ id_tail tail.
Proof.
  unfold match_id_here, id_tail. destruct s as [|c t]; [discriminate|].
  destruct (Z.eqb_spec c SLASH) as [->|]; [|discriminate].
  destruct (span_digits t) as [d' r] eqn:Et.
  destruct (span_digits_spec _ _ _ Et) as (-> & Hd & Hr).
  destruct d' as [|x d']; [discriminate|]. cbn [truthy negb].
  destruct r as [|c' r'].
  - intros H. inversion H; subst. split; [discriminate|]. split; [exact Hd|].
    exists []. auto.
  - destruct (Z.eqb_spec c' SLASH) as [->|].
    + cbn [andb]. destruct (at_end r') eqn:Er.
      * intros H. inversion H; subst. split; [discriminate|]. split; [exact Hd|].
        apply at_end_spec in Er as [-> | ->]; eexists; split; eauto.
      * destruct (at_end (SLASH :: r')) eqn:Er'; [|discriminate].
        apply at_end_spec in Er' as [E|E]; discriminate.
    + cbn [andb]. destruct (at_end (c' :: r')) eqn:Er; [|discriminate].
      intros H. inversion H; subst. split; [discriminate|]. split; [exact Hd|].
      apply at_end_spec in Er as [E|E]; [discriminate|]. rewrite E. eauto 6.
Qed.

Lemma search_id_spec s d :
  search_id s = Some d ->
  d <> [] /\ forallb is_digit d = true /\
  exists pre tail, s = pre ++ SLASH :: d ++ tail /\ id_tail tail.
Proof.
  induction s as [|c t IH]; cbn [search_id].
  - destruct (match_id_here []) eqn:E; [|discriminate]. discriminate.
  - destruct (match_id_here (c :: t)) as [d'|] eqn:E.
    + intros H. inversion H; subst.
      destruct (match_id_here_spec _ _ E) as (Hn & Hd & tail & -> & Ht).
      split; [exact Hn|]. split; [exact Hd|]. exists [], tail. auto.
    + intros H. destruct (IH H) as (Hn & Hd & pre & tail & -> & Ht).
      split; [exact Hn|]. split; [exact Hd|]. exists (c :: pre), tail. auto.
Qed.

Lemma not_digit_slash : is_digit SLASH = false.
Proof. reflexivity. Qed.

Lemma not_digit_newline : is_digit LF = false.
Proof. reflexivity. Qed.

Lemma match_id_here_found d tail :
  d <> [] -> forallb is_digit d = true -> tail = [] \/ tail = [SLASH] ->
  match_id_here (SLASH :: d ++ tail) = Some d.
Proof.
  intros Hn Hd Ht. unfold match_id_here. rewrite Z.eqb_refl.
  rewrite (span_digits_app d tail Hd)
    by (destruct Ht as [-> | ->]; [exact I|exact not_digit_slash]).
  destruct d; [congruence|]. cbn [truthy negb].
  destruct Ht as [-> | ->]; reflexivity.
Qed.

(** No earlier position matches: a match would end at most two characters
    after its digits, before the identifier. *)
Lemma match_id_here_early c pre d tail :
  d <> [] -> forallb is_digit d = true -> tail = [] \/ tail = [SLASH] ->
  match_id_here (c :: pre ++ SLASH :: d ++ tail) = None.
Proof.
  intros Hn Hd Ht.
  destruct (match_id_here (c :: pre ++ SLASH :: d ++ tail)) as [d'|] eqn:E;
    [exfalso|reflexivity].
  destruct (match_id_here_spec _ _ E) as (_ & Hd' & tail' & Heq & Ht').
  inversion Heq as [[Hc HX]]. clear Heq E Hc.
  assert (Hle : (length d' <= length pre)%nat).
  { destruct (Nat.le_gt_cases (length d') (length pre)) as [|Hlt]; [assumption|].
    exfalso.
    assert (Hl : (d' ++ tail') !! length pre = Some SLASH).
    { rewrite <- HX. apply list_lookup_middle. reflexivity. }
    rewrite lookup_app_l in Hl by exact Hlt.
    apply list_elem_of_lookup_2, list_elem_of_In in Hl.
    rewrite forallb_forall in Hd'. specialize (Hd' _ Hl).
    rewrite not_digit_slash in Hd'. discriminate. }
  assert (Hlen : (length pre + 1 + length d + length tail
                  = length d' + length tail')%nat).
  { apply (f_equal length) in HX. rewrite !length_app in HX. simpl in HX.
    rewrite length_app in HX. lia. }
  assert (Hdl : (1 <= length d)%nat) by (destruct d; [congruence|simpl; lia]).
  assert (Htl : tail' = [SLASH; LF]).
  { destruct Ht' as [->|[->|[->| ->]]]; simpl in Hlen; try lia. reflexivity. }
  subst tail'. simpl in Hlen.
  assert (Hpre : length pre = length d') by lia.
  apply app_inj_1 in HX as [-> HX]; [|exact Hpre].
  destruct Ht as [-> | ->]; simpl in Hlen; [|lia].
  rewrite app_nil_r in HX. inversion HX; subst.
  cbn [forallb] in Hd. rewrite not_digit_newline in Hd. discriminate.
Qed.

Lemma search_id_found pre d tail :
  d <> [] -> forallb is_digit d = true -> tail = [] \/ tail = [SLASH] ->
  search_id (pre ++ SLASH :: d ++ tail) = Some d.
Proof.
  intros Hn Hd Ht. induction pre as [|c pre IH].
  - cbn [app]. destruct d as [|x d]; [congruence|].
    change (search_id (SLASH :: (x :: d) ++ tail))
      with (match match_id_here (SLASH :: (x :: d) ++ tail) with
            | Some d0 => Some d0
            | None => search_id ((x :: d) ++ tail)
            end).
    rewrite match_id_here_found by assumption. reflexivity.
  - change (search_id ((c :: pre) ++ SLASH :: d ++ tail))
      with (match match_id_here (c :: pre ++ SLASH :: d ++ tail) with
            | Some d0 => Some d0
            | None => search_id (pre ++ SLASH :: d ++ tail)
            end).
    rewrite match_id_here_early by assumption. exact IH.
Qed.

(** A trimmed string does not end with a line feed. *)
Lemma strip_not_before_newline x a : strip x <> a ++ [LF].
Proof.
  intros E. pose proof (strip_no_final_newline x) as H.
  rewrite E in H. unfold ends_with in H. rewrite rev_app_distr in H.
  discriminate.
Qed.

Lemma contains_app_r n a b : contains n b = true -> contains n (a ++ b) = true.
Proof.
  intros H. induction a as [|c a IH]; [exact H|].
  cbn [app contains]. rewrite IH. apply orb_true_r.
Qed.

Lemma contains_prefix n b : starts_with n b = true -> contains n b = true.
Proof. intros H. destruct b; cbn [contains]; rewrite H; reflexivity. Qed.

Lemma build_front_matter_embed item :
  rss_embed (build_front_matter item) =
    match episode_id_from_link (link (build_front_matter item)) with
    | Some eid => iframe eid (title (build_front_matter item))
    | None => []
    end.
Proof.
  cbn [build_front_matter rss_embed link title].
  destruct (episode_id_from_link (strip (text_or (item_link item)))) as [eid|] eqn:E;
    [|reflexivity].
  apply search_id_spec in E as (Hn & _). destruct eid; [congruence|reflexivity].
Qed.

(** C4, as the code has it.  The embed of a feed item is not empty exactly
    when an identifier is extracted from its trimmed link, and it is then the
    iframe markup for this identifier and the trimmed title, which is put in
    as it is.  The identifier is extracted exactly when the link ends with a
    slash and one or more digits, or with these and one more slash, and it is
    that run of digits.  The link https://x/lytte/12345 gives 12345, and the
    embed then contains player.rss.com/lytte/12345. *)
Theorem embed_contract (item : FeedItem) :
  let fm := build_front_matter item in
  (rss_embed fm <> [] <-> exists eid, episode_id_from_link (link fm) = Some eid) /\
  (forall eid, episode_id_from_link (link fm) = Some eid ->
     rss_embed fm = iframe eid (title fm) /\
     eid <> [] /\ forallb is_digit eid = true /\
     exists pre, link fm = pre ++ [SLASH] ++ eid \/
                 link fm = pre ++ [SLASH] ++ eid ++ [SLASH]) /\
  (forall pre eid, eid <> [] -> forallb is_digit eid = true ->
     link fm = pre ++ [SLASH] ++ eid \/ link fm = pre ++ [SLASH] ++ eid ++ [SLASH] ->
     episode_id_from_link (link fm) = Some eid) /\
  title fm = strip (text_or (item_title item)) /\
  link fm = strip (text_or (item_link item)) /\
  episode_id_from_link (py "https://x/lytte/12345") = Some (py "12345") /\
  (item_link item = Some (py "https://x/lytte/12345") ->
     contains (py "player.rss.com/lytte/12345") (rss_embed fm) = true).
Proof.
  intros fm. pose proof (build_front_matter_embed item) as He. fold fm in He.
  split; [|split; [|split; [|split; [|split; [|split]]]]].
  - rewrite He. destruct (episode_id_from_link (link fm)) as [eid|].
    + split; [eauto|]. intros _. unfold iframe. eval_py. discriminate.
    + split; [congruence|]. intros [eid H]. discriminate.
  - intros eid H. rewrite He, H. split; [reflexivity|].
    apply search_id_spec in H as (Hn & Hd & pre & tail & Hl & Ht).
    split; [exact Hn|]. split; [exact Hd|]. exists pre.
    destruct Ht as [->|[->|[->| ->]]].
    + left. rewrite Hl, app_nil_r. reflexivity.
    + right. rewrite Hl. reflexivity.
    + exfalso. apply (strip_not_before_newline (text_or (item_link item))
                        (pre ++ SLASH :: eid)).
      change (link fm = (pre ++ SLASH :: eid) ++ [LF]).
      rewrite Hl, <- app_assoc. reflexivity.
    + exfalso. apply (strip_not_before_newline (text_or (item_link item))
                        (pre ++ SLASH :: eid ++ [SLASH])).
      change (link fm = (pre ++ SLASH :: eid ++ [SLASH]) ++ [LF]).
      rewrite Hl, <- !app_assoc. cbn [app]. rewrite <- app_assoc. reflexivity.
  - intros pre eid Hn Hd [Hl|Hl]; rewrite Hl; unfold episode_id_from_link.
    + replace (pre ++ [SLASH] ++ eid) with (pre ++ SLASH :: eid ++ [])
        by (rewrite app_nil_r; reflexivity).
      apply search_id_found; auto.
    + apply (search_id_found pre eid [SLASH]); auto.
  - reflexivity.
  - reflexivity.
  - reflexivity.
  - intros Hl. rewrite He. subst fm. cbn [build_front_matter link title].
    rewrite Hl. cbn [text_or].
    change (strip (py "https://x/lytte/12345")) with (py "https://x/lytte/12345").
    change (episode_id_from_link (py "https://x/lytte/12345")) with (Some (py "12345")).
    unfold iframe.
    apply (contains_app_r _ (py "<iframe src=" ++ [QUOTE] ++ py "https://")).
    apply contains_prefix. reflexivity.
Qed.

(** ** Dates *)

(** C6.  Parsing a publication date never fails: the date is the one the
    RFC 822 format gives when that parses, otherwise the one the ISO format
    gives when that parses, otherwise the current UTC date.  The string
    Mon, 02 Jan 2024 10:00:00 +0000 gives the ISO date 2024-01-02 and the
    display date 02-01-2024. *)
Theorem parse_date_cascade (s : str) :
  (exists d, parse_date_rfc822 s = d) /\
  (forall d, strptime_rfc822 s = Some d -> parse_date_rfc822 s = d) /\
  (forall d, strptime_rfc822 s = None -> fromisoformat_date s = Some d ->
     parse_date_rfc822 s = d) /\
  (strptime_rfc822 s = None -> fromisoformat_date s = None ->
     parse_date_rfc822 s = utc_today) /\
  strptime_rfc822 (py "Mon, 02 Jan 2024 10:00:00 +0000")
    = Some {| year := 2024; month := 1; day := 2 |} /\
  isoformat (parse_date_rfc822 (py "Mon, 02 Jan 2024 10:00:00 +0000"))
    = py "2024-01-02" /\
  strftime_dmy (parse_date_rfc822 (py "Mon, 02 Jan 2024 10:00:00 +0000"))
    = py "02-01-2024" /\
  (forall item, item_pubDate item = Some (py "Mon, 02 Jan 2024 10:00:00 +0000") ->
     date (build_front_matter item) = py "2024-01-02" /\
     display_date (build_front_matter item) = py "02-01-2024").
Proof.
  assert (Hex : strptime_rfc822 (py "Mon, 02 Jan 2024 10:00:00 +0000")
                = Some {| year := 2024; month := 1; day := 2 |})
    by (vm_compute; reflexivity).
  unfold parse_date_rfc822.
  split; [eauto|]. split; [intros d ->; reflexivity|].
  split; [intros d -> ->; reflexivity|].
  split; [intros -> ->; reflexivity|].
  split; [exact Hex|]. rewrite Hex.
  split; [reflexivity|]. split; [reflexivity|].
  intros item Hp. cbn [build_front_matter date display_date].
  rewrite Hp. cbn [text_or]. unfold parse_date_rfc822. rewrite Hex.
  split; reflexivity.
Qed.

(** ** The run *)

Lemma write_or_update_episode_file_total fm slug w :
  exists b w', write_or_update_episode_file fm slug w = Some (b, w').
Proof.
  unfold write_or_update_episode_file, io_bind, path_exists.
  destruct (bool_decide (is_Some (files w !! episode_path slug))) eqn:E.
  - apply bool_decide_eq_true in E as [text E].
    unfold normalize_file, io_bind, read_text. rewrite E.
    destruct (match_front_matter (universal_newlines text)) as [[g1 g2]|]; cbn.
    + match goal with |- context [negb ?c] => destruct c end; cbn; eauto.
    + eauto.
  - cbn. eauto.
Qed.

Lemma process_item_spec (s : gset str) (n : Z) (item : FeedItem) (w : world) :
  exists (b : bool) (w' : world),
    process_item (s, n) item w =
      Some ((if truthy (item_identifier item) then s ∪ {[item_identifier item]} else s,
             if b then n + 1 else n), w') /\
    forall s2 : gset str, exists s2', process_item (s2, n) item w
                           = Some ((s2', if b then n + 1 else n), w').
Proof.
  unfold process_item. destruct (truthy (item_identifier item)) eqn:Et; cbn [negb].
  - set (fm := build_front_matter item).
    destruct (write_or_update_episode_file_total fm
                (date fm ++ [HYPHEN] ++ slugify (title fm)) w) as (b & w' & Hw).
    exists b, w'. unfold io_bind. rewrite Hw. cbn. split; [|eauto].
    unfold io_ret. case_bool_decide as Hin; [reflexivity|].
    assert (Hs : s ∪ {[item_identifier item]} = s).
    { apply set_eq. intros y. rewrite elem_of_union, elem_of_singleton.
      split; [intros [Hy| ->]; assumption|auto]. }
    rewrite Hs. reflexivity.
  - exists false, w. cbn. eauto.
Qed.

Lemma process_items_total acc items w :
  exists r, process_items acc items w = Some r.
Proof.
  revert acc w. induction items as [|item rest IH]; intros [s n] w; cbn [process_items].
  - unfold io_ret. eauto.
  - unfold io_bind. destruct (process_item_spec s n item w) as (b & w' & -> & _).
    apply IH.
Qed.

Lemma process_items_seen (items : list FeedItem) (s : gset str) (n : Z) (w : world)
    (s' : gset str) (n' : Z) (w' : world) :
  process_items (s, n) items w = Some ((s', n'), w') ->
  forall x, x ∈ s' <->
    x ∈ s \/ exists item, item ∈ items /\ item_identifier item = x /\ x <> [].
Proof.
  revert s n w. induction items as [|item rest IH]; intros s n w; cbn [process_items].
  - unfold io_ret. intros H x. inversion H; subst. split; [auto|].
    intros [H'|(item & Hin & _)]; [exact H'|]. inversion Hin.
  - unfold io_bind. destruct (process_item_spec s n item w) as (b & w1 & -> & _).
    intros H x. rewrite (IH _ _ _ H x). clear IH H.
    destruct (truthy (item_identifier item)) eqn:Et.
    + rewrite elem_of_union, elem_of_singleton. split.
      * intros [[Hx| ->]|(it & Hin & Hid & Hne)].
        -- auto.
        -- right. exists item. split; [left|]. split; [reflexivity|].
           intros E. rewrite E in Et. discriminate.
        -- right. exists it. split; [right; exact Hin|auto].
      * intros [Hx|(it & Hin & Hid & Hne)]; [auto|].
        apply elem_of_cons in Hin as [-> | Hin]; [auto|].
        right. exists it. auto.
    + split.
      * intros [Hx|(it & Hin & Hid & Hne)]; [auto|].
        right. exists it. split; [right; exact Hin|auto].
      * intros [Hx|(it & Hin & Hid & Hne)]; [auto|].
        apply elem_of_cons in Hin as [-> | Hin].
        -- exfalso. destruct (item_identifier item); [congruence|discriminate].
        -- right. exists it. auto.
Qed.

Lemma process_items_content (items : list FeedItem) (s1 s2 : gset str) (n : Z)
    (w : world) :
  content_effect
    (match process_items (s1, n) items w with
     | Some ((s', n'), w') => Some ((empty_state, n'), w')
     | None => None
     end)
  = content_effect
    (match process_items (s2, n) items w with
     | Some ((s', n'), w') => Some ((empty_state, n'), w')
     | None => None
     end).
Proof.
  revert s1 s2 n w. induction items as [|item rest IH]; intros s1 s2 n w;
    cbn [process_items].
  - reflexivity.
  - unfold io_bind.
    destruct (process_item_spec s1 n item w) as (b & w1 & -> & H2).
    destruct (H2 s2) as (s2' & ->). apply IH.
Qed.

Lemma str_leb_total a b : str_leb a b = true \/ str_leb b a = true.
Proof.
  revert b. induction a as [|x a IH]; intros [|y b]; cbn [str_leb]; auto.
  destruct (Z.lt_trichotomy x y) as [H|[H|H]].
  - left. rewrite (proj2 (Z.ltb_lt x y) H). reflexivity.
  - subst. rewrite Z.ltb_irrefl, Z.eqb_refl. cbn. apply IH.
  - right. rewrite (proj2 (Z.ltb_lt y x) H). reflexivity.
Qed.

#[local] Instance str_le_total : Total str_le.
Proof. intros a b. apply str_leb_total. Qed.

(** C9.  A run over the items of a channel ends, and the state it saves
    has a list seen that is sorted, without repetition, and holds exactly the
    entries of the list it loaded and the identifiers of the items processed:
    for each item its guid, or else its link, when this is not empty.  The
    other members of the state are kept. *)
Theorem seen_list_persisted
    (state_file : option (option FeedIndexState)) (items : list FeedItem) (w : world) :
  exists st changed w' l,
    main state_file (Some items) w = Some ((st, changed), w') /\
    seen st = Some l /\
    other_members st = other_members (load_state state_file) /\
    Sorted str_le l /\ NoDup l /\
    (forall x, x ∈ loaded_seen state_file -> x ∈ l) /\
    (forall item, item ∈ items -> item_identifier item <> [] ->
       item_identifier item ∈ l) /\
    (forall x, x ∈ l ->
       x ∈ loaded_seen state_file \/
       exists item, item ∈ items /\ item_identifier item = x) /\
    (forall item, item_identifier item =
       if truthy (text_or (item_guid item)) then text_or (item_guid item)
       else text_or (item_link item)).
Proof.
  unfold main, io_bind. fold (loaded_seen state_file).
  destruct (process_items_total (list_to_set (loaded_seen state_file), 0) items w)
    as [[[s1 n1] w1] Hp].
  rewrite Hp. cbn [io_ret].
  pose proof (process_items_seen _ _ _ _ _ _ _ Hp) as Hs.
  assert (Hl : forall x, x ∈ sorted_seen s1 <-> x ∈ s1).
  { intros x. unfold sorted_seen. rewrite merge_sort_Permutation.
    apply elem_of_elements. }
  eexists _, n1, w1, (sorted_seen s1).
  split; [reflexivity|]. split; [reflexivity|]. split; [reflexivity|].
  split; [apply Sorted_merge_sort; apply _|].
  split; [unfold sorted_seen; rewrite merge_sort_Permutation; apply NoDup_elements|].
  split; [|split; [|split]].
  - intros x Hx. apply Hl, Hs. left. apply elem_of_list_to_set. exact Hx.
  - intros item Hin Hne. apply Hl, Hs. right. exists item. auto.
  - intros x Hx. apply Hl, Hs in Hx as [Hx|(item & Hin & Hid & _)].
    + left. apply elem_of_list_to_set in Hx. exact Hx.
    + right. exists item. auto.
  - reflexivity.
Qed.

(** C10.  Two runs over the same channel and the same files that start
    from different state files report the same number of changed files,
    leave the same files and make the same writes in the same order. *)
Theorem state_does_not_steer_files
    (state_file1 state_file2 : option (option FeedIndexState))
    (channel : option (list FeedItem)) (w : world) :
  content_effect (main state_file1 channel w)
  = content_effect (main state_file2 channel w).
Proof.
  unfold main. destruct channel as [items|]; [|reflexivity].
  unfold io_bind.
  pose proof (process_items_content items
                (list_to_set (loaded_seen state_file1))
                (list_to_set (loaded_seen state_file2)) 0 w) as H.
  fold (loaded_seen state_file1). fold (loaded_seen state_file2).
  destruct (process_items (list_to_set (loaded_seen state_file1), 0) items w)
    as [[[s1 n1] w1]|];
    destruct (process_items (list_to_set (loaded_seen state_file2), 0) items w)
    as [[[s2 n2] w2]|]; cbn in *; congruence.
Qed.

(** ** A second run that changes nothing *)

Lemma lf_hyphen_free_app x y :
  lf_hyphen_free x = true -> lf_hyphen_free y = true ->
  starts_with [HYPHEN] y = false ->
  lf_hyphen_free (x ++ y) = true.
Proof.
  intros Hx Hy Hb. induction x as [|c t IH]; [exact Hy|].
  cbn [app lf_hyphen_free] in *. apply andb_prop in Hx as [Hc Ht].
  rewrite (IH Ht), andb_true_r. destruct t as [|c' t']; [|exact Hc].
  cbn [app]. rewrite Hb, andb_false_r. reflexivity.
Qed.

Lemma lf_free_lf_hyphen_free x : lf_free x = true -> lf_hyphen_free x = true.
Proof.
  unfold lf_free. induction x as [|c t IH]; [reflexivity|].
  cbn [forallb lf_hyphen_free]. intros H. apply andb_prop in H as [Hc Ht].
  apply negb_true_iff in Hc. rewrite Hc, (IH Ht). reflexivity.
Qed.

Lemma lf_free_app x y : lf_free (x ++ y) = lf_free x && lf_free y.
Proof. unfold lf_free. apply forallb_app. Qed.

Lemma lf_free_quoted s : lf_free s = true -> lf_free (quoted s) = true.
Proof.
  intros H. unfold quoted, yml_escape_inline, replace1.
  rewrite !lf_free_app. cbn [andb]. rewrite andb_true_r. change (lf_free [QUOTE]) with true.
  cbn [andb]. unfold lf_free in *. induction s as [|c t IH]; [reflexivity|].
  cbn [flat_map forallb] in *. apply andb_prop in H as [Hc Ht].
  rewrite forallb_app, (IH Ht), andb_true_r.
  destruct (c =? QUOTE); [reflexivity|]. cbn [forallb]. rewrite Hc. reflexivity.
Qed.

Lemma forallb_rstrip_by (q p : Z -> bool) s :
  forallb q s = true -> forallb q (rstrip_by p s) = true.
Proof.
  induction s as [|c t IH]; [auto|]. cbn [forallb rstrip_by].
  intros H. apply andb_prop in H as [Hc Ht]. specialize (IH Ht).
  destruct (rstrip_by p t) as [|z l].
  - destruct (p c); cbn [forallb]; [reflexivity|]. rewrite Hc. reflexivity.
  - cbn [forallb] in *. rewrite Hc, IH. reflexivity.
Qed.

Lemma rstrip_by_head p c t :
  rstrip_by p (c :: t) = [] \/ exists t', rstrip_by p (c :: t) = c :: t'.
Proof.
  cbn [rstrip_by]. destruct (rstrip_by p t); [destruct (p c)|]; eauto.
Qed.

Lemma linebreak_newline c : is_linebreak c = false -> (c =? LF) = false.
Proof.
  unfold is_linebreak, LF. intros H. destruct (Z.eqb_spec c 10) as [->|]; [|reflexivity].
  discriminate.
Qed.

Lemma splitlines_from_lf_free cur s :
  lf_free cur = true -> Forall (fun l => lf_free l = true) (splitlines_from cur s).
Proof.
  assert (Hrev : forall l, lf_free l = true -> lf_free (rev l) = true).
  { intros l. unfold lf_free. rewrite !forallb_forall. intros H x Hx.
    apply H. apply in_rev. exact Hx. }
  remember (length s) as n eqn:Hn. revert cur s Hn.
  induction n as [n IH] using lt_wf_ind. intros cur s Hn Hcur.
  destruct s as [|c t]; cbn [splitlines_from].
  - destruct cur; [constructor|]. constructor; [|constructor]. apply Hrev, Hcur.
  - destruct (is_linebreak c) eqn:Ec.
    + constructor; [apply Hrev, Hcur|].
      destruct t as [|c' t'].
      * cbn. constructor.
      * destruct ((c =? CR) && (c' =? LF)).
        -- apply (IH (length t')); [subst; simpl; lia|reflexivity|reflexivity].
        -- apply (IH (length (c' :: t'))); [subst; simpl; lia|reflexivity|reflexivity].
    + apply (IH (length t)); [subst; simpl; lia|reflexivity|].
      unfold lf_free in *. cbn [forallb]. rewrite Hcur, (linebreak_newline _ Ec).
      reflexivity.
Qed.

Lemma lf_hyphen_free_join ls :
  Forall (fun l => lf_free l = true /\ starts_with [HYPHEN] l = false) ls ->
  lf_hyphen_free (join [LF] ls) = true /\
  starts_with [HYPHEN] (join [LF] ls) = false.
Proof.
  induction 1 as [|l ls [Hl Hh] Hls [IH1 IH2]]; [split; reflexivity|].
  destruct ls as [|l' ls']; [split; [apply lf_free_lf_hyphen_free|]; assumption|].
  change (join [LF] (l :: l' :: ls')) with (l ++ [LF] ++ join [LF] (l' :: ls')).
  split.
  - apply lf_hyphen_free_app; [apply lf_free_lf_hyphen_free, Hl| |reflexivity].
    cbn [app lf_hyphen_free]. rewrite IH1, IH2. reflexivity.
  - destruct l as [|c l]; [reflexivity|]. cbn [app starts_with] in *. exact Hh.
Qed.

Lemma yml_block_shape d :
  lf_hyphen_free (yml_block d) = true /\
  forall y, starts_with [HYPHEN] (yml_block d ++ y) = false.
Proof.
  unfold yml_block. destruct (truthy (rstrip d)); cbn [negb].
  2: split; [reflexivity|intros y; reflexivity].
  split; [|intros y; reflexivity].
  change (py "|" ++ [LF] ++ ?j) with (124 :: LF :: j).
  match goal with |- lf_hyphen_free (124 :: LF :: ?j) = true =>
    assert (Hj : lf_hyphen_free j = true /\ starts_with [HYPHEN] j = false)
  end.
  { apply lf_hyphen_free_join. apply Forall_map.
    eapply Forall_impl; [apply (splitlines_from_lf_free [] (rstrip d)); reflexivity|].
    intros l Hl. cbn beta. split.
    - apply forallb_rstrip_by. exact Hl.
    - change (py "  " ++ l) with (32 :: 32 :: l).
      destruct (rstrip_by_head is_space 32 (32 :: l)) as [E|[t' E]];
        unfold rstrip; rewrite E; reflexivity. }
  destruct Hj as [Hj1 Hj2]. cbn [lf_hyphen_free]. rewrite Hj1, Hj2. reflexivity.
Qed.

Lemma closing_marker_only_end a rest r :
  lf_hyphen_free a = true ->
  closing_marker (a ++ LF :: 45 :: 45 :: 45 :: LF :: rest) = Some r -> r = rest.
Proof.
  assert (Hm : forall c t, (HYPHEN =? c) = false ->
                           strip_prefix MARKER (c :: t) = None).
  { intros c t Hc. unfold strip_prefix, MARKER.
    change (py "---") with [HYPHEN; HYPHEN; HYPHEN].
    cbn [starts_with]. rewrite Hc. reflexivity. }
  intros Ha. unfold closing_marker.
  destruct a as [|c a]; [vm_compute; congruence|].
  cbn [app eat_newline].
  destruct (Z.eqb_spec c LF) as [->|Hc].
  - destruct a as [|c' a]; [vm_compute; discriminate|].
    cbn [app lf_hyphen_free starts_with] in *.
    rewrite Z.eqb_refl in Ha. cbn [andb] in Ha.
    rewrite Hm; [discriminate|].
    destruct (HYPHEN =? c'); [discriminate|reflexivity].
  - destruct (c =? CR); [|discriminate].
    destruct a as [|c' a]; [vm_compute; congruence|].
    cbn [app]. destruct (Z.eqb_spec c' LF) as [->|]; [|discriminate].
    cbn [lf_hyphen_free] in Ha. apply andb_prop in Ha as [_ Ha].
    destruct a as [|c'' a]; [vm_compute; discriminate|].
    cbn [app lf_hyphen_free starts_with] in *.
    rewrite Z.eqb_refl in Ha. cbn [andb] in Ha.
    rewrite Hm; [discriminate|].
    destruct (HYPHEN =? c''); [discriminate|reflexivity].
Qed.

Lemma split_at_closing_found a rest :
  lf_hyphen_free a = true ->
  exists g1, split_at_closing (a ++ LF :: 45 :: 45 :: 45 :: LF :: rest) = Some (g1, rest).
Proof.
  intros Ha. induction a as [|c a IH].
  - exists []. reflexivity.
  - change (split_at_closing ((c :: a) ++ LF :: 45 :: 45 :: 45 :: LF :: rest))
      with (match closing_marker ((c :: a) ++ LF :: 45 :: 45 :: 45 :: LF :: rest) with
            | Some r => Some ([], r)
            | None =>
                match split_at_closing (a ++ LF :: 45 :: 45 :: 45 :: LF :: rest) with
                | Some (g1, g2) => Some (c :: g1, g2)
                | None => None
                end
            end).
    destruct (closing_marker ((c :: a) ++ _)) as [r|] eqn:E.
    + apply (closing_marker_only_end _ _ _ Ha) in E. subst. eauto.
    + cbn [lf_hyphen_free] in Ha. apply andb_prop in Ha as [_ Ha].
      destruct (IH Ha) as [g1 ->]. eauto.
Qed.

Ltac lf_hyphen_free_tac :=
  repeat match goal with
  | |- lf_hyphen_free (_ ++ _) = true => apply lf_hyphen_free_app
  | |- lf_hyphen_free (quoted _) = true =>
      apply lf_free_lf_hyphen_free, lf_free_quoted; assumption
  | |- lf_hyphen_free (yml_block _) = true => apply yml_block_shape
  | |- starts_with [HYPHEN] (yml_block _ ++ _) = false => apply yml_block_shape
  | |- _ => reflexivity
  end.

(** With one-line fields the first closing marker line of the text written
    is the one that ends the front matter: group 2 is what follows it. *)
Lemma match_front_matter_own fm rest :
  one_line_fields fm = true ->
  exists g1, match_front_matter (render_front_matter fm ++ rest) = Some (g1, rest).
Proof.
  unfold one_line_fields. intros H.
  repeat (apply andb_prop in H as [H ?]).
  rewrite render_front_matter_layout.
  set (a := py "title: " ++ quoted (title fm) ++ [LF]
            ++ py "date: " ++ quoted (date fm) ++ [LF]
            ++ py "display_date: " ++ quoted (display_date fm) ++ [LF]
            ++ py "description: " ++ yml_block (description fm) ++ [LF]
            ++ py "rss_embed: " ++ quoted (rss_embed fm) ++ [LF]
            ++ py "audio_url: " ++ quoted (audio_url fm) ++ [LF]
            ++ py "link: " ++ quoted (link fm) ++ [LF]
            ++ TAGS_LINE ++ [LF]
            ++ py "draft: " ++ (if draft fm then py "true" else py "false")).
  match goal with |- context [match_front_matter ?s] =>
    replace s with (py "---" ++ [LF] ++ a ++ LF :: 45 :: 45 :: 45 :: LF :: rest)
      by (unfold a; rewrite <- !app_assoc; reflexivity)
  end.
  change (match_front_matter (py "---" ++ [LF] ++ ?x)) with (split_at_closing x).
  apply split_at_closing_found. unfold a.
  destruct (draft fm); lf_hyphen_free_tac.
Qed.

Lemma rstrip_by_snoc_keep p s c :
  p c = false -> rstrip_by p (s ++ [c]) = s ++ [c].
Proof.
  intros Hc. induction s as [|x s IH]; cbn [app rstrip_by]; [rewrite Hc; reflexivity|].
  rewrite IH. destruct (s ++ [c]) eqn:E; [|reflexivity].
  destruct s; discriminate.
Qed.

Lemma rstrip_by_snoc_drop p s x :
  p x = true -> rstrip_by p (s ++ [x]) = rstrip_by p s.
Proof.
  intros Hx. induction s as [|c s IH]; cbn [app rstrip_by]; [rewrite Hx; reflexivity|].
  rewrite IH. reflexivity.
Qed.

Lemma strip_keep a b c :
  is_space a = false -> is_space c = false ->
  strip ((a :: b) ++ [c] ++ [LF]) = (a :: b) ++ [c].
Proof.
  intros Ha Hc. unfold strip, strip_by.
  assert (Hl : lstrip_by is_space ((a :: b) ++ [c] ++ [LF])
               = ((a :: b) ++ [c]) ++ [LF]).
  { cbn [app lstrip_by]. rewrite Ha. rewrite <- app_assoc. reflexivity. }
  rewrite Hl. rewrite rstrip_by_snoc_drop by reflexivity.
  apply rstrip_by_snoc_keep. exact Hc.
Qed.

Lemma rstrip_fixed_last p s :
  s <> [] -> rstrip_by p s = s -> exists l c, s = l ++ [c] /\ p c = false.
Proof.
  intros Hn Hs. pose proof (rstrip_by_last p s) as H. rewrite Hs in H.
  destruct (rev s) as [|c r] eqn:E.
  - apply (f_equal (@rev Z)) in E. rewrite rev_involutive in E. contradiction.
  - exists (rev r), c. split; [|exact H].
    apply (f_equal (@rev Z)) in E. rewrite rev_involutive in E. exact E.
Qed.

Lemma join_snoc sep ps q c :
  join sep (ps ++ [q ++ [c]]) = join sep (ps ++ [q]) ++ [c].
Proof.
  induction ps as [|p ps IH]; [reflexivity|].
  destruct ps as [|p' ps'].
  - cbn [app join]. rewrite <- !app_assoc. reflexivity.
  - change (join sep ((p :: p' :: ps') ++ [q ++ [c]]))
      with (p ++ sep ++ join sep ((p' :: ps') ++ [q ++ [c]])).
    rewrite IH. change (join sep ((p :: p' :: ps') ++ [q]))
      with (p ++ sep ++ join sep ((p' :: ps') ++ [q])).
    rewrite <- !app_assoc. reflexivity.
Qed.

Lemma join_head sep p ps : exists rest, join sep (p :: ps) = p ++ rest.
Proof.
  destruct ps; [exists []; cbn; rewrite app_nil_r; reflexivity|].
  eexists. reflexivity.
Qed.

(** A generated body whose last line ends with a character that is not
    white space comes back from trimming when its line feed is put back, and
    holds the player token. *)
Lemma trim_generated_body ps q c :
  is_space c = false ->
  let body := join [LF] (PLAYER_DIRECTIVE :: ps ++ [q ++ [c]]) ++ [LF] in
  strip body ++ [LF] = body /\ contains PLAYER_TOKEN body = true.
Proof.
  intros Hc body. subst body.
  destruct (join_head [LF] PLAYER_DIRECTIVE (ps ++ [q ++ [c]])) as [rest Hj].
  split.
  - change (PLAYER_DIRECTIVE :: ps ++ [q ++ [c]])
      with ((PLAYER_DIRECTIVE :: ps) ++ [q ++ [c]]).
    rewrite join_snoc.
    destruct (join_head [LF] PLAYER_DIRECTIVE (ps ++ [q])) as [rest' Hj'].
    change ((PLAYER_DIRECTIVE :: ps) ++ [q]) with (PLAYER_DIRECTIVE :: ps ++ [q]).
    rewrite Hj'.
    change (PLAYER_DIRECTIVE ++ rest') with (123 :: (skipn 1 PLAYER_DIRECTIVE ++ rest')).
    rewrite <- app_assoc. rewrite strip_keep by (reflexivity || exact Hc).
    rewrite <- app_assoc. reflexivity.
  - rewrite Hj. rewrite <- app_assoc.
    apply (contains_app_r _ (py "{{< ")). apply contains_prefix.
    vm_compute. reflexivity.
Qed.

Lemma digit_not_space :
  (forall c v, unicode_decimal c = Some v -> is_space c = false) ->
  forall c, is_digit c = true -> is_space c = false.
Proof.
  intros Hu c. unfold is_digit, digit_value.
  destruct (is_ascii c) eqn:Ea.
  - destruct (ascii_digit c) eqn:Ed; [|discriminate]. intros _.
    unfold ascii_digit in Ed. apply andb_prop in Ed as [H1 H2].
    unfold is_space. decide_cmp. reflexivity.
  - destruct (unicode_decimal c) as [v|] eqn:Eu; [|discriminate].
    intros _. exact (Hu _ _ Eu).
Qed.

Lemma standard_body_trim fm :
  (forall c v, unicode_decimal c = Some v -> is_space c = false) ->
  link fm <> [] -> rstrip (link fm) = link fm ->
  strip (standard_body fm) ++ [LF] = standard_body fm /\
  contains PLAYER_TOKEN (standard_body fm) = true.
Proof.
  intros Hu Hn Hr. unfold standard_body.
  destruct (episode_id_from_link (link fm)) as [eid|] eqn:Ee.
  - apply search_id_spec in Ee as (Hne & Hd & _).
    destruct (rev eid) as [|c r] eqn:Er.
    { apply (f_equal (@rev Z)) in Er. rewrite rev_involutive in Er. contradiction. }
    apply (f_equal (@rev Z)) in Er. rewrite rev_involutive in Er. cbn [rev] in Er.
    assert (Hc : is_space c = false).
    { apply (digit_not_space Hu). rewrite forallb_forall in Hd. apply Hd.
      rewrite Er. apply in_or_app. right. left. reflexivity. }
    assert (Ht : truthy eid = true) by (destruct eid; [contradiction|reflexivity]).
    rewrite Ht, Er.
    destruct (truthy (description fm)).
    + apply (trim_generated_body
               [[LF] ++ py "## Beskrivelse"; description fm; NOTES_SECTION;
                [LF] ++ py "## Lenker"; py "- Original episode: " ++ link fm]
               (py "- Delbar spiller: " ++ PLAYER_URL ++ rev r) c Hc).
    + apply (trim_generated_body
               [NOTES_SECTION; [LF] ++ py "## Lenker";
                py "- Original episode: " ++ link fm]
               (py "- Delbar spiller: " ++ PLAYER_URL ++ rev r) c Hc).
  - destruct (rstrip_fixed_last is_space (link fm) Hn Hr) as (l & c & El & Hc).
    rewrite El.
    destruct (truthy (description fm)).
    + apply (trim_generated_body
               [[LF] ++ py "## Beskrivelse"; description fm; NOTES_SECTION;
                [LF] ++ py "## Lenker"]
               (py "- Original episode: " ++ l) c Hc).
    + apply (trim_generated_body
               [NOTES_SECTION; [LF] ++ py "## Lenker"]
               (py "- Original episode: " ++ l) c Hc).
Qed.

Lemma universal_newlines_cr_free s : cr_free s = true -> universal_newlines s = s.
Proof.
  unfold cr_free. induction s as [|c t IH]; [reflexivity|].
  cbn [forallb universal_newlines]. intros H. apply andb_prop in H as [Hc Ht].
  apply negb_true_iff in Hc. rewrite Hc, (IH Ht). reflexivity.
Qed.

(** The writer run a second time on the file it created, with the same
    record, writes nothing and reports no change, when the fields written in
    quotes hold no line feed, the link is not empty and ends with a character
    that is not white space (no decimal digit being white space), and the
    text written holds no carriage return. *)
Theorem rerun_unchanged (fm : EpisodeRecord) (slug : str) (w : world) :
  (forall c v, unicode_decimal c = Some v -> is_space c = false) ->
  one_line_fields fm = true ->
  link fm <> [] -> rstrip (link fm) = link fm ->
  cr_free (render_front_matter fm ++ standard_body fm) = true ->
  files w !! episode_path slug = None ->
  exists w1,
    write_or_update_episode_file fm slug w = Some (true, w1) /\
    files w1 !! episode_path slug
      = Some (render_front_matter fm ++ standard_body fm) /\
    write_or_update_episode_file fm slug w1 = Some (false, w1).
Proof.
  intros Hu Hf Hn Hr Hcr Hw.
  apply universal_newlines_cr_free in Hcr.
  set (text := render_front_matter fm ++ standard_body fm) in *.
  set (w1 := {| files := <[episode_path slug := text]> (files w);
                writes := writes w ++ [(episode_path slug, text)] |}).
  assert (Hl : files w1 !! episode_path slug = Some text) by apply lookup_insert_eq.
  exists w1. split; [|split].
  - unfold write_or_update_episode_file, io_bind, path_exists.
    rewrite Hw. rewrite bool_decide_eq_false_2 by (intros [x Hx]; discriminate).
    reflexivity.
  - exact Hl.
  - unfold write_or_update_episode_file, io_bind, path_exists.
    rewrite bool_decide_eq_true_2 by (exists text; exact Hl).
    destruct (match_front_matter_own fm (standard_body fm) Hf) as [g1 Hm].
    destruct (standard_body_trim fm Hu Hn Hr) as [Ht Hc].
    fold text in Hm. rewrite <- Hcr in Hm.
    rewrite (normalize_file_with_token _ fm w1 text g1 (standard_body fm) Hl Hm Hc).
    rewrite Ht, Hcr. fold text.
    rewrite (proj2 (str_eqb_eq text text) eq_refl). reflexivity.
Qed.

(** * Further properties *)

(** ** Trimming, again *)

Lemma rstrip_by_idem p s : rstrip_by p (rstrip_by p s) = rstrip_by p s.
Proof.
  induction s as [|c t IH]; [reflexivity|]. cbn [rstrip_by].
  destruct (rstrip_by p t) as [|z l] eqn:E.
  - destruct (p c) eqn:Ec; [reflexivity|]. cbn [rstrip_by]. rewrite Ec. reflexivity.
  - cbn [rstrip_by]. cbn [rstrip_by] in IH. rewrite IH. reflexivity.
Qed.

Lemma lstrip_by_idem p s : lstrip_by p (lstrip_by p s) = lstrip_by p s.
Proof.
  induction s as [|c t IH]; [reflexivity|]. cbn [lstrip_by].
  destruct (p c) eqn:Ec; [exact IH|]. cbn [lstrip_by]. rewrite Ec. reflexivity.
Qed.

Lemma lstrip_by_head p s :
  match lstrip_by p s with [] => True | c :: _ => p c = false end.
Proof.
  induction s as [|c t IH]; [exact I|]. cbn [lstrip_by].
  destruct (p c) eqn:Ec; [exact IH|exact Ec].
Qed.

(** Trimming on the right keeps a first character that is no white space. *)
Lemma lstrip_rstrip_by p s :
  lstrip_by p s = s -> lstrip_by p (rstrip_by p s) = rstrip_by p s.
Proof.
  intros H. destruct s as [|c t]; [reflexivity|].
  pose proof (lstrip_by_head p (c :: t)) as Hc. rewrite H in Hc.
  destruct (rstrip_by_head p c t) as [E|[t' E]]; rewrite E; [reflexivity|].
  cbn [lstrip_by]. rewrite Hc. reflexivity.
Qed.

Lemma strip_trimmed s : trimmed (strip s).
Proof.
  unfold trimmed, strip, strip_by. split.
  - apply lstrip_rstrip_by, lstrip_by_idem.
  - apply rstrip_by_idem.
Qed.

Lemma trimmed_strip s : trimmed s -> strip s = s.
Proof. intros [Hl Hr]. unfold strip, strip_by. rewrite Hl. exact Hr. Qed.

Lemma trimmed_nil : trimmed [].
Proof. split; reflexivity. Qed.

(** ** The writer, case by case *)

Lemma standard_body_head fm :
  exists rest, standard_body fm = PLAYER_DIRECTIVE ++ rest.
Proof.
  unfold standard_body.
  destruct (truthy (description fm));
    destruct (episode_id_from_link (link fm)) as [eid|];
    try destruct (truthy eid);
    cbn [app join]; rewrite <- ?app_assoc; eexists; reflexivity.
Qed.

Lemma standard_body_ends fm : ends_with [LF] (standard_body fm) = true.
Proof. unfold standard_body. apply ends_with_app_r. reflexivity. Qed.

Lemma contains_app_l n a b : contains n a = true -> contains n (a ++ b) = true.
Proof.
  induction a as [|c a IH]; intros H.
  - apply contains_nil_r in H. subst. destruct b; reflexivity.
  - cbn [contains] in H. cbn [app contains].
    apply orb_prop in H as [H|H].
    + change (c :: a ++ b) with ((c :: a) ++ b).
      rewrite (starts_with_app _ _ b H). reflexivity.
    + rewrite (IH H). apply orb_true_r.
Qed.

Lemma standard_body_has_token fm : contains PLAYER_TOKEN (standard_body fm) = true.
Proof.
  destruct (standard_body_head fm) as [rest ->].
  apply contains_app_l. vm_compute. reflexivity.
Qed.

Lemma contains_lstrip_sub p tok s :
  contains tok (lstrip_by p s) = true -> contains tok s = true.
Proof.
  induction s as [|c t IH]; [auto|]. cbn [lstrip_by].
  destruct (p c); [|auto]. intros H. cbn [contains]. rewrite (IH H).
  apply orb_true_r.
Qed.

Lemma starts_with_rstrip_sub p tok s :
  starts_with tok (rstrip_by p s) = true -> starts_with tok s = true.
Proof.
  revert tok. induction s as [|c t IH]; intros tok; [auto|].
  destruct tok as [|a tok]; [reflexivity|]. cbn [rstrip_by].
  destruct (rstrip_by p t) as [|z l] eqn:E.
  - destruct (p c); [discriminate|]. cbn [starts_with].
    intros H. apply andb_prop in H as [-> H].
    destruct tok; [reflexivity|discriminate].
  - cbn [starts_with]. intros H. apply andb_prop in H as [-> H].
    rewrite (IH _ H). reflexivity.
Qed.

Lemma contains_rstrip_sub p tok s :
  contains tok (rstrip_by p s) = true -> contains tok s = true.
Proof.
  induction s as [|c t IH]; [auto|]. intros H.
  assert (Hc : starts_with tok (rstrip_by p (c :: t)) = true
               \/ contains tok (rstrip_by p t) = true).
  { cbn [rstrip_by] in *. destruct (rstrip_by p t) as [|z l] eqn:E.
    - destruct (p c).
      + right. exact H.
      + cbn [contains] in H. apply orb_prop in H as [H|H]; [left; exact H|].
        right. exact H.
    - cbn [contains] in H. apply orb_prop in H as [H|H]; [left; exact H|].
      right. cbn [contains]. exact H. }
  cbn [contains]. destruct Hc as [Hc|Hc].
  - rewrite (starts_with_rstrip_sub _ _ _ Hc). reflexivity.
  - rewrite (IH Hc). apply orb_true_r.
Qed.

Lemma contains_strip_sub tok s :
  contains tok (strip s) = true -> contains tok s = true.
Proof.
  unfold strip, strip_by. intros H.
  apply contains_rstrip_sub in H. apply contains_lstrip_sub in H. exact H.
Qed.

(** What [normalize_file] does to an existing file: the text it settles on
    is the front matter of the record and a body that holds the player
    token; it is written, or it is the text read and nothing is written. *)
Lemma normalize_file_cases p fm w stored :
  files w !! p = Some stored ->
  exists body,
    contains PLAYER_TOKEN body = true /\
    (normalize_file p fm w
       = Some (true, after_write p (render_front_matter fm ++ body) w) \/
     (universal_newlines stored = render_front_matter fm ++ body /\
      normalize_file p fm w = Some (false, w))).
Proof.
  intros Hf. unfold normalize_file, io_bind, read_text. rewrite Hf.
  set (text := universal_newlines stored).
  destruct (match_front_matter text) as [[g1 g2]|].
  - set (body := if negb (truthy (strip g2)) || negb (contains PLAYER_TOKEN (strip g2))
                 then standard_body fm else strip g2).
    set (tail := if negb (ends_with [LF] body) then [LF] else []).
    exists (body ++ tail). split.
    + apply contains_app_l. subst body.
      destruct (truthy (strip g2)); cbn [negb orb];
        [|apply standard_body_has_token].
      destruct (contains PLAYER_TOKEN (strip g2)) eqn:E; cbn [negb];
        [exact E|apply standard_body_has_token].
    + destruct (str_eqb (render_front_matter fm ++ body ++ tail) text) eqn:E;
        cbn [negb].
      * right. apply str_eqb_eq in E. split; [symmetry; exact E|reflexivity].
      * left. reflexivity.
  - exists (standard_body fm ++
            (if truthy (strip text) then LEGACY_SEPARATOR ++ strip text ++ [LF] else [])).
    split; [apply contains_app_l, standard_body_has_token|].
    left. unfold write_text, io_ret, after_write.
    destruct (truthy (strip text)); rewrite <- ?app_assoc, ?app_nil_r; reflexivity.
Qed.

Lemma write_or_update_cases fm slug w :
  exists body,
    contains PLAYER_TOKEN body = true /\
    (write_or_update_episode_file fm slug w
       = Some (true, after_write (episode_path slug)
                       (render_front_matter fm ++ body) w) \/
     (exists stored,
        files w !! episode_path slug = Some stored /\
        universal_newlines stored = render_front_matter fm ++ body /\
        write_or_update_episode_file fm slug w = Some (false, w))).
Proof.
  unfold write_or_update_episode_file, io_bind, path_exists.
  destruct (files w !! episode_path slug) as [stored|] eqn:Hf.
  - rewrite bool_decide_eq_true_2 by eauto.
    destruct (normalize_file_cases _ fm w stored Hf) as (body & Hb & [H|[H1 H2]]).
    + exists body. split; [exact Hb|]. left. exact H.
    + exists body. split; [exact Hb|]. right. exists stored. auto.
  - rewrite bool_decide_eq_false_2 by (intros [x Hx]; discriminate).
    exists (standard_body fm). split; [apply standard_body_has_token|].
    left. reflexivity.
Qed.

(** Whenever a call of the writer returns, the file of the episode exists
    afterwards and holds the front matter of the current record followed by
    a body with the player token: this is the text written when the writer
    answers true, and the text as read when it answers false. *)
Theorem writer_leaves_front_matter_and_player
    (fm : EpisodeRecord) (slug : str) (w : world) (b : bool) (w' : world) :
  write_or_update_episode_file fm slug w = Some (b, w') ->
  exists (stored body : str),
    files w' !! episode_path slug = Some stored /\
    contains PLAYER_TOKEN body = true /\
    (if b then stored else universal_newlines stored)
      = render_front_matter fm ++ body.
Proof.
  intros Hrun.
  destruct (write_or_update_cases fm slug w)
    as (body & Hb & [H|(stored & Hf & Hu & H)]);
    rewrite H in Hrun; inversion Hrun; subst.
  - exists (render_front_matter fm ++ body), body.
    split; [apply lookup_insert_eq|]. auto.
  - exists stored, body. auto.
Qed.

(** The writer reports what it did: it returns true exactly when it wrote
    the file of the episode, once; when it returns false nothing at all has
    changed; and no other file is ever touched. *)
Theorem writer_reports_its_write
    (fm : EpisodeRecord) (slug : str) (w : world) :
  exists (b : bool) (w' : world),
    write_or_update_episode_file fm slug w = Some (b, w') /\
    (forall q, q <> episode_path slug -> files w' !! q = files w !! q) /\
    (if b then exists new, w' = after_write (episode_path slug) new w
     else w' = w).
Proof.
  destruct (write_or_update_cases fm slug w)
    as (body & Hb & [H|(stored & Hf & Hu & H)]).
  - eexists true, _. split; [exact H|]. split; [|eauto].
    intros q Hq. cbn [after_write files]. apply lookup_insert_ne. congruence.
  - exists false, w. auto.
Qed.

Lemma normalize_file_without_token
    (p : str) (fm : EpisodeRecord) (w : world) (stored g1 g2 : str) :
  files w !! p = Some stored ->
  match_front_matter (universal_newlines stored) = Some (g1, g2) ->
  contains PLAYER_TOKEN g2 = false ->
  normalize_file p fm w =
    if str_eqb (render_front_matter fm ++ standard_body fm) (universal_newlines stored)
    then Some (false, w)
    else Some (true, after_write p (render_front_matter fm ++ standard_body fm) w).
Proof.
  intros Hf Hm Hc. unfold normalize_file, io_bind, read_text. rewrite Hf, Hm.
  assert (Hs : contains PLAYER_TOKEN (strip g2) = false).
  { destruct (contains PLAYER_TOKEN (strip g2)) eqn:E; [|reflexivity].
    apply contains_strip_sub in E. congruence. }
  rewrite Hs. cbn [negb]. rewrite orb_true_r.
  rewrite standard_body_ends. cbn [negb]. rewrite app_nil_r.
  destruct (str_eqb _ (universal_newlines stored)); reflexivity.
Qed.

(** A body without the player token is replaced by the generated one: the
    file gets the front matter of the record and the generated body, and is
    written, and reported changed, exactly when this differs from the text
    read. *)
Theorem normalize_regenerates_body
    (p : str) (fm : EpisodeRecord) (w : world) (stored g1 g2 : str) :
  files w !! p = Some stored ->
  let text := universal_newlines stored in
  match_front_matter text = Some (g1, g2) ->
  contains PLAYER_TOKEN g2 = false ->
  let new := render_front_matter fm ++ standard_body fm in
  normalize_file p fm w =
    if str_eqb new text then Some (false, w)
    else Some (true, after_write p new w).
Proof.
  intros Hf text Hm Hc new.
  exact (normalize_file_without_token p fm w stored g1 g2 Hf Hm Hc).
Qed.

(** ** Normalizing again *)

Lemma cr_free_app x y : cr_free (x ++ y) = cr_free x && cr_free y.
Proof. unfold cr_free. apply forallb_app. Qed.

Lemma cr_free_universal_newlines s : cr_free (universal_newlines s) = true.
Proof.
  remember (length s) as n eqn:Hn. revert s Hn.
  induction n as [n IH] using lt_wf_ind. intros s Hn.
  destruct s as [|c t]; [reflexivity|]. cbn [universal_newlines].
  destruct (c =? CR) eqn:Ec.
  - destruct t as [|c' t']; [reflexivity|].
    destruct (c' =? LF).
    + change (cr_free (LF :: universal_newlines t'))
        with (cr_free (universal_newlines t')).
      apply (IH (length t')); [subst; simpl; lia|reflexivity].
    + change (cr_free (LF :: universal_newlines (c' :: t')))
        with (cr_free (universal_newlines (c' :: t'))).
      apply (IH (length (c' :: t'))); [subst; simpl; lia|reflexivity].
  - unfold cr_free. cbn [forallb]. rewrite Ec. cbn [negb andb].
    apply (IH (length t)); [subst; simpl; lia|reflexivity].
Qed.

Lemma forallb_lstrip_by (q p : Z -> bool) s :
  forallb q s = true -> forallb q (lstrip_by p s) = true.
Proof.
  induction s as [|c t IH]; [auto|]. cbn [lstrip_by].
  destruct (p c); [|auto]. cbn [forallb]. intros H.
  apply andb_prop in H as [_ H]. auto.
Qed.

Lemma cr_free_strip s : cr_free s = true -> cr_free (strip s) = true.
Proof.
  intros H. unfold cr_free, strip, strip_by.
  apply forallb_rstrip_by, forallb_lstrip_by, H.
Qed.

Lemma eat_newline_suffix s r : eat_newline s = Some r -> exists pre, s = pre ++ r.
Proof.
  unfold eat_newline. destruct s as [|c t]; [discriminate|].
  destruct (c =? LF).
  - intros H. inversion H; subst. exists [c]. reflexivity.
  - destruct (c =? CR); [|discriminate].
    destruct t as [|c' t']; [discriminate|].
    destruct (c' =? LF); [|discriminate].
    intros H. inversion H; subst. exists [c; c']. reflexivity.
Qed.

Lemma strip_prefix_suffix p s r : strip_prefix p s = Some r -> exists pre, s = pre ++ r.
Proof.
  unfold strip_prefix. destruct (starts_with p s); [|discriminate].
  intros H. inversion H; subst. exists (take (length p) s).
  symmetry. apply take_drop.
Qed.

Lemma closing_marker_suffix s r : closing_marker s = Some r -> exists pre, s = pre ++ r.
Proof.
  unfold closing_marker.
  destruct (eat_newline s) as [r1|] eqn:E1; [|discriminate].
  destruct (strip_prefix MARKER r1) as [r2|] eqn:E2; [|discriminate].
  intros E3.
  apply eat_newline_suffix in E1 as [p1 ->].
  apply strip_prefix_suffix in E2 as [p2 ->].
  apply eat_newline_suffix in E3 as [p3 ->].
  exists (p1 ++ p2 ++ p3). rewrite <- !app_assoc. reflexivity.
Qed.

Lemma split_at_closing_suffix s g1 g2 :
  split_at_closing s = Some (g1, g2) -> exists pre, s = pre ++ g2.
Proof.
  revert g1. induction s as [|c t IH]; intros g1; cbn [split_at_closing].
  - destruct (closing_marker []) eqn:E; [|discriminate].
    intros H. inversion H; subst. exact (closing_marker_suffix _ _ E).
  - destruct (closing_marker (c :: t)) as [r|] eqn:E.
    + intros H. inversion H; subst. exact (closing_marker_suffix _ _ E).
    + destruct (split_at_closing t) as [[h1 h2]|]; [|discriminate].
      intros H. inversion H; subst. destruct (IH _ eq_refl) as [pre ->].
      exists (c :: pre). reflexivity.
Qed.

Lemma match_front_matter_suffix text g1 g2 :
  match_front_matter text = Some (g1, g2) -> exists pre, text = pre ++ g2.
Proof.
  unfold match_front_matter.
  destruct (strip_prefix MARKER text) as [r1|] eqn:E1; [|discriminate].
  destruct (eat_newline r1) as [r2|] eqn:E2; [|discriminate].
  intros E3.
  apply strip_prefix_suffix in E1 as [p1 ->].
  apply eat_newline_suffix in E2 as [p2 ->].
  apply split_at_closing_suffix in E3 as [p3 ->].
  exists (p1 ++ p2 ++ p3). rewrite <- !app_assoc. reflexivity.
Qed.

(** A trimmed text followed by a line feed comes back from trimming. *)
Lemma strip_trimmed_line y : trimmed y -> strip (y ++ [LF]) = y.
Proof.
  intros [Hl Hr]. destruct y as [|a b]; [reflexivity|].
  pose proof (lstrip_by_head is_space (a :: b)) as Ha. rewrite Hl in Ha.
  destruct (rstrip_fixed_last is_space (a :: b) ltac:(discriminate) Hr)
    as (l & c & El & Hc).
  unfold strip, strip_by.
  assert (H1 : lstrip_by is_space ((a :: b) ++ [LF]) = (a :: b) ++ [LF])
    by (cbn [app lstrip_by]; rewrite Ha; reflexivity).
  rewrite H1, El. rewrite rstrip_by_snoc_drop by reflexivity.
  apply rstrip_by_snoc_keep, Hc.
Qed.

(** The text [normalize_file] settles on, form by form. *)
Lemma normalize_file_forms p fm w stored :
  files w !! p = Some stored ->
  exists body,
    ((exists g, cr_free g = true /\ contains PLAYER_TOKEN (strip g) = true /\
                body = strip g ++ [LF]) \/
     body = standard_body fm \/
     (exists old, cr_free old = true /\ truthy (strip old) = true /\
                  body = standard_body fm ++ LEGACY_SEPARATOR ++ strip old ++ [LF])) /\
    (normalize_file p fm w
       = Some (true, after_write p (render_front_matter fm ++ body) w) \/
     (universal_newlines stored = render_front_matter fm ++ body /\
      normalize_file p fm w = Some (false, w))).
Proof.
  intros Hf. pose proof (cr_free_universal_newlines stored) as Hcr.
  destruct (match_front_matter (universal_newlines stored)) as [[g1 g2]|] eqn:Hm.
  - assert (Hg : cr_free g2 = true).
    { destruct (match_front_matter_suffix _ _ _ Hm) as [pre E].
      rewrite E, cr_free_app in Hcr. apply andb_prop in Hcr as [_ H]. exact H. }
    destruct (contains PLAYER_TOKEN g2) eqn:Hc.
    + exists (strip g2 ++ [LF]). split.
      * left. exists g2. split; [exact Hg|]. split; [|reflexivity].
        apply contains_token_strip, Hc.
      * rewrite (normalize_file_with_token p fm w stored g1 g2 Hf Hm Hc).
        destruct (str_eqb _ (universal_newlines stored)) eqn:E.
        -- right. apply str_eqb_eq in E. split; [symmetry; exact E|reflexivity].
        -- left. reflexivity.
    + exists (standard_body fm). split; [right; left; reflexivity|].
      rewrite (normalize_file_without_token p fm w stored g1 g2 Hf Hm Hc).
      destruct (str_eqb _ (universal_newlines stored)) eqn:E.
      * right. apply str_eqb_eq in E. split; [symmetry; exact E|reflexivity].
      * left. reflexivity.
  - unfold normalize_file, io_bind, read_text. rewrite Hf, Hm.
    destruct (truthy (strip (universal_newlines stored))) eqn:Ht.
    + exists (standard_body fm ++ LEGACY_SEPARATOR
              ++ strip (universal_newlines stored) ++ [LF]).
      split; [right; right; exists (universal_newlines stored); auto|].
      left. unfold write_text, io_ret, after_write.
      rewrite <- !app_assoc. reflexivity.
    + exists (standard_body fm). split; [right; left; reflexivity|].
      left. reflexivity.
Qed.

(** Normalizing a file that holds the front matter of the record and a
    body with the player token. *)
Lemma normalize_own_text p fm w stored body :
  one_line_fields fm = true ->
  files w !! p = Some stored ->
  universal_newlines stored = render_front_matter fm ++ body ->
  contains PLAYER_TOKEN body = true ->
  normalize_file p fm w =
    if str_eqb (render_front_matter fm ++ strip body ++ [LF])
               (render_front_matter fm ++ body)
    then Some (false, w)
    else Some (true, after_write p (render_front_matter fm ++ strip body ++ [LF]) w).
Proof.
  intros Hone Hf Hu Hc.
  destruct (match_front_matter_own fm body Hone) as [g1 Hm].
  rewrite <- Hu in Hm.
  rewrite (normalize_file_with_token p fm w stored g1 body Hf Hm Hc), Hu.
  reflexivity.
Qed.

(** A text that trimming and a line feed give back stays. *)
Lemma normalize_fixed_text p fm w body :
  one_line_fields fm = true ->
  cr_free (render_front_matter fm ++ body) = true ->
  files w !! p = Some (render_front_matter fm ++ body) ->
  contains PLAYER_TOKEN body = true ->
  strip body ++ [LF] = body ->
  normalize_file p fm w = Some (false, w).
Proof.
  intros Hone Hcr Hf Hc Hs.
  rewrite (normalize_own_text p fm w _ body Hone Hf
             (universal_newlines_cr_free _ Hcr) Hc).
  rewrite Hs. rewrite (proj2 (str_eqb_eq _ _) eq_refl). reflexivity.
Qed.

Lemma settled_body_token fm body :
  ((exists g, cr_free g = true /\ contains PLAYER_TOKEN (strip g) = true /\
              body = strip g ++ [LF]) \/
   body = standard_body fm \/
   (exists old, cr_free old = true /\ truthy (strip old) = true /\
                body = standard_body fm ++ LEGACY_SEPARATOR ++ strip old ++ [LF])) ->
  contains PLAYER_TOKEN body = true /\
  (cr_free (standard_body fm) = true -> cr_free body = true).
Proof.
  intros [(g & Hg & Hc & ->)|[->|(old & Ho & Ht & ->)]].
  - split; [apply contains_app_l, Hc|]. intros _.
    rewrite cr_free_app, (cr_free_strip _ Hg). reflexivity.
  - split; [apply standard_body_has_token|auto].
  - split; [apply contains_app_l, standard_body_has_token|]. intros Hs.
    rewrite !cr_free_app, Hs, (cr_free_strip _ Ho). reflexivity.
Qed.

Lemma settled_body_fixed fm body :
  (forall c v, unicode_decimal c = Some v -> is_space c = false) ->
  link fm <> [] -> rstrip (link fm) = link fm ->
  ((exists g, cr_free g = true /\ contains PLAYER_TOKEN (strip g) = true /\
              body = strip g ++ [LF]) \/
   body = standard_body fm \/
   (exists old, cr_free old = true /\ truthy (strip old) = true /\
                body = standard_body fm ++ LEGACY_SEPARATOR ++ strip old ++ [LF])) ->
  strip body ++ [LF] = body.
Proof.
  intros Hu Hn Hr [(g & Hg & Hc & ->)|[->|(old & Ho & Ht & ->)]].
  - rewrite (strip_trimmed_line _ (strip_trimmed g)). reflexivity.
  - apply (standard_body_trim fm Hu Hn Hr).
  - destruct (standard_body_head fm) as [rest ->].
    destruct (strip_trimmed old) as [_ Hro].
    destruct (rstrip_fixed_last is_space (strip old)
                ltac:(destruct (strip old); [discriminate|discriminate]) Hro)
      as (l & c & El & Hc).
    rewrite El.
    change (PLAYER_DIRECTIVE ++ rest)
      with (123 :: (skipn 1 PLAYER_DIRECTIVE ++ rest)).
    replace ((123 :: skipn 1 PLAYER_DIRECTIVE ++ rest)
             ++ LEGACY_SEPARATOR ++ (l ++ [c]) ++ [LF])
      with ((123 :: (skipn 1 PLAYER_DIRECTIVE ++ rest) ++ LEGACY_SEPARATOR ++ l)
            ++ [c] ++ [LF])
      by (cbn [app]; rewrite <- !app_assoc; reflexivity).
    rewrite strip_keep by (reflexivity || exact Hc).
    rewrite <- app_assoc. reflexivity.
Qed.

(** Normalization settles after at most two runs.  For a record whose
    quoted fields hold no line feed and whose text holds no carriage return,
    and any existing file: after two runs of [normalize_file] a third one
    writes nothing and reports no change. *)
Theorem normalize_settles_in_two
    (p : str) (fm : EpisodeRecord) (w : world) (stored : str) :
  one_line_fields fm = true ->
  cr_free (render_front_matter fm ++ standard_body fm) = true ->
  files w !! p = Some stored ->
  exists b1 w1 b2 w2,
    normalize_file p fm w = Some (b1, w1) /\
    normalize_file p fm w1 = Some (b2, w2) /\
    normalize_file p fm w2 = Some (false, w2).
Proof.
  intros Hone Hcr Hf. rewrite cr_free_app in Hcr. apply andb_prop in Hcr as [Hcf Hcs].
  destruct (normalize_file_forms p fm w stored Hf) as (body & Hform & Hrun).
  destruct (settled_body_token fm body Hform) as [Htok Hcb]. specialize (Hcb Hcs).
  assert (Hcrb : cr_free (render_front_matter fm ++ body) = true)
    by (rewrite cr_free_app, Hcf, Hcb; reflexivity).
  assert (Hnext : exists b1 w1 stored1,
             normalize_file p fm w = Some (b1, w1) /\
             files w1 !! p = Some stored1 /\
             universal_newlines stored1 = render_front_matter fm ++ body).
  { destruct Hrun as [H|[Hu H]].
    - eexists true, _, _. split; [exact H|]. split; [apply lookup_insert_eq|].
      apply universal_newlines_cr_free, Hcrb.
    - exists false, w, stored. auto. }
  destruct Hnext as (b1 & w1 & stored1 & H1 & Hf1 & Hu1).
  exists b1, w1. pose proof (normalize_own_text p fm w1 stored1 body Hone Hf1 Hu1 Htok) as H2.
  destruct (str_eqb (render_front_matter fm ++ strip body ++ [LF])
                    (render_front_matter fm ++ body)).
  - exists false, w1. auto.
  - eexists true, _. split; [exact H1|]. split; [exact H2|].
    apply (normalize_fixed_text p fm _ (strip body ++ [LF]) Hone).
    + rewrite !cr_free_app, Hcf, (cr_free_strip _ Hcb). reflexivity.
    + apply lookup_insert_eq.
    + apply contains_app_l, contains_token_strip, Htok.
    + rewrite (strip_trimmed_line _ (strip_trimmed body)). reflexivity.
Qed.

(** Normalization is idempotent.  For a record whose quoted fields hold no
    line feed, whose link is not empty and ends with no white space and whose
    text holds no carriage return (no decimal digit being white space), and
    any existing file: after one run of [normalize_file] a second one writes
    nothing and reports no change. *)
Theorem normalize_file_idempotent
    (p : str) (fm : EpisodeRecord) (w : world) (stored : str) :
  (forall c v, unicode_decimal c = Some v -> is_space c = false) ->
  one_line_fields fm = true ->
  link fm <> [] -> rstrip (link fm) = link fm ->
  cr_free (render_front_matter fm ++ standard_body fm) = true ->
  files w !! p = Some stored ->
  exists b1 w1,
    normalize_file p fm w = Some (b1, w1) /\
    normalize_file p fm w1 = Some (false, w1).
Proof.
  intros Hu Hone Hn Hr Hcr Hf.
  rewrite cr_free_app in Hcr. apply andb_prop in Hcr as [Hcf Hcs].
  destruct (normalize_file_forms p fm w stored Hf) as (body & Hform & Hrun).
  destruct (settled_body_token fm body Hform) as [Htok Hcb]. specialize (Hcb Hcs).
  pose proof (settled_body_fixed fm body Hu Hn Hr Hform) as Hfix.
  destruct Hrun as [H|[Hun H]].
  - eexists true, _. split; [exact H|].
    apply (normalize_fixed_text p fm _ body Hone).
    + rewrite cr_free_app, Hcf, Hcb. reflexivity.
    + apply lookup_insert_eq.
    + exact Htok.
    + exact Hfix.
  - exists false, w. auto.
Qed.

(** ** The run, item by item *)

Lemma process_item_skip (acc : gset str * Z) (item : FeedItem) (w : world) :
  has_identifier item = false -> process_item acc item w = Some (acc, w).
Proof.
  unfold has_identifier, process_item. destruct acc as [s n]. intros ->.
  reflexivity.
Qed.

Lemma process_item_step (s : gset str) (n : Z) (item : FeedItem) (w : world) :
  exists (s' : gset str) (n' : Z) (w' : world),
    process_item (s, n) item w = Some ((s', n'), w') /\
    ((n' = n /\ w' = w) \/
     (has_identifier item = true /\ n' = n + 1 /\
      exists new, w' = after_write (episode_path (item_slug item)) new w)).
Proof.
  destruct (has_identifier item) eqn:Hi.
  - unfold process_item. unfold has_identifier in Hi. rewrite Hi. cbn [negb].
    fold (item_slug item). unfold io_bind.
    destruct (write_or_update_cases (build_front_matter item) (item_slug item) w)
      as (body & _ & [H|(stored & _ & _ & H)]); rewrite H; cbn [io_ret].
    + eexists _, _, _. split; [reflexivity|]. right. eauto.
    + eexists _, _, _. split; [reflexivity|]. left. auto.
  - rewrite (process_item_skip _ _ _ Hi). exists s, n, w. auto.
Qed.

(** The writes of a run: one for each file counted, each to the file of an
    item with an identifier, and nothing else changes. *)
Lemma process_items_trace (items : list FeedItem) (s : gset str) (n : Z) (w : world) :
  exists (s' : gset str) (n' : Z) (w' : world) (ws : list (str * str)),
    process_items (s, n) items w = Some ((s', n'), w') /\
    writes w' = writes w ++ ws /\
    n' = n + Z.of_nat (length ws) /\
    (length ws <= length (List.filter has_identifier items))%nat /\
    Forall (fun pw => exists item, item ∈ items /\ has_identifier item = true /\
                                   pw.1 = episode_path (item_slug item)) ws /\
    (forall q, (forall item, item ∈ items -> q <> episode_path (item_slug item)) ->
               files w' !! q = files w !! q).
Proof.
  revert s n w. induction items as [|item rest IH]; intros s n w.
  - exists s, n, w, []. cbn. rewrite app_nil_r.
    repeat split; [lia|lia|constructor].
  - cbn [process_items]. unfold io_bind.
    destruct (process_item_step s n item w) as (s1 & n1 & w1 & -> & Hstep).
    destruct (IH s1 n1 w1) as (s' & n' & w' & ws & -> & Hw & Hn & Hlen & Hall & Hfr).
    assert (Hall' : Forall (fun pw => exists it, it ∈ item :: rest /\
                                has_identifier it = true /\
                                pw.1 = episode_path (item_slug it)) ws).
    { eapply Forall_impl; [exact Hall|]. intros pw (it & Hin & Hi & Hp).
      exists it. split; [right; exact Hin|auto]. }
    destruct Hstep as [[-> ->]|(Hi & -> & new & ->)].
    + exists s', n', w', ws. split; [reflexivity|]. split; [exact Hw|].
      split; [exact Hn|]. split.
      * cbn [List.filter]. destruct (has_identifier item); simpl; lia.
      * split; [exact Hall'|]. intros q Hq. apply Hfr.
        intros it Hin. apply Hq. right. exact Hin.
    + exists s', n', w', ((episode_path (item_slug item), new) :: ws).
      split; [reflexivity|]. cbn [after_write writes] in Hw.
      split; [rewrite Hw, <- app_assoc; reflexivity|].
      split; [cbn [length]; lia|]. split.
      * cbn [List.filter]. rewrite Hi. simpl. lia.
      * split.
        -- constructor; [|exact Hall']. exists item. split; [left|auto].
        -- intros q Hq. rewrite Hfr by (intros it Hin; apply Hq; right; exact Hin).
           cbn [after_write files]. apply lookup_insert_ne.
           intros E. apply (Hq item); [left|congruence].
Qed.

Lemma process_items_filter (items : list FeedItem) (acc : gset str * Z) (w : world) :
  process_items acc (List.filter has_identifier items) w = process_items acc items w.
Proof.
  revert acc w. induction items as [|item rest IH]; intros acc w; [reflexivity|].
  cbn [List.filter process_items]. destruct (has_identifier item) eqn:Hi.
  - cbn [process_items]. unfold io_bind.
    destruct (process_item acc item w) as [[acc' w']|]; [apply IH|reflexivity].
  - unfold io_bind. rewrite (process_item_skip _ _ _ Hi). apply IH.
Qed.

Lemma digit_char_alnum n : slug_alnum (digit_char n) = true.
Proof.
  unfold digit_char, slug_alnum, ascii_digit.
  pose proof (Z.mod_pos_bound n 10 ltac:(lia)) as H.
  decide_cmp. reflexivity.
Qed.

Lemma slug_shape_slug_chars b s :
  slug_shape b s = true -> forallb slug_char s = true.
Proof.
  intros H. apply slug_shape_chars in H. unfold slug_char.
  induction H as [|c t [Hc| ->] _ IH]; cbn [forallb]; [reflexivity| |].
  - rewrite Hc, IH. reflexivity.
  - rewrite IH. reflexivity.
Qed.

(** The slug of an item is safe as the name of a directory. *)
Lemma item_slug_chars item :
  forallb slug_char (item_slug item) = true /\ item_slug item <> [].
Proof.
  unfold item_slug. cbn [build_front_matter date title].
  split.
  - rewrite !forallb_app. unfold isoformat, pad4, pad2.
    rewrite !forallb_app. cbn [forallb]. unfold slug_char at 1 2 3 4 5 6 7 8 9 10 11.
    rewrite !digit_char_alnum. cbn [orb andb].
    rewrite (slug_shape_slug_chars true) by apply slugify_is_slug. reflexivity.
  - unfold isoformat, pad4. discriminate.
Qed.

(** Whenever a run returns, the number it reports is the number of files
    it wrote, and it has written at most one file for each item that has an
    identifier. *)
Theorem main_counts_its_writes
    (state_file : option (option FeedIndexState)) (items : list FeedItem) (w : world)
    (st : FeedIndexState) (changed : Z) (w' : world) :
  main state_file (Some items) w = Some ((st, changed), w') ->
  exists ws,
    writes w' = writes w ++ ws /\
    changed = Z.of_nat (length ws) /\
    (length ws <= length (List.filter has_identifier items))%nat.
Proof.
  unfold main, io_bind. fold (loaded_seen state_file).
  destruct (process_items_trace items (list_to_set (loaded_seen state_file)) 0 w)
    as (s' & n' & w1 & ws & -> & Hw & Hn & Hlen & _).
  cbn [io_ret]. intros Hrun. inversion Hrun; subst.
  exists ws. split; [exact Hw|]. split; [lia|exact Hlen].
Qed.

(** A run writes only files named index.md in a directory of the content
    root whose name is made of the characters a-z, 0-9 and hyphen, and it
    leaves every other file as it was. *)
Theorem main_writes_only_episode_files
    (state_file : option (option FeedIndexState)) (items : list FeedItem) (w : world) :
  exists st changed w' ws,
    main state_file (Some items) w = Some ((st, changed), w') /\
    writes w' = writes w ++ ws /\
    Forall (fun pw => exists slug,
              pw.1 = CONTENT_ROOT ++ [SLASH] ++ slug ++ [SLASH] ++ py "index.md" /\
              slug <> [] /\ forallb slug_char slug = true) ws /\
    (forall q, (forall slug, forallb slug_char slug = true ->
                             q <> CONTENT_ROOT ++ [SLASH] ++ slug ++ [SLASH] ++ py "index.md") ->
               files w' !! q = files w !! q).
Proof.
  unfold main, io_bind. fold (loaded_seen state_file).
  destruct (process_items_trace items (list_to_set (loaded_seen state_file)) 0 w)
    as (s' & n' & w' & ws & -> & Hw & _ & _ & Hall & Hfr).
  cbn [io_ret]. eexists _, n', w', ws. split; [reflexivity|].
  split; [exact Hw|]. split.
  - eapply Forall_impl; [exact Hall|]. intros pw (item & _ & _ & Hp).
    exists (item_slug item). destruct (item_slug_chars item) as [Hc Hne].
    split; [exact Hp|]. auto.
  - intros q Hq. apply Hfr. intros item _.
    apply Hq. apply item_slug_chars.
Qed.

(** Items without an identifier count for nothing: a run over a channel is
    the run over its items that have a guid or a link. *)
Theorem main_skips_items_without_identifier
    (state_file : option (option FeedIndexState)) (items : list FeedItem) (w : world) :
  main state_file (Some (List.filter has_identifier items)) w
  = main state_file (Some items) w.
Proof.
  unfold main, io_bind. rewrite process_items_filter. reflexivity.
Qed.

Lemma elem_of_sorted_seen (s : gset str) x : x ∈ sorted_seen s <-> x ∈ s.
Proof.
  unfold sorted_seen. rewrite merge_sort_Permutation. apply elem_of_elements.
Qed.

(** The state a run saves is a fixed point: a second run over the same
    items that starts from it saves the same state again. *)
Theorem main_state_stable
    (state_file : option (option FeedIndexState)) (items : list FeedItem)
    (w w2 : world) :
  exists st changed w' changed2 w2',
    main state_file (Some items) w = Some ((st, changed), w') /\
    main (Some (Some st)) (Some items) w2 = Some ((st, changed2), w2').
Proof.
  destruct (process_items_total (list_to_set (loaded_seen state_file), 0) items w)
    as [[[s1 n1] w1] Hp].
  pose proof (process_items_seen _ _ _ _ _ _ _ Hp) as Hs1.
  destruct (process_items_total (list_to_set (sorted_seen s1), 0) items w2)
    as [[[s2 n2] w2'] Hp2].
  pose proof (process_items_seen _ _ _ _ _ _ _ Hp2) as Hs2.
  assert (Heq : s2 = s1).
  { apply set_eq. intros x. rewrite Hs2, elem_of_list_to_set, elem_of_sorted_seen.
    rewrite (Hs1 x). tauto. }
  subst s2.
  exists {| seen := Some (sorted_seen s1);
            other_members := other_members (load_state state_file) |},
    n1, w1, n2, w2'.
  unfold main, io_bind. fold (loaded_seen state_file).
  rewrite Hp. cbn [io_ret load_state seen other_members]. rewrite Hp2.
  split; reflexivity.
Qed.

(** ** Slugs, escapes and blocks *)

Lemma slug_shape_last b s :
  slug_shape b s = true -> s <> [] ->
  exists t z, s = t ++ [z] /\ slug_alnum z = true.
Proof.
  revert b. induction s as [|c t IH]; intros b H Hn; [congruence|].
  cbn [slug_shape] in H. destruct t as [|c' t'].
  - exists [], c. split; [reflexivity|].
    destruct (slug_alnum c); [reflexivity|].
    apply andb_prop in H as [_ H]. discriminate.
  - assert (Ht : exists b', slug_shape b' (c' :: t') = true).
    { destruct (slug_alnum c); [eauto|]. apply andb_prop in H as [_ H]. eauto. }
    destruct Ht as [b' Ht].
    destruct (IH b' Ht ltac:(discriminate)) as (t & z & E & Hz).
    exists (c :: t), z. rewrite E. auto.
Qed.

Lemma slug_shape_no_double_hyphen b s :
  slug_shape b s = true ->
  contains [HYPHEN; HYPHEN] s = false /\
  (b = true -> starts_with [HYPHEN] s = false).
Proof.
  revert b. induction s as [|c t IH]; intros b H; [split; reflexivity|].
  cbn [slug_shape] in H. destruct (slug_alnum c) eqn:Ec.
  - destruct (IH _ H) as [IH1 _].
    pose proof (slug_alnum_facts _ Ec) as (_ & _ & _ & Hc & _).
    cbn [contains starts_with]. rewrite (Z.eqb_sym HYPHEN c), Hc, IH1.
    split; reflexivity.
  - apply andb_prop in H as [H Ht]. apply andb_prop in H as [Hc Hb].
    destruct b; [discriminate|]. destruct (IH _ Ht) as [IH1 IH2].
    specialize (IH2 eq_refl). split; [|discriminate].
    cbn [contains]. rewrite IH1, orb_false_r.
    cbn [starts_with]. cbn [starts_with] in IH2.
    destruct t as [|c' t']; [rewrite andb_false_r; reflexivity|].
    rewrite andb_true_r in IH2. rewrite IH2. rewrite andb_false_r. reflexivity.
Qed.

(** Every slug is safe as a name: it is made of the characters a-z, 0-9
    and hyphen, it starts and ends with a letter or a digit, and it holds no
    two hyphens in a row. *)
Theorem slugify_safe_characters (x : str) :
  forallb slug_char (slugify x) = true /\
  (exists a t, slugify x = a :: t /\ slug_alnum a = true) /\
  (exists t z, slugify x = t ++ [z] /\ slug_alnum z = true) /\
  contains [HYPHEN; HYPHEN] (slugify x) = false.
Proof.
  pose proof (slugify_is_slug x) as H. unfold is_slug in H.
  split; [exact (slug_shape_slug_chars _ _ H)|].
  split.
  - destruct (slugify x) as [|a t]; [discriminate|]. exists a, t.
    split; [reflexivity|]. cbn [slug_shape] in H.
    destruct (slug_alnum a); [reflexivity|]. rewrite andb_false_r in H. discriminate.
  - split; [|apply (slug_shape_no_double_hyphen _ _ H)].
    apply (slug_shape_last _ _ H). intros E. rewrite E in H. discriminate.
Qed.

(** The strings [slugify] leaves as they are are exactly the slugs: a
    name that is already a slug keeps its spelling, and nothing else does. *)
Theorem slugify_fixes_exactly_slugs (s : str) :
  (is_slug s = true -> slugify s = s) /\
  (slugify s = s -> is_slug s = true).
Proof.
  split; [apply is_slug_fixed|].
  intros H. rewrite <- H. apply slugify_is_slug.
Qed.

Lemma yml_escape_inline_cons c t :
  yml_escape_inline (c :: t) =
    (if c =? QUOTE then [BACKSLASH; QUOTE] else [c]) ++ yml_escape_inline t.
Proof. reflexivity. Qed.

Lemma yml_escape_inline_head s t : yml_escape_inline s <> QUOTE :: t.
Proof.
  destruct s as [|c s]; [discriminate|]. rewrite yml_escape_inline_cons.
  destruct (Z.eqb_spec c QUOTE) as [->|Hc]; [discriminate|].
  cbn [app]. congruence.
Qed.

(** Escaping puts a backslash before each double quote and changes nothing
    else: every quote of the result follows a backslash, a string without
    quotes is returned as it is, and two strings with the same result are
    the same. *)
Theorem yml_escape_inline_quotes (s : str) :
  (forall pre post, yml_escape_inline s = pre ++ QUOTE :: post ->
     exists pre', pre = pre' ++ [BACKSLASH]) /\
  (forallb (fun c => negb (c =? QUOTE)) s = true -> yml_escape_inline s = s) /\
  (forall s', yml_escape_inline s = yml_escape_inline s' -> s = s').
Proof.
  split; [|split].
  - induction s as [|c t IH]; intros pre post H.
    + destruct pre; discriminate.
    + rewrite yml_escape_inline_cons in H.
      destruct (Z.eqb_spec c QUOTE) as [->|Hc].
      * destruct pre as [|x [|y pre]]; cbn [app] in H.
        -- discriminate.
        -- inversion H; subst. exists []. reflexivity.
        -- inversion H as [[Hx Hy Ht]]. destruct (IH _ _ Ht) as [pre' ->].
           exists (BACKSLASH :: QUOTE :: pre'). reflexivity.
      * destruct pre as [|x pre]; cbn [app] in H.
        -- inversion H. congruence.
        -- inversion H as [[Hx Ht]]. destruct pre as [|y pre].
           ++ exfalso. exact (yml_escape_inline_head _ _ Ht).
           ++ destruct (IH _ _ Ht) as [pre' E]. exists (x :: pre').
              rewrite E. reflexivity.
  - intros H. apply replace1_absent. rewrite forallb_forall in H.
    apply Forall_forall. intros c Hc. apply list_elem_of_In in Hc.
    apply negb_true_iff. exact (H c Hc).
  - induction s as [|c t IH]; intros [|c' t'] H.
    + reflexivity.
    + rewrite yml_escape_inline_cons in H.
      destruct (c' =? QUOTE); discriminate.
    + rewrite yml_escape_inline_cons in H.
      destruct (c =? QUOTE); discriminate.
    + rewrite !yml_escape_inline_cons in H.
      destruct (Z.eqb_spec c QUOTE) as [->|Hc];
        destruct (Z.eqb_spec c' QUOTE) as [->|Hc']; cbn [app] in H.
      * inversion H as [Ht]. rewrite (IH _ Ht). reflexivity.
      * inversion H as [[Hx Ht]]. exfalso.
        symmetry in Ht. exact (yml_escape_inline_head _ _ Ht).
      * inversion H as [[Hx Ht]]. exfalso. exact (yml_escape_inline_head _ _ Ht).
      * inversion H as [[Hx Ht]]. rewrite (IH _ Ht). reflexivity.
Qed.

Lemma rstrip_two_spaces ln :
  rstrip (py "  " ++ ln) = [] \/ exists t, rstrip (py "  " ++ ln) = 32 :: 32 :: t.
Proof.
  unfold rstrip. change (py "  " ++ ln) with (32 :: 32 :: ln).
  cbn [rstrip_by]. destruct (rstrip_by is_space ln) as [|z l].
  - left. reflexivity.
  - right. eauto.
Qed.

(** The block of a description: an empty pair of quotes when it is blank;
    otherwise a bar and one line for each line of the description, each
    without line feed and without white space at its end, and each empty or
    indented by two spaces. *)
Theorem yml_block_lines (d : str) :
  (rstrip d = [] -> yml_block d = [QUOTE; QUOTE]) /\
  (rstrip d <> [] ->
   exists ls,
     yml_block d = py "|" ++ [LF] ++ join [LF] ls /\
     length ls = length (splitlines (rstrip d)) /\
     Forall (fun l => lf_free l = true /\ rstrip l = l /\
                      (l = [] \/ exists t, l = 32 :: 32 :: t)) ls).
Proof.
  unfold yml_block. split.
  - intros ->. reflexivity.
  - intros Hn. destruct (rstrip d) as [|c t] eqn:E; [congruence|].
    cbn [truthy negb].
    exists (map (fun ln => rstrip (py "  " ++ ln)) (splitlines (c :: t))).
    split; [reflexivity|]. split; [apply length_map|].
    apply Forall_map.
    eapply Forall_impl; [apply (splitlines_from_lf_free [] (c :: t)); reflexivity|].
    intros l Hl. cbn beta. split; [|split].
    + apply forallb_rstrip_by. exact Hl.
    + apply rstrip_by_idem.
    + apply rstrip_two_spaces.
Qed.

(** The front matter the writer renders is read back by the pattern of the
    writer: it always matches, and when the quoted fields hold no line feed
    the body found is exactly the text that follows the front matter. *)
Theorem front_matter_round_trip (fm : EpisodeRecord) (rest : str) :
  (exists g1 g2, match_front_matter (render_front_matter fm ++ rest) = Some (g1, g2)) /\
  (one_line_fields fm = true ->
   exists g1, match_front_matter (render_front_matter fm ++ rest) = Some (g1, rest)).
Proof.
  split.
  - destruct (match_front_matter_render fm rest) as [[g1 g2] H]. eauto.
  - apply match_front_matter_own.
Qed.

(** ** The cleaned description *)

Lemma re_sub_skip m repl k s : re_sub m repl k s = re_sub m repl O (drop k s).
Proof.
  revert k. induction s as [|c t IH]; intros [|k]; try reflexivity.
  cbn [re_sub drop]. apply IH.
Qed.

Lemma re_sub_no_bracket m repl s :
  (forall c t, (c =? 60) = false -> m (c :: t) = None) ->
  bracket_free s = true -> re_sub m repl O s = s.
Proof.
  intros Hm. induction s as [|c t IH]; intros H; [reflexivity|].
  cbn [bracket_free forallb] in H. apply andb_prop in H as [Hc Ht].
  apply negb_true_iff in Hc. cbn [re_sub]. rewrite (Hm _ _ Hc).
  f_equal. exact (IH Ht).
Qed.

Lemma match_br_bracket c t : (c =? 60) = false -> match_br (c :: t) = None.
Proof.
  intros H. unfold match_br. destruct t as [|b [|c' t]]; try reflexivity.
  rewrite H. reflexivity.
Qed.

Lemma match_p_p_bracket c t : (c =? 60) = false -> match_p_p (c :: t) = None.
Proof.
  intros H. unfold match_p_p. destruct t as [|b [|c' [|d t]]]; try reflexivity.
  rewrite H. reflexivity.
Qed.

Lemma match_tag_bracket c t : (c =? 60) = false -> match_tag (c :: t) = None.
Proof. intros H. unfold match_tag. rewrite H. reflexivity. Qed.

Lemma match_tag_positive s : match_tag s <> Some O.
Proof.
  unfold match_tag. destruct s as [|a t]; [discriminate|].
  destruct (a =? 60); [|discriminate].
  destruct (tag_run t); [discriminate|]. destruct (drop _ t); discriminate.
Qed.

Lemma match_tag_none_intro c s :
  (c =? 60) = true -> tag_run s = O \/ drop (tag_run s) s = [] ->
  match_tag (c :: s) = None.
Proof.
  intros Hc H. unfold match_tag. rewrite Hc. cbv zeta.
  destruct H as [E|E]; [rewrite E; reflexivity|].
  destruct (tag_run s); [reflexivity|]. rewrite E. reflexivity.
Qed.

Lemma match_tag_none_elim c s :
  (c =? 60) = true -> match_tag (c :: s) = None ->
  tag_run s = O \/ drop (tag_run s) s = [].
Proof.
  intros Hc. unfold match_tag. rewrite Hc. cbv zeta.
  destruct (tag_run s) as [|r]; [auto|].
  destruct (drop (S r) s); [auto|discriminate].
Qed.

Lemma tag_run_no_close s :
  drop (tag_run s) s = [] -> forallb (fun c => negb (c =? 62)) s = true.
Proof.
  induction s as [|c t IH]; [reflexivity|]. cbn [tag_run].
  destruct (c =? 62) eqn:E; [discriminate|]. cbn [drop forallb]. rewrite E.
  exact IH.
Qed.

Lemma no_close_tag_run s :
  forallb (fun c => negb (c =? 62)) s = true -> drop (tag_run s) s = [].
Proof.
  induction s as [|c t IH]; [reflexivity|]. cbn [forallb tag_run]. intros H.
  apply andb_prop in H as [Hc Ht]. apply negb_true_iff in Hc. rewrite Hc.
  cbn [drop]. exact (IH Ht).
Qed.

Lemma re_sub_keeps_forallb (P : Z -> bool) m k s :
  forallb P s = true -> forallb P (re_sub m [] k s) = true.
Proof.
  revert k. induction s as [|c t IH]; intros k H; [destruct k; reflexivity|].
  cbn [forallb] in H. apply andb_prop in H as [Hc Ht].
  cbn [re_sub]. destruct k as [|k]; [|exact (IH _ Ht)].
  destruct (m (c :: t)) as [[|n]|]; cbn [app forallb];
    rewrite ?Hc; cbn [andb]; exact (IH _ Ht).
Qed.

Lemma re_sub_tags_gone s : tag_anywhere (re_sub match_tag [] O s) = false.
Proof.
  remember (length s) as n eqn:Hn. revert s Hn.
  induction n as [n IH] using lt_wf_ind. intros s Hn.
  destruct s as [|c t]; [reflexivity|]. cbn [length] in Hn. cbn [re_sub].
  destruct (match_tag (c :: t)) as [[|k]|] eqn:E.
  - exfalso. exact (match_tag_positive _ E).
  - cbn [app]. rewrite re_sub_skip.
    apply (IH (length (drop k t))); [|reflexivity].
    rewrite length_drop. lia.
  - assert (Ht : tag_anywhere (re_sub match_tag [] O t) = false).
    { apply (IH (length t)); [lia|reflexivity]. }
    cbn [tag_anywhere]. rewrite Ht, orb_false_r.
    destruct (c =? 60) eqn:Ec; [|rewrite (match_tag_bracket _ _ Ec); reflexivity].
    rewrite match_tag_none_intro; [reflexivity|exact Ec|].
    destruct (match_tag_none_elim _ _ Ec E) as [Er|Ed].
    + left. destruct t as [|c' t']; [reflexivity|].
      cbn [tag_run] in Er. destruct (c' =? 62) eqn:Ec'; [|discriminate].
      assert (H60 : (c' =? 60) = false).
      { apply Z.eqb_eq in Ec'. apply Z.eqb_neq. lia. }
      cbn [re_sub]. rewrite (match_tag_bracket _ _ H60). cbn [tag_run].
      rewrite Ec'. reflexivity.
    + right. apply tag_run_no_close in Ed.
      exact (no_close_tag_run _ (re_sub_keeps_forallb _ match_tag O _ Ed)).
Qed.

Lemma tag_run_app s q :
  drop (tag_run s) s <> [] -> tag_run (s ++ q) = tag_run s.
Proof.
  induction s as [|c t IH]; [intros H; exfalso; apply H; reflexivity|].
  cbn [tag_run app]. destruct (c =? 62); [reflexivity|].
  cbn [drop]. intros H. rewrite (IH H). reflexivity.
Qed.

Lemma match_tag_app s q n : match_tag s = Some n -> match_tag (s ++ q) = Some n.
Proof.
  unfold match_tag. destruct s as [|a t]; [discriminate|]. cbn [app].
  destruct (a =? 60); [|discriminate].
  destruct (tag_run t) as [|r] eqn:Er; [discriminate|].
  destruct (drop (S r) t) as [|x l] eqn:Ed; [discriminate|]. intros H.
  rewrite tag_run_app by (rewrite Er, Ed; discriminate).
  rewrite Er, drop_app_le.
  - rewrite Ed. exact H.
  - assert (length (drop (S r) t) <> 0%nat) by (rewrite Ed; discriminate).
    rewrite length_drop in *. lia.
Qed.

Lemma tag_anywhere_app_l s q :
  tag_anywhere (s ++ q) = false -> tag_anywhere s = false.
Proof.
  induction s as [|c t IH]; [reflexivity|]. cbn [app tag_anywhere]. intros H.
  apply orb_false_elim in H as [Hm Ht]. rewrite (IH Ht), orb_false_r.
  destruct (match_tag (c :: t)) as [n|] eqn:E; [|reflexivity].
  change (c :: t ++ q) with ((c :: t) ++ q) in Hm.
  rewrite (match_tag_app _ q _ E) in Hm. discriminate.
Qed.

Lemma tag_anywhere_app_r s q :
  tag_anywhere (s ++ q) = false -> tag_anywhere q = false.
Proof.
  induction s as [|c t IH]; [auto|]. cbn [app tag_anywhere]. intros H.
  apply orb_false_elim in H as [_ Ht]. exact (IH Ht).
Qed.

Lemma lstrip_by_suffix p s : exists q, s = q ++ lstrip_by p s.
Proof.
  induction s as [|c t [q IH]]; [exists []; reflexivity|].
  cbn [lstrip_by]. destruct (p c).
  - exists (c :: q). cbn [app]. f_equal. exact IH.
  - exists []. reflexivity.
Qed.

Lemma rstrip_by_prefix p s : exists q, s = rstrip_by p s ++ q.
Proof.
  induction s as [|c t [q IH]]; [exists []; reflexivity|].
  cbn [rstrip_by]. destruct (rstrip_by p t) as [|z l] eqn:E.
  - destruct (p c).
    + exists (c :: t). reflexivity.
    + exists t. reflexivity.
  - exists q. cbn [app]. f_equal. exact IH.
Qed.

Lemma tag_anywhere_strip s :
  tag_anywhere s = false -> tag_anywhere (strip s) = false.
Proof.
  intros H. unfold strip, strip_by.
  destruct (lstrip_by_suffix is_space s) as [q Hq].
  rewrite Hq in H. apply tag_anywhere_app_r in H.
  destruct (rstrip_by_prefix is_space (lstrip_by is_space s)) as [q' Hq'].
  rewrite Hq' in H. exact (tag_anywhere_app_l _ _ H).
Qed.

(** No tag is left in a cleaned description: the pattern of a tag (an
    opening angle bracket, one or more characters other than the closing
    one, a closing one) matches nowhere in the result. *)
Theorem strip_html_leaves_no_tag (s : str) :
  tag_anywhere (strip_html s) = false.
Proof.
  unfold strip_html. apply tag_anywhere_strip, re_sub_tags_gone.
Qed.

(** A cleaned description has no white space at its ends, and a text that
    holds no opening angle bracket once its entities are replaced is only
    trimmed. *)
Theorem strip_html_plain_text (s : str) :
  trimmed (strip_html s) /\
  (bracket_free (html_unescape s) = true ->
   strip_html s = strip (html_unescape s)).
Proof.
  split; [apply strip_trimmed|]. intros H. unfold strip_html.
  rewrite (re_sub_no_bracket match_br) by (auto using match_br_bracket).
  rewrite (re_sub_no_bracket match_p_p) by (auto using match_p_p_bracket).
  rewrite (re_sub_no_bracket match_tag) by (auto using match_tag_bracket).
  reflexivity.
Qed.

(** ** The first step of the date cascade *)

Lemma first_bind {A B : Type} (p : parser A) (f : A -> parser B) s a r res :
  head (p s) = Some (a, r) -> head (f a r) = Some res ->
  head (p_bind p f s) = Some res.
Proof.
  unfold p_bind. destruct (p s) as [|[a' r'] l]; [discriminate|].
  intros H; inversion H; subst. cbn [flat_map].
  destruct (f a r); [discriminate|]. intros H'; inversion H'; subst. reflexivity.
Qed.

Lemma first_alt_l {A : Type} (p q : parser A) s res :
  head (p s) = Some res -> head (p_alt p q s) = Some res.
Proof. unfold p_alt. destruct (p s); [discriminate|]. auto. Qed.

Lemma p_lit_head c r : head (p_lit c (c :: r)) = Some (tt, r).
Proof. unfold p_lit, p_bind, p_char. rewrite Z.eqb_refl. reflexivity. Qed.

Lemma p_char_head ok c r : ok c = true -> head (p_char ok (c :: r)) = Some (c, r).
Proof. intros H. unfold p_char. rewrite H. reflexivity. Qed.

Lemma is_space_digit_char n : is_space (digit_char n) = false.
Proof.
  unfold is_space, digit_char.
  pose proof (Z.mod_pos_bound n 10 ltac:(lia)) as H. decide_cmp. reflexivity.
Qed.

Lemma digit_value_digit_char n : digit_value (digit_char n) = Some (n mod 10).
Proof.
  unfold digit_value, is_ascii, ascii_digit, digit_char.
  pose proof (Z.mod_pos_bound n 10 ltac:(lia)) as H. decide_cmp.
  cbn [andb]. f_equal. lia.
Qed.

Lemma p_digit_head n r : head (p_digit (digit_char n :: r)) = Some (n mod 10, r).
Proof. unfold p_digit. rewrite digit_value_digit_char. reflexivity. Qed.

Lemma p_range_head lo hi n r :
  lo <= n mod 10 <= hi ->
  head (p_range lo hi (digit_char n :: r)) = Some (n mod 10, r).
Proof.
  intros H. unfold p_range, p_bind, p_char, digit_char. decide_cmp.
  cbn [andb flat_map app p_ret head]. do 2 f_equal. lia.
Qed.

Lemma p_colon_absent n r :
  head (p_colon (digit_char n :: r)) = Some (false, digit_char n :: r).
Proof.
  unfold p_colon, p_opt, p_alt, p_bind, p_lit, p_bind, p_char, digit_char.
  pose proof (Z.mod_pos_bound n 10 ltac:(lia)) as H. decide_cmp. reflexivity.
Qed.

Lemma p_spaces_one c r :
  is_space c = false -> head (p_spaces (32 :: c :: r)) = Some (tt, c :: r).
Proof.
  intros H. cbn [p_spaces]. rewrite H. reflexivity.
Qed.

Lemma p_spaces_pad2 n r : head (p_spaces (32 :: pad2 n ++ r)) = Some (tt, pad2 n ++ r).
Proof. apply p_spaces_one, is_space_digit_char. Qed.

Lemma p_spaces_pad4 n r : head (p_spaces (32 :: pad4 n ++ r)) = Some (tt, pad4 n ++ r).
Proof. apply p_spaces_one, is_space_digit_char. Qed.

(** The cases of a number between zero and a bound. *)
Ltac enum n bound :=
  let k := fresh "k" in
  let Hk := fresh "Hk" in
  assert (Hk : exists k, n = Z.of_nat k /\ (k <= bound)%nat)
    by (exists (Z.to_nat n); lia);
  destruct Hk as (k & -> & Hk);
  do 61 (try (destruct k as [|k]; [first [vm_compute; reflexivity | lia]|]));
  lia.

Lemma p_weekday_head wd r :
  In wd DAY_NAMES -> exists i, head (p_names WEEKDAYS 0 (wd ++ r)) = Some (i, r).
Proof.
  intros H. cbn [In DAY_NAMES] in H.
  repeat (destruct H as [<-|H]; [eexists; vm_compute; reflexivity|]).
  destruct H.
Qed.

Lemma p_day_head d r : 1 <= d <= 31 -> head (p_day (pad2 d ++ r)) = Some (d, r).
Proof. intros H. enum d 31%nat. Qed.

Lemma p_month_head m r :
  1 <= m <= 12 -> head (p_names MONTHS 1 (month_name m ++ r)) = Some (m, r).
Proof. intros H. enum m 12%nat. Qed.

Lemma p_spaces_month m r :
  1 <= m <= 12 ->
  head (p_spaces (32 :: month_name m ++ r)) = Some (tt, month_name m ++ r).
Proof. intros H. enum m 12%nat. Qed.

Lemma p_year_head y r : 0 <= y <= 9999 -> head (p_year (pad4 y ++ r)) = Some (y, r).
Proof.
  intros H. unfold p_year, pad4.
  repeat (eapply first_bind; [apply p_digit_head|]).
  cbn [p_ret head]. do 2 f_equal.
  clear unicode_lower fromisoformat_date html_unescape.
  Z.div_mod_to_equations. lia.
Qed.

Lemma p_hour_head h r : 0 <= h <= 23 -> head (p_hour (pad2 h ++ r)) = Some (h, r).
Proof. intros H. enum h 23%nat. Qed.

Lemma p_minute_head n r : 0 <= n <= 59 -> head (p_minute (pad2 n ++ r)) = Some (n, r).
Proof. intros H. enum n 59%nat. Qed.

Lemma p_second_head n r : 0 <= n <= 59 -> head (p_second (pad2 n ++ r)) = Some (n, r).
Proof. intros H. enum n 59%nat. Qed.

Lemma p_zone_head sign zh zm :
  sign = 43 \/ sign = 45 -> 0 <= zh <= 99 -> 0 <= zm <= 59 ->
  head (p_zone (sign :: pad2 zh ++ pad2 zm))
    = Some ({| zone_hours := zh; zone_colon := false; zone_seconds := None |}, []).
Proof.
  intros Hs Hh Hm. unfold p_zone, pad2. apply first_alt_l.
  eapply first_bind.
  { apply p_char_head. destruct Hs as [-> | ->]; reflexivity. }
  do 2 (eapply first_bind; [apply p_digit_head|]).
  eapply first_bind; [apply p_colon_absent|].
  eapply first_bind.
  { apply p_range_head. Z.div_mod_to_equations. lia. }
  eapply first_bind; [apply p_digit_head|].
  eapply first_bind; [reflexivity|].
  cbn [p_ret head]. do 3 f_equal. Z.div_mod_to_equations. lia.
Qed.

Lemma days_in_month_le y m : days_in_month y m <= 31.
Proof.
  unfold days_in_month.
  destruct (m =? 2); [destruct (is_leap y); lia|].
  destruct (_ || _); lia.
Qed.

Lemma strptime_rfc822_text wd d m y hh mi ss sign zh zm :
  In wd DAY_NAMES ->
  1 <= y <= 9999 -> 1 <= m <= 12 -> 1 <= d <= days_in_month y m ->
  0 <= hh <= 23 -> 0 <= mi <= 59 -> 0 <= ss <= 59 ->
  sign = 43 \/ sign = 45 -> 0 <= zh <= 23 -> 0 <= zm <= 59 ->
  strptime_rfc822 (rfc822_text wd d m y hh mi ss sign zh zm)
    = Some {| year := y; month := m; day := d |}.
Proof.
  intros Hwd Hy Hm Hd Hhh Hmi Hss Hsign Hzh Hzm.
  pose proof (days_in_month_le y m) as Hd'.
  destruct (p_weekday_head wd
              (44 :: 32 :: pad2 d ++ 32 :: month_name m ++ 32 :: pad4 y
               ++ 32 :: pad2 hh ++ 58 :: pad2 mi ++ 58 :: pad2 ss
               ++ 32 :: sign :: pad2 zh ++ pad2 zm) Hwd) as [i Hi].
  assert (H : head (p_rfc822 (rfc822_text wd d m y hh mi ss sign zh zm))
              = Some ((d, m, y, ss,
                       {| zone_hours := zh; zone_colon := false;
                          zone_seconds := None |}), [])).
  { unfold p_rfc822.
    eapply first_bind; [exact Hi|].
    eapply first_bind; [apply p_lit_head|].
    eapply first_bind; [apply p_spaces_pad2|].
    eapply first_bind; [apply p_day_head; lia|].
    eapply first_bind; [apply p_spaces_month; lia|].
    eapply first_bind; [apply p_month_head; lia|].
    eapply first_bind; [apply p_spaces_pad4|].
    eapply first_bind; [apply p_year_head; lia|].
    eapply first_bind; [apply p_spaces_pad2|].
    eapply first_bind; [apply p_hour_head; lia|].
    eapply first_bind; [apply p_lit_head|].
    eapply first_bind; [apply p_minute_head; lia|].
    eapply first_bind; [apply p_lit_head|].
    eapply first_bind; [apply p_second_head; lia|].
    eapply first_bind.
    { apply (p_spaces_one sign). destruct Hsign as [-> | ->]; reflexivity. }
    eapply first_bind; [apply p_zone_head; [exact Hsign|lia|lia]|].
    reflexivity. }
  unfold strptime_rfc822.
  destruct (p_rfc822 _) as [|x l]; [discriminate|].
  cbn [head] in H. inversion H; subst x. cbn [truthy].
  unfold zone_ok. cbn [zone_seconds zone_hours]. decide_cmp. reflexivity.
Qed.

(** A well-formed date of RFC 822 with a numeric zone is read as the day
    written in it, whatever the name of the day, the time and the zone: the
    name is not checked against the date and the zone does not move the day. *)
Theorem rfc822_date_read_as_written (wd : str) (d m y hh mi ss sign zh zm : Z) :
  In wd DAY_NAMES ->
  1 <= y <= 9999 -> 1 <= m <= 12 -> 1 <= d <= days_in_month y m ->
  0 <= hh <= 23 -> 0 <= mi <= 59 -> 0 <= ss <= 59 ->
  sign = 43 \/ sign = 45 -> 0 <= zh <= 23 -> 0 <= zm <= 59 ->
  parse_date_rfc822 (rfc822_text wd d m y hh mi ss sign zh zm)
    = {| year := y; month := m; day := d |} /\
  isoformat (parse_date_rfc822 (rfc822_text wd d m y hh mi ss sign zh zm))
    = pad4 y ++ [HYPHEN] ++ pad2 m ++ [HYPHEN] ++ pad2 d.
Proof.
  intros. unfold parse_date_rfc822.
  rewrite strptime_rfc822_text by assumption. split; reflexivity.
Qed.

Lemma consumes_ret {A : Type} (good : str -> Prop) (a : A) :
  good [] -> consumes good (p_ret a).
Proof.
  intros Hg s v r [H|[]]. inversion H; subst. exists []. auto.
Qed.

Lemma consumes_bind {A B : Type} (g1 g2 g : str -> Prop)
    (p : parser A) (f : A -> parser B) :
  (forall c1 c2, g1 c1 -> g2 c2 -> g (c1 ++ c2)) ->
  consumes g1 p -> (forall a, consumes g2 (f a)) -> consumes g (p_bind p f).
Proof.
  intros Hg Hp Hf s v r H. unfold p_bind in H.
  apply in_flat_map in H as ([a r1] & H1 & H2).
  destruct (Hp _ _ _ H1) as (c1 & -> & G1).
  destruct (Hf a _ _ _ H2) as (c2 & -> & G2).
  exists (c1 ++ c2). rewrite app_assoc. auto.
Qed.

Lemma consumes_alt {A : Type} (good : str -> Prop) (p q : parser A) :
  consumes good p -> consumes good q -> consumes good (p_alt p q).
Proof.
  intros Hp Hq s v r H. unfold p_alt in H. apply in_app_or in H as [H|H]; eauto.
Qed.

Lemma consumes_weaken {A : Type} (g g' : str -> Prop) (p : parser A) :
  (forall c, g c -> g' c) -> consumes g p -> consumes g' p.
Proof.
  intros Hg Hp s v r H. destruct (Hp _ _ _ H) as (c & E & G). eauto.
Qed.

Lemma consumes_char (good : str -> Prop) ok :
  (forall c, ok c = true -> good [c]) -> consumes good (p_char ok).
Proof.
  intros Hg [|c t] v r H; [destruct H|]. cbn [p_char] in H.
  destruct (ok c) eqn:E; [|destruct H]. destruct H as [H|[]].
  inversion H; subst. exists [v]. auto.
Qed.

Lemma consumes_any_char ok : consumes anything (p_char ok).
Proof. apply consumes_char. intros c _. exact I. Qed.

Lemma closing_one x : final_char x -> closing [x].
Proof. intros H. exists [], x. auto. Qed.

Lemma consumes_digit : consumes closing p_digit.
Proof.
  intros [|c t] v r H; [destruct H|]. cbn [p_digit] in H.
  destruct (digit_value c) eqn:E; [|destruct H]. destruct H as [H|[]].
  inversion H; subst. exists [c]. split; [reflexivity|].
  apply closing_one. left. unfold is_digit. rewrite E. reflexivity.
Qed.

Lemma consumes_spaces : consumes anything p_spaces.
Proof.
  intros s. induction s as [|c t IH]; intros v r H; [destruct H|].
  cbn [p_spaces] in H. destruct (is_space c); [|destruct H].
  apply in_app_or in H as [H|[H|[]]].
  - destruct (IH _ _ H) as (c' & -> & _). exists (c :: c'). split; [reflexivity|exact I].
  - inversion H; subst. exists [c]. split; [reflexivity|exact I].
Qed.

Lemma consumes_name name : consumes anything (p_name name).
Proof.
  intros s v r H. unfold p_name in H.
  destruct (_ && _); [|destruct H]. destruct H as [H|[]]. inversion H; subst.
  exists (take (length name) s). rewrite take_drop. split; [reflexivity|exact I].
Qed.

Lemma anything_app (c1 c2 : str) : anything c1 -> anything c2 -> anything (c1 ++ c2).
Proof. intros _ _. exact I. Qed.

Lemma closing_after (c1 c2 : str) : anything c1 -> closing c2 -> closing (c1 ++ c2).
Proof.
  intros _ (c' & x & -> & H). exists (c1 ++ c'), x. rewrite app_assoc. auto.
Qed.

Lemma closing_then (c1 c2 : str) :
  closing c1 -> nothing_or_closing c2 -> closing (c1 ++ c2).
Proof.
  intros H1 [-> | H2]; [rewrite app_nil_r; exact H1|].
  apply closing_after; [exact I|exact H2].
Qed.

Lemma nothing_or_closing_app (c1 c2 : str) :
  nothing_or_closing c1 -> nothing_or_closing c2 -> nothing_or_closing (c1 ++ c2).
Proof.
  intros [-> | H1] H2; [exact H2|]. right. apply closing_then; assumption.
Qed.

Lemma consumes_anything {A : Type} (g : str -> Prop) (p : parser A) :
  consumes g p -> consumes anything p.
Proof. apply consumes_weaken. intros c _. exact I. Qed.

Lemma consumes_names names i : consumes anything (p_names names i).
Proof.
  revert i. induction names as [|n rest IH]; intros i.
  - intros s v r [].
  - cbn [p_names]. apply consumes_alt; [|apply IH].
    apply (consumes_bind anything anything); [apply anything_app|apply consumes_name|].
    intros _. apply consumes_ret. exact I.
Qed.

(** Parsers that take any prefix. *)
Ltac takes_anything :=
  repeat first
    [ apply consumes_names
    | apply consumes_spaces
    | apply (consumes_anything _ _ consumes_digit)
    | apply consumes_char; intros; exact I
    | apply consumes_ret; exact I
    | apply consumes_alt
    | apply (consumes_bind anything anything anything _ _ anything_app); [|intros ?] ].

Lemma consumes_range lo hi : consumes anything (p_range lo hi).
Proof. unfold p_range. takes_anything. Qed.

Lemma consumes_lit c : consumes anything (p_lit c).
Proof. unfold p_lit. takes_anything. Qed.

Lemma consumes_colon : consumes anything p_colon.
Proof. unfold p_colon, p_opt, p_lit. takes_anything. Qed.

Lemma consumes_day : consumes anything p_day.
Proof. unfold p_day, p_range, p_lit. takes_anything. Qed.

Lemma consumes_year : consumes anything p_year.
Proof. unfold p_year. takes_anything. Qed.

Lemma consumes_hour : consumes anything p_hour.
Proof. unfold p_hour, p_range, p_lit. takes_anything. Qed.

Lemma consumes_minute : consumes anything p_minute.
Proof. unfold p_minute, p_range. takes_anything. Qed.

Lemma consumes_second : consumes anything p_second.
Proof. unfold p_second, p_range, p_lit. takes_anything. Qed.

Lemma consumes_opt {A : Type} (p : parser A) :
  consumes closing p -> consumes nothing_or_closing (p_opt p).
Proof.
  intros H. unfold p_opt. apply consumes_alt.
  - apply (consumes_bind closing nothing_or_closing nothing_or_closing).
    + intros c1 c2 H1 H2. right. apply closing_then; assumption.
    + exact H.
    + intros a. apply consumes_ret. left. reflexivity.
  - apply consumes_ret. left. reflexivity.
Qed.

Lemma consumes_digits_upto n : consumes nothing_or_closing (p_digits_upto n).
Proof.
  induction n as [|k IH]; cbn [p_digits_upto].
  - apply consumes_ret. left. reflexivity.
  - apply consumes_alt; [|apply consumes_ret; left; reflexivity].
    apply (consumes_bind closing nothing_or_closing nothing_or_closing).
    + intros c1 c2 H1 H2. right. apply closing_then; assumption.
    + apply consumes_digit.
    + intros _. exact IH.
Qed.

(** A prefix, then a parser that closes. *)
Ltac after p_lemma :=
  apply (consumes_bind anything closing closing _ _ closing_after); [apply p_lemma|intros ?].

(** A parser that closes, then one that may take nothing. *)
Ltac closes_then :=
  apply (consumes_bind closing nothing_or_closing closing _ _ closing_then);
    [apply consumes_digit|].

Lemma consumes_zone : consumes closing p_zone.
Proof.
  unfold p_zone. apply consumes_alt.
  - after (consumes_any_char (fun c => (c =? 43) || (c =? 45))).
    after (consumes_anything _ _ consumes_digit).
    after (consumes_anything _ _ consumes_digit).
    after consumes_colon. after (consumes_range 0 5).
    closes_then. intros _.
    apply (consumes_bind nothing_or_closing nothing_or_closing nothing_or_closing
             _ _ nothing_or_closing_app);
      [|intros ?; apply consumes_ret; left; reflexivity].
    apply consumes_opt.
    after consumes_colon. after (consumes_range 0 5).
    closes_then. intros _.
    apply (consumes_bind nothing_or_closing nothing_or_closing nothing_or_closing
             _ _ nothing_or_closing_app);
      [|intros ?; apply consumes_ret; left; reflexivity].
    apply consumes_opt.
    after (consumes_lit 46). closes_then. intros _.
    apply consumes_digits_upto.
  - apply (consumes_bind closing nothing_or_closing closing _ _ closing_then).
    + unfold p_lit.
      apply (consumes_bind closing nothing_or_closing closing _ _ closing_then).
      * apply consumes_char. intros c Hc. apply Z.eqb_eq in Hc. subst c.
        apply closing_one. right. reflexivity.
      * intros _. apply consumes_ret. left. reflexivity.
    + intros _. apply consumes_ret. left. reflexivity.
Qed.

Lemma consumes_rfc822 : consumes closing p_rfc822.
Proof.
  unfold p_rfc822.
  after (consumes_names WEEKDAYS 0). after (consumes_lit 44). after consumes_spaces.
  after consumes_day. after consumes_spaces.
  after (consumes_names MONTHS 1). after consumes_spaces.
  after consumes_year. after consumes_spaces.
  after consumes_hour. after (consumes_lit 58).
  after consumes_minute. after (consumes_lit 58).
  after consumes_second. after consumes_spaces.
  apply (consumes_bind closing nothing_or_closing closing _ _ closing_then).
  - apply consumes_zone.
  - intros z. apply consumes_ret. left. reflexivity.
Qed.

Lemma strptime_rfc822_final_char t c :
  is_digit c = false -> c <> 90 -> strptime_rfc822 (t ++ [c]) = None.
Proof.
  intros Hd Hz. unfold strptime_rfc822.
  destruct (p_rfc822 (t ++ [c])) as [|[[[[[d m] y] sec] z] rest] l] eqn:E;
    [reflexivity|].
  destruct rest as [|x rest]; [|reflexivity]. exfalso.
  destruct (consumes_rfc822 (t ++ [c]) (d, m, y, sec, z) []) as (c0 & E0 & c' & x & -> & Hx).
  { rewrite E. left. reflexivity. }
  rewrite app_nil_r in E0. apply app_inj_tail in E0 as [_ ->].
  destruct Hx as [Hx|Hx]; congruence.
Qed.

(** The first step of the cascade accepts only a text that ends with a
    digit or with the capital letter Z: a date whose zone is written as a
    name, as in GMT, is left to the second step, and is read as the day of
    the run when that one refuses it as well. *)
Theorem rfc822_step_needs_numeric_zone (t : str) (c : Z) :
  is_digit c = false -> c <> 90 ->
  strptime_rfc822 (t ++ [c]) = None /\
  parse_date_rfc822 (t ++ [c])
    = match fromisoformat_date (t ++ [c]) with
      | Some d => d
      | None => utc_today
      end.
Proof.
  intros Hd Hz. unfold parse_date_rfc822.
  rewrite (strptime_rfc822_final_char _ _ Hd Hz). split; reflexivity.
Qed.

(** ** The record of an item *)

Lemma lf_free_strip s : lf_free s = true -> lf_free (strip s) = true.
Proof.
  intros H. unfold lf_free, strip, strip_by.
  apply forallb_rstrip_by, forallb_lstrip_by, H.
Qed.

Lemma digit_char_not_lf n : negb (digit_char n =? LF) = true.
Proof.
  unfold digit_char, LF. pose proof (Z.mod_pos_bound n 10 ltac:(lia)) as H.
  rewrite (proj2 (Z.eqb_neq _ _)) by lia. reflexivity.
Qed.

Lemma lf_free_cons c s : lf_free (c :: s) = lf_free [c] && lf_free s.
Proof. unfold lf_free. cbn [forallb]. rewrite andb_true_r. reflexivity. Qed.

Lemma lf_free_isoformat d : lf_free (isoformat d) = true.
Proof.
  unfold lf_free, isoformat, pad4, pad2. cbn [app forallb].
  rewrite !digit_char_not_lf. reflexivity.
Qed.

Lemma lf_free_strftime_dmy d : lf_free (strftime_dmy d) = true.
Proof.
  unfold lf_free, strftime_dmy, year_digits, pad4, pad2.
  destruct (year d <? 10); [|destruct (year d <? 100); [|destruct (year d <? 1000)]];
    cbn [app forallb]; rewrite !digit_char_not_lf; reflexivity.
Qed.

Lemma lf_free_iframe eid t :
  lf_free eid = true -> lf_free t = true -> lf_free (iframe eid t) = true.
Proof.
  intros He Ht. unfold iframe. rewrite !lf_free_app, He, Ht. reflexivity.
Qed.

Lemma lf_free_episode_id l eid :
  lf_free l = true -> episode_id_from_link l = Some eid -> lf_free eid = true.
Proof.
  intros Hl H. apply search_id_spec in H as (_ & _ & pre & tail & -> & _).
  rewrite lf_free_app, lf_free_cons, lf_free_app in Hl.
  apply andb_prop in Hl as [_ Hl]. apply andb_prop in Hl as [_ Hl].
  apply andb_prop in Hl as [Hl _]. exact Hl.
Qed.

(** Every record built from an item has the two fixed tags and is no
    draft; its title, link, audio address and description have no white
    space at their ends; and its two dates are the two renderings of one
    day: the first has ten characters, the second has ten from the year
    1000 on and fewer before, where the year is written without padding. *)
Theorem build_front_matter_fields (item : FeedItem) :
  let fm := build_front_matter item in
  tags fm = TAGS /\ draft fm = false /\
  trimmed (title fm) /\ trimmed (link fm) /\
  trimmed (audio_url fm) /\ trimmed (description fm) /\
  length (date fm) = 10%nat /\
  exists d,
    date fm = isoformat d /\ display_date fm = strftime_dmy d /\
    (1000 <= year d -> length (display_date fm) = 10%nat) /\
    (1 <= year d < 1000 -> (length (display_date fm) < 10)%nat).
Proof.
  cbn zeta. cbn [build_front_matter tags draft title link audio_url description
                 date display_date].
  split; [reflexivity|]. split; [reflexivity|].
  split; [apply strip_trimmed|]. split; [apply strip_trimmed|].
  split.
  { destruct (item_enclosure item) as [[url|]|]; try apply trimmed_nil.
    destruct (truthy url); [apply strip_trimmed|apply trimmed_nil]. }
  split; [apply strip_trimmed|].
  split; [reflexivity|].
  eexists. split; [reflexivity|]. split; [reflexivity|].
  unfold strftime_dmy, year_digits. split; intros Hy; decide_cmp;
    [reflexivity|].
  destruct (_ <? 10); [|destruct (_ <? 100)]; cbn [app length pad2]; lia.
Qed.

(** An item whose title, link and enclosure address hold no line feed
    gives a record whose quoted fields hold none: each stays on its line of
    the front matter. *)
Theorem build_front_matter_one_line (item : FeedItem) :
  lf_free (text_or (item_title item)) = true ->
  lf_free (text_or (item_link item)) = true ->
  lf_free (match item_enclosure item with Some (Some url) => url | _ => [] end) = true ->
  one_line_fields (build_front_matter item) = true.
Proof.
  intros Ht Hl Hu. unfold one_line_fields.
  rewrite build_front_matter_embed.
  cbn [build_front_matter title date display_date audio_url link].
  apply lf_free_strip in Ht, Hl.
  rewrite Ht, Hl, lf_free_isoformat, lf_free_strftime_dmy. cbn [andb].
  rewrite andb_true_r. apply andb_true_intro. split.
  - destruct (episode_id_from_link _) as [eid|] eqn:E; [|reflexivity].
    apply lf_free_iframe; [|exact Ht]. exact (lf_free_episode_id _ _ Hl E).
  - destruct (item_enclosure item) as [[url|]|]; try reflexivity.
    destruct (truthy url); [|reflexivity]. apply lf_free_strip, Hu.
Qed.

(** ** Runs of the whole script, one after the other *)

Lemma file_world_lookup p c : files (file_world p c) !! p = c.
Proof.
  unfold file_world. cbn [files]. destruct c as [t|].
  - apply lookup_singleton_eq.
  - apply lookup_empty.
Qed.

(** The writer looks at the file of the episode only. *)
Lemma writer_local fm slug w w0 :
  files w !! episode_path slug = files w0 !! episode_path slug ->
  (exists new,
     write_or_update_episode_file fm slug w
       = Some (true, after_write (episode_path slug) new w) /\
     write_or_update_episode_file fm slug w0
       = Some (true, after_write (episode_path slug) new w0)) \/
  (write_or_update_episode_file fm slug w = Some (false, w) /\
   write_or_update_episode_file fm slug w0 = Some (false, w0)).
Proof.
  intros H. unfold write_or_update_episode_file, io_bind, path_exists. rewrite H.
  destruct (files w0 !! episode_path slug) as [stored|] eqn:E.
  - rewrite bool_decide_eq_true_2 by eauto.
    unfold normalize_file, io_bind, read_text. rewrite H, E.
    destruct (match_front_matter (universal_newlines stored)) as [[g1 g2]|].
    + match goal with |- context [negb (str_eqb ?a ?b)] =>
        destruct (negb (str_eqb a b)) end.
      * left. eexists. split; reflexivity.
      * right. split; reflexivity.
    + left. eexists. split; reflexivity.
  - rewrite bool_decide_eq_false_2 by (intros [x Hx]; discriminate).
    left. eexists. split; reflexivity.
Qed.

Lemma writer_file_after fm slug w b w1 :
  write_or_update_episode_file fm slug w = Some (b, w1) ->
  b = (writer_result fm slug (files w !! episode_path slug)).1 /\
  files w1 !! episode_path slug
    = (writer_result fm slug (files w !! episode_path slug)).2.
Proof.
  intros H. unfold writer_result.
  destruct (writer_local fm slug w
              (file_world (episode_path slug) (files w !! episode_path slug)))
    as [(new & H1 & H2)|[H1 H2]].
  - symmetry. apply file_world_lookup.
  - rewrite H1 in H. inversion H; subst. rewrite H2. cbn [fst snd].
    split; [reflexivity|]. unfold after_write. cbn [files].
    rewrite !lookup_insert_eq. reflexivity.
  - rewrite H1 in H. inversion H; subst. rewrite H2. cbn [fst snd].
    split; [reflexivity|]. symmetry. apply file_world_lookup.
Qed.

Lemma writer_by_result fm slug w :
  (writer_result fm slug (files w !! episode_path slug)).1 = false ->
  write_or_update_episode_file fm slug w = Some (false, w).
Proof.
  intros H.
  destruct (write_or_update_episode_file_total fm slug w) as (b & w' & Hw).
  destruct (writer_file_after _ _ _ _ _ Hw) as [Hb _]. rewrite H in Hb. subst b.
  destruct (writer_local fm slug w w eq_refl) as [(new & H1 & _)|[H1 _]].
  - rewrite H1 in Hw. discriminate.
  - exact H1.
Qed.

Lemma writer_on_file fm slug w :
  is_Some (files w !! episode_path slug) ->
  write_or_update_episode_file fm slug w = normalize_file (episode_path slug) fm w.
Proof.
  intros H. unfold write_or_update_episode_file, io_bind, path_exists.
  rewrite bool_decide_eq_true_2 by exact H. reflexivity.
Qed.

Lemma writer_forms fm slug w :
  exists body,
    ((exists g, cr_free g = true /\ contains PLAYER_TOKEN (strip g) = true /\
                body = strip g ++ [LF]) \/
     body = standard_body fm \/
     (exists old, cr_free old = true /\ truthy (strip old) = true /\
                  body = standard_body fm ++ LEGACY_SEPARATOR ++ strip old ++ [LF])) /\
    (write_or_update_episode_file fm slug w
       = Some (true, after_write (episode_path slug)
                       (render_front_matter fm ++ body) w) \/
     (exists stored,
        files w !! episode_path slug = Some stored /\
        universal_newlines stored = render_front_matter fm ++ body /\
        write_or_update_episode_file fm slug w = Some (false, w))).
Proof.
  destruct (files w !! episode_path slug) as [stored|] eqn:Hf.
  - rewrite writer_on_file by (rewrite Hf; eauto).
    destruct (normalize_file_forms _ fm w stored Hf) as (body & Hb & [H|[H1 H2]]).
    + exists body. auto.
    + exists body. split; [exact Hb|]. right. exists stored. auto.
  - exists (standard_body fm). split; [auto|]. left.
    unfold write_or_update_episode_file, io_bind, path_exists. rewrite Hf.
    rewrite bool_decide_eq_false_2 by (intros [x Hx]; discriminate).
    reflexivity.
Qed.

(** A file that holds the front matter of the record and a body with the
    player token is settled by one run. *)
Lemma own_text_settles p fm w stored body :
  one_line_fields fm = true ->
  files w !! p = Some stored ->
  universal_newlines stored = render_front_matter fm ++ body ->
  contains PLAYER_TOKEN body = true ->
  exists b2 w2,
    normalize_file p fm w = Some (b2, w2) /\
    is_Some (files w2 !! p) /\
    normalize_file p fm w2 = Some (false, w2).
Proof.
  intros Hone Hf Hu Htok.
  pose proof (cr_free_universal_newlines stored) as Hcr.
  rewrite Hu, cr_free_app in Hcr. apply andb_prop in Hcr as [Hcf Hcb].
  pose proof (normalize_own_text p fm w stored body Hone Hf Hu Htok) as H2.
  destruct (str_eqb (render_front_matter fm ++ strip body ++ [LF])
                    (render_front_matter fm ++ body)).
  - exists false, w. split; [exact H2|]. split; [rewrite Hf; eauto|exact H2].
  - eexists true, _. split; [exact H2|]. split.
    { unfold after_write. cbn [files]. rewrite lookup_insert_eq. eauto. }
    apply (normalize_fixed_text p fm _ (strip body ++ [LF]) Hone).
    + rewrite !cr_free_app, Hcf, (cr_free_strip _ Hcb). reflexivity.
    + apply lookup_insert_eq.
    + apply contains_app_l, contains_token_strip, Htok.
    + rewrite (strip_trimmed_line _ (strip_trimmed body)). reflexivity.
Qed.

Lemma writer_settles fm slug w :
  one_line_fields fm = true ->
  cr_free (render_front_matter fm ++ standard_body fm) = true ->
  exists b1 w1 b2 w2,
    write_or_update_episode_file fm slug w = Some (b1, w1) /\
    write_or_update_episode_file fm slug w1 = Some (b2, w2) /\
    write_or_update_episode_file fm slug w2 = Some (false, w2).
Proof.
  intros Hone Hcr. rewrite cr_free_app in Hcr. apply andb_prop in Hcr as [Hcf Hcs].
  destruct (writer_forms fm slug w) as (body & Hform & [H|(stored & Hf & Hu & H)]).
  - destruct (settled_body_token fm body Hform) as [Htok Hcb]. specialize (Hcb Hcs).
    set (w1 := after_write (episode_path slug) (render_front_matter fm ++ body) w) in *.
    assert (Hf1 : files w1 !! episode_path slug = Some (render_front_matter fm ++ body))
      by apply lookup_insert_eq.
    assert (Hu1 : universal_newlines (render_front_matter fm ++ body)
                  = render_front_matter fm ++ body).
    { apply universal_newlines_cr_free. rewrite cr_free_app, Hcf, Hcb. reflexivity. }
    destruct (own_text_settles _ fm w1 _ body Hone Hf1 Hu1 Htok)
      as (b2 & w2 & H2 & Hs & H3).
    exists true, w1, b2, w2. split; [exact H|].
    rewrite (writer_on_file fm slug w1) by (eexists; exact Hf1).
    rewrite (writer_on_file fm slug w2) by exact Hs. auto.
  - exists false, w, false, w. auto.
Qed.

Lemma writer_idem fm slug w :
  (forall c v, unicode_decimal c = Some v -> is_space c = false) ->
  one_line_fields fm = true ->
  link fm <> [] -> rstrip (link fm) = link fm ->
  cr_free (render_front_matter fm ++ standard_body fm) = true ->
  exists b1 w1,
    write_or_update_episode_file fm slug w = Some (b1, w1) /\
    write_or_update_episode_file fm slug w1 = Some (false, w1).
Proof.
  intros Hd Hone Hn Hr Hcr. rewrite cr_free_app in Hcr.
  apply andb_prop in Hcr as [Hcf Hcs].
  destruct (writer_forms fm slug w) as (body & Hform & [H|(stored & Hf & Hu & H)]).
  - destruct (settled_body_token fm body Hform) as [Htok Hcb]. specialize (Hcb Hcs).
    pose proof (settled_body_fixed fm body Hd Hn Hr Hform) as Hfix.
    eexists true, _. split; [exact H|].
    rewrite writer_on_file
      by (unfold after_write; cbn [files]; rewrite lookup_insert_eq; eauto).
    apply (normalize_fixed_text _ fm _ body Hone).
    + rewrite cr_free_app, Hcf, Hcb. reflexivity.
    + apply lookup_insert_eq.
    + exact Htok.
    + exact Hfix.
  - exists false, w. auto.
Qed.

Lemma result_settles fm slug c :
  one_line_fields fm = true ->
  cr_free (render_front_matter fm ++ standard_body fm) = true ->
  (writer_result fm slug
     (writer_result fm slug (writer_result fm slug c).2).2).1 = false.
Proof.
  intros Hone Hcr.
  destruct (writer_settles fm slug (file_world (episode_path slug) c) Hone Hcr)
    as (b1 & w1 & b2 & w2 & H1 & H2 & H3).
  apply writer_file_after in H1 as [_ E1], H2 as [_ E2], H3 as [E3 _].
  rewrite file_world_lookup in E1. rewrite E1 in E2. rewrite E2 in E3.
  symmetry. exact E3.
Qed.

Lemma result_idem fm slug c :
  (forall c v, unicode_decimal c = Some v -> is_space c = false) ->
  one_line_fields fm = true ->
  link fm <> [] -> rstrip (link fm) = link fm ->
  cr_free (render_front_matter fm ++ standard_body fm) = true ->
  (writer_result fm slug (writer_result fm slug c).2).1 = false.
Proof.
  intros Hd Hone Hn Hr Hcr.
  destruct (writer_idem fm slug (file_world (episode_path slug) c) Hd Hone Hn Hr Hcr)
    as (b1 & w1 & H1 & H2).
  apply writer_file_after in H1 as [_ E1], H2 as [E2 _].
  rewrite file_world_lookup in E1. rewrite E1 in E2.
  symmetry. exact E2.
Qed.

Lemma episode_path_inj a b : episode_path a = episode_path b -> a = b.
Proof.
  unfold episode_path. intros H. apply app_inv_head in H.
  apply app_inv_head in H. apply app_inv_tail in H. exact H.
Qed.

Lemma process_item_writer s n item w :
  has_identifier item = true ->
  exists b w' s',
    write_or_update_episode_file (build_front_matter item) (item_slug item) w
      = Some (b, w') /\
    process_item (s, n) item w = Some ((s', if b then n + 1 else n), w').
Proof.
  intros Hi. unfold process_item. unfold has_identifier in Hi. rewrite Hi.
  cbn [negb]. fold (item_slug item). unfold io_bind.
  destruct (write_or_update_episode_file_total (build_front_matter item)
              (item_slug item) w) as (b & w' & Hw).
  rewrite Hw. cbn [io_ret]. eauto.
Qed.

Lemma process_items_frame items s n w s' n' w' :
  process_items (s, n) items w = Some ((s', n'), w') ->
  forall q, (forall item, In item items -> q <> episode_path (item_slug item)) ->
            files w' !! q = files w !! q.
Proof.
  intros H q Hq.
  destruct (process_items_trace items s n w)
    as (s2 & n2 & w2 & ws & H2 & _ & _ & _ & _ & Hfr).
  rewrite H in H2. inversion H2; subst.
  apply Hfr. intros item Hin. apply Hq. apply list_elem_of_In. exact Hin.
Qed.

(** One run leaves in the file of each item what the writer makes of it,
    when no two items share a slug. *)
Lemma run_files items s n w s' n' w' :
  Forall (fun item => has_identifier item = true) items ->
  NoDup (map item_slug items) ->
  process_items (s, n) items w = Some ((s', n'), w') ->
  forall item, In item items ->
    files w' !! episode_path (item_slug item)
    = (writer_result (build_front_matter item) (item_slug item)
         (files w !! episode_path (item_slug item))).2.
Proof.
  revert s n w. induction items as [|i0 rest IH]; intros s n w Hg Hnd H item Hin;
    [destruct Hin|].
  apply Forall_cons_iff in Hg as [Hg0 Hg]. cbn [map] in Hnd.
  apply NoDup_cons in Hnd as [Hnin Hnd].
  rewrite list_elem_of_In in Hnin.
  cbn [process_items] in H. unfold io_bind in H.
  destruct (process_item_writer s n i0 w Hg0) as (b & w1 & s1 & Hw & Hp).
  rewrite Hp in H.
  destruct (writer_file_after _ _ _ _ _ Hw) as [_ Hfile].
  assert (Hother : forall q, q <> episode_path (item_slug i0) ->
                             files w1 !! q = files w !! q).
  { intros q Hq.
    destruct (writer_local (build_front_matter i0) (item_slug i0) w w eq_refl)
      as [(new & H1 & _)|[H1 _]]; rewrite H1 in Hw; inversion Hw; subst.
    - unfold after_write. cbn [files]. apply lookup_insert_ne. congruence.
    - reflexivity. }
  destruct Hin as [<-|Hin].
  - rewrite <- Hfile. apply (process_items_frame _ _ _ _ _ _ _ H).
    intros it Hit E. apply episode_path_inj in E. apply Hnin.
    rewrite E. apply in_map. exact Hit.
  - rewrite (IH _ _ _ Hg Hnd H item Hin). rewrite Hother; [reflexivity|].
    intros E. apply episode_path_inj in E. apply Hnin.
    rewrite <- E. apply in_map. exact Hin.
Qed.

(** A run over files that the writer leaves alone changes nothing. *)
Lemma run_stable items s n w :
  Forall (fun item => has_identifier item = true) items ->
  (forall item, In item items ->
     (writer_result (build_front_matter item) (item_slug item)
        (files w !! episode_path (item_slug item))).1 = false) ->
  exists s', process_items (s, n) items w = Some ((s', n), w).
Proof.
  revert s. induction items as [|i0 rest IH]; intros s Hg Hst.
  - exists s. reflexivity.
  - apply Forall_cons_iff in Hg as [Hg0 Hg].
    cbn [process_items]. unfold io_bind.
    destruct (process_item_writer s n i0 w Hg0) as (b & w1 & s1 & Hw & Hp).
    rewrite (writer_by_result _ _ _ (Hst i0 (or_introl eq_refl))) in Hw.
    inversion Hw; subst. rewrite Hp.
    apply IH; [exact Hg|]. intros item Hin. apply Hst. right. exact Hin.
Qed.

Lemma filter_has_identifier items :
  Forall (fun item => has_identifier item = true) (List.filter has_identifier items).
Proof.
  apply List.Forall_forall. intros item Hin. apply filter_In in Hin as [_ H]. exact H.
Qed.

Lemma main_runs state_file items w :
  exists s n w',
    process_items (list_to_set (loaded_seen state_file), 0)
      (List.filter has_identifier items) w = Some ((s, n), w') /\
    main state_file (Some items) w
      = Some (({| seen := Some (sorted_seen s);
                  other_members := other_members (load_state state_file) |}, n), w').
Proof.
  destruct (process_items_total (list_to_set (loaded_seen state_file), 0)
              (List.filter has_identifier items) w) as ([[s n] w'] & H).
  exists s, n, w'. split; [exact H|].
  unfold main, io_bind. fold (loaded_seen state_file).
  rewrite <- process_items_filter, H. reflexivity.
Qed.

(** Three runs on one day: the third changes nothing. *)
Lemma main_settles_same_day (sf1 sf2 sf3 : option (option FeedIndexState))
    (items : list FeedItem) (w : world) :
  NoDup (map item_slug (List.filter has_identifier items)) ->
  Forall (fun item => plain_record item = true) (List.filter has_identifier items) ->
  exists st1 n1 w1 st2 n2 w2 st3,
    main sf1 (Some items) w = Some ((st1, n1), w1) /\
    main sf2 (Some items) w1 = Some ((st2, n2), w2) /\
    main sf3 (Some items) w2 = Some ((st3, 0), w2).
Proof.
  intros Hnd Hplain.
  pose proof (filter_has_identifier items) as Hg.
  destruct (main_runs sf1 items w) as (s1 & n1 & w1 & P1 & M1).
  destruct (main_runs sf2 items w1) as (s2 & n2 & w2 & P2 & M2).
  destruct (run_stable (List.filter has_identifier items)
              (list_to_set (loaded_seen sf3)) 0 w2 Hg) as [s3 P3].
  { intros item Hin.
    rewrite (run_files _ _ _ _ _ _ _ Hg Hnd P2 item Hin).
    rewrite (run_files _ _ _ _ _ _ _ Hg Hnd P1 item Hin).
    rewrite List.Forall_forall in Hplain. specialize (Hplain item Hin).
    unfold plain_record in Hplain. apply andb_prop in Hplain as [Hone Hcr].
    apply result_settles; assumption. }
  destruct (main_runs sf3 items w2) as (s3' & n3 & w3 & P3' & M3).
  rewrite P3 in P3'. inversion P3'; subst.
  eexists _, _, _, _, _, _, _. split; [exact M1|]. split; [exact M2|exact M3].
Qed.


(** Two runs on one day, every item with a link: the second changes
    nothing. *)
Lemma main_rerun_same_day (sf1 sf2 : option (option FeedIndexState))
    (items : list FeedItem) (w : world) :
  (forall c v, unicode_decimal c = Some v -> is_space c = false) ->
  NoDup (map item_slug (List.filter has_identifier items)) ->
  Forall (fun item => plain_record item = true /\ link (build_front_matter item) <> [])
    (List.filter has_identifier items) ->
  exists st1 n1 w1 st2,
    main sf1 (Some items) w = Some ((st1, n1), w1) /\
    main sf2 (Some items) w1 = Some ((st2, 0), w1).
Proof.
  intros Hd Hnd Hplain.
  pose proof (filter_has_identifier items) as Hg.
  destruct (main_runs sf1 items w) as (s1 & n1 & w1 & P1 & M1).
  destruct (run_stable (List.filter has_identifier items)
              (list_to_set (loaded_seen sf2)) 0 w1 Hg) as [s2 P2].
  { intros item Hin.
    rewrite (run_files _ _ _ _ _ _ _ Hg Hnd P1 item Hin).
    rewrite List.Forall_forall in Hplain. destruct (Hplain item Hin) as [Hp Hl].
    unfold plain_record in Hp. apply andb_prop in Hp as [Hone Hcr].
    apply result_idem; try assumption.
    cbn [build_front_matter link]. apply strip_trimmed. }
  destruct (main_runs sf2 items w1) as (s2' & n2 & w2 & P2' & M2).
  rewrite P2 in P2'. inversion P2'; subst.
  eexists _, _, _, _. split; [exact M1|exact M2].
Qed.

(** ** The lines of the front matter *)

Lemma lines_lf_app a b :
  lf_free a = true -> lines_lf (a ++ [LF] ++ b) = a :: lines_lf b.
Proof.
  induction a as [|c t IH]; intros H.
  - cbn [app lines_lf]. rewrite Z.eqb_refl. reflexivity.
  - unfold lf_free in H. cbn [forallb] in H. apply andb_prop in H as [Hc Ht].
    apply negb_true_iff in Hc.
    change ((c :: t) ++ [LF] ++ b) with (c :: (t ++ [LF] ++ b)).
    cbn [lines_lf]. rewrite Hc, (IH Ht). reflexivity.
Qed.

Lemma lines_lf_last a : lf_free a = true -> lines_lf (a ++ [LF]) = [a; []].
Proof.
  intros H. rewrite <- (app_nil_r [LF]). rewrite (lines_lf_app a [] H). reflexivity.
Qed.

Lemma keys_line a b :
  lf_free a = true ->
  front_matter_keys (a ++ [LF] ++ b)
    = map line_key (List.filter top_level [a]) ++ front_matter_keys b.
Proof.
  intros H. unfold front_matter_keys. rewrite (lines_lf_app a b H).
  change (a :: lines_lf b) with ([a] ++ lines_lf b).
  rewrite List.filter_app, map_app. reflexivity.
Qed.

Lemma keys_line2 a1 a2 b :
  lf_free a1 = true -> lf_free a2 = true ->
  front_matter_keys (a1 ++ a2 ++ [LF] ++ b)
    = map line_key (List.filter top_level [a1 ++ a2]) ++ front_matter_keys b.
Proof.
  intros H1 H2. rewrite (app_assoc a1 a2). apply keys_line.
  rewrite lf_free_app, H1, H2. reflexivity.
Qed.

Lemma keys_last a :
  lf_free a = true ->
  front_matter_keys (a ++ [LF]) = map line_key (List.filter top_level [a]).
Proof.
  intros H. unfold front_matter_keys. rewrite (lines_lf_last a H).
  change [a; []] with ([a] ++ [[]]).
  rewrite List.filter_app, map_app. cbn [List.filter top_level map].
  apply app_nil_r.
Qed.

(** The lines of a block are below the top level. *)
Lemma keys_block ls b :
  Forall (fun l => lf_free l = true /\ top_level l = false) ls ->
  front_matter_keys (join [LF] ls ++ [LF] ++ b) = front_matter_keys b.
Proof.
  induction 1 as [|l ls [Hl Ht] Hls IH].
  - cbn [join]. rewrite (keys_line [] b eq_refl). reflexivity.
  - assert (Hk : map line_key (List.filter top_level [l]) = [])
      by (cbn [List.filter]; rewrite Ht; reflexivity).
    destruct ls as [|l' ls'].
    + cbn [join]. rewrite (keys_line l b Hl), Hk. reflexivity.
    + change (join [LF] (l :: l' :: ls')) with (l ++ [LF] ++ join [LF] (l' :: ls')).
      rewrite <- !app_assoc.
      rewrite (keys_line l _ Hl), Hk. exact IH.
Qed.

Lemma keys_description d b :
  front_matter_keys (py "description: " ++ yml_block d ++ [LF] ++ b)
    = [py "description"] ++ front_matter_keys b.
Proof.
  unfold yml_block. destruct (truthy (rstrip d)); cbn [negb].
  - set (ls := map (fun ln => rstrip (py "  " ++ ln)) (splitlines (rstrip d))).
    replace (py "description: " ++ (py "|" ++ [LF] ++ join [LF] ls) ++ [LF] ++ b)
      with (py "description: |" ++ [LF] ++ join [LF] ls ++ [LF] ++ b)
      by (rewrite <- !app_assoc; reflexivity).
    rewrite (keys_line (py "description: |") _ eq_refl).
    rewrite keys_block; [reflexivity|].
    subst ls. apply Forall_map.
    eapply Forall_impl;
      [apply (splitlines_from_lf_free [] (rstrip d)); reflexivity|].
    intros l Hl. cbn beta. split.
    + apply forallb_rstrip_by. exact Hl.
    + destruct (rstrip_two_spaces l) as [-> | [t ->]]; reflexivity.
  - rewrite (keys_line2 (py "description: ") [QUOTE; QUOTE] b eq_refl eq_refl).
    reflexivity.
Qed.

Lemma lf_free_entry key s :
  lf_free key = true -> lf_free s = true -> lf_free (key ++ quoted s) = true.
Proof.
  intros Hk Hs. rewrite lf_free_app, Hk, (lf_free_quoted s Hs). reflexivity.
Qed.

Lemma front_matter_keys_one_line fm :
  one_line_fields fm = true ->
  front_matter_keys (render_front_matter fm)
    = [MARKER] ++ FRONTMATTER_ORDER ++ [MARKER].
Proof.
  unfold one_line_fields. intros H.
  apply andb_prop in H as [H Hli]. apply andb_prop in H as [H Hau].
  apply andb_prop in H as [H Hem]. apply andb_prop in H as [H Hdd].
  apply andb_prop in H as [Hti Hda].
  rewrite render_front_matter_layout.
  rewrite (keys_line (py "---") _ eq_refl).
  rewrite (keys_line2 (py "title: ") _ _ eq_refl (lf_free_quoted _ Hti)).
  rewrite (keys_line2 (py "date: ") _ _ eq_refl (lf_free_quoted _ Hda)).
  rewrite (keys_line2 (py "display_date: ") _ _ eq_refl (lf_free_quoted _ Hdd)).
  rewrite keys_description.
  rewrite (keys_line2 (py "rss_embed: ") _ _ eq_refl (lf_free_quoted _ Hem)).
  rewrite (keys_line2 (py "audio_url: ") _ _ eq_refl (lf_free_quoted _ Hau)).
  rewrite (keys_line2 (py "link: ") _ _ eq_refl (lf_free_quoted _ Hli)).
  rewrite (keys_line TAGS_LINE _ eq_refl).
  rewrite (keys_line2 (py "draft: ") _ _ eq_refl)
    by (destruct (draft fm); reflexivity).
  rewrite (keys_last (py "---") eq_refl).
  destruct (draft fm); reflexivity.
Qed.

(** C5. For every episode record the rendered front matter begins and ends
    with the marker line and is made of the entries of the keys title, date,
    display_date, description, rss_embed, audio_url, link, tags and draft in
    this order, each entry starting with its key and a colon.  When the
    fields written in quotes hold no line feed, the lines of the text that
    are neither blank nor indented are the marker, one line for each key in
    this order, and the marker.  (A line feed in such a field puts text of
    the field on lines of its own, which is why the second part has its
    condition.) *)
Theorem render_front_matter_canonical (fm : EpisodeRecord) :
  FRONTMATTER_ORDER =
    [py "title"; py "date"; py "display_date"; py "description";
     py "rss_embed"; py "audio_url"; py "link"; py "tags"; py "draft"] /\
  render_front_matter fm =
    join [LF] ([MARKER] ++ map (render_entry fm) FRONTMATTER_ORDER ++ [MARKER])
    ++ [LF] /\
  Forall2 (fun key line => starts_with (key ++ py ": ") line = true)
          FRONTMATTER_ORDER (map (render_entry fm) FRONTMATTER_ORDER) /\
  starts_with (MARKER ++ [LF]) (render_front_matter fm) = true /\
  ends_with ([LF] ++ MARKER ++ [LF]) (render_front_matter fm) = true /\
  (one_line_fields fm = true ->
   front_matter_keys (render_front_matter fm)
     = [MARKER] ++ FRONTMATTER_ORDER ++ [MARKER]).
Proof.
  split; [reflexivity|]. split; [reflexivity|]. split.
  - destruct fm as [t d dd de em au li tg dr].
    unfold FRONTMATTER_ORDER. cbn [map]. unfold render_entry, fm_get.
    repeat match goal with
           | |- context [str_eqb ?a ?b] =>
               let v := eval vm_compute in (str_eqb a b) in
               change (str_eqb a b) with v
           end.
    cbn [as_str py_str title date display_date description rss_embed audio_url
         link tags draft].
    repeat constructor; try (apply starts_with_app; reflexivity); reflexivity.
  - split; [|split; [|apply front_matter_keys_one_line]];
      rewrite render_front_matter_layout; [reflexivity|].
    repeat first [ solve [vm_compute; reflexivity] | apply ends_with_app_r ].
Qed.

End Runtime.

(** * Runs on different days

    Each run reads the clock once more (line 44): the runs below have each
    their own current date. *)

Section Clocks.

Variable unicode_lower : str -> str.
Variable unicode_decimal : Z -> option Z.
Variable fromisoformat_date : str -> option pydate.
Variable html_unescape : str -> str.

Local Abbreviation record_on today :=
  (build_front_matter unicode_decimal fromisoformat_date today html_unescape).
Local Abbreviation slug_on today :=
  (item_slug unicode_lower unicode_decimal fromisoformat_date today html_unescape).
Local Abbreviation plain_on today :=
  (plain_record unicode_lower unicode_decimal fromisoformat_date today html_unescape).
Local Abbreviation main_on today :=
  (main unicode_lower unicode_decimal fromisoformat_date today html_unescape).
Local Abbreviation read_from_pubDate :=
  (dated unicode_decimal fromisoformat_date).

Lemma build_front_matter_clock (today1 today2 : pydate) (item : FeedItem) :
  read_from_pubDate item = true ->
  record_on today1 item = record_on today2 item.
Proof.
  intros H.
  assert (E : parse_date_rfc822 unicode_decimal fromisoformat_date today1
                (text_or (item_pubDate item))
              = parse_date_rfc822 unicode_decimal fromisoformat_date today2
                  (text_or (item_pubDate item))).
  { unfold dated in H. unfold parse_date_rfc822.
    destruct (strptime_rfc822 _ _); [reflexivity|].
    destruct (fromisoformat_date _); [reflexivity|discriminate]. }
  unfold build_front_matter. cbv zeta. rewrite E. reflexivity.
Qed.

Lemma process_items_clock (today1 today2 : pydate) (items : list FeedItem) :
  Forall (fun item => read_from_pubDate item = true)
    (List.filter has_identifier items) ->
  forall acc w,
    process_items unicode_lower unicode_decimal fromisoformat_date today1
      html_unescape acc items w
    = process_items unicode_lower unicode_decimal fromisoformat_date today2
        html_unescape acc items w.
Proof.
  induction items as [|item rest IH]; intros H acc w; [reflexivity|].
  cbn [List.filter] in H. cbn [process_items]. unfold io_bind.
  assert (E : process_item unicode_lower unicode_decimal fromisoformat_date today1
                html_unescape acc item w
              = process_item unicode_lower unicode_decimal fromisoformat_date today2
                  html_unescape acc item w).
  { unfold process_item. destruct acc as [s n].
    destruct (has_identifier item) eqn:Hi.
    - apply Forall_cons_iff in H as [Hd _].
      cbv zeta. rewrite (build_front_matter_clock today1 today2 item Hd).
      reflexivity.
    - unfold has_identifier in Hi. rewrite Hi. reflexivity. }
  rewrite E.
  destruct (process_item _ _ _ today2 _ acc item w) as [[acc' w']|]; [|reflexivity].
  apply IH. destruct (has_identifier item); [|exact H].
  apply Forall_cons_iff in H as [_ H]. exact H.
Qed.

Lemma main_clock (today1 today2 : pydate)
    (state_file : option (option FeedIndexState)) (items : list FeedItem) (w : world) :
  Forall (fun item => read_from_pubDate item = true)
    (List.filter has_identifier items) ->
  main_on today2 state_file (Some items) w = main_on today1 state_file (Some items) w.
Proof.
  intros H. unfold main, io_bind.
  rewrite (process_items_clock today2 today1 items H). reflexivity.
Qed.

(** Three runs over the same feed, each on its own day.  Let the runs fall
    on one day, or let the date of every item with an identifier be read
    from its pubDate.  When no two such items share a slug, the record of
    each keeps its quoted fields on their lines and the text generated for it
    holds no carriage return, then whatever the content directory and the
    state files hold, the third run changes no file and reports zero. *)
Theorem main_settles_in_two (today1 today2 today3 : pydate)
    (sf1 sf2 sf3 : option (option FeedIndexState))
    (items : list FeedItem) (w : world) :
  (today2 = today1 /\ today3 = today1) \/
  Forall (fun item => read_from_pubDate item = true)
    (List.filter has_identifier items) ->
  NoDup (map (slug_on today1) (List.filter has_identifier items)) ->
  Forall (fun item => plain_on today1 item = true)
    (List.filter has_identifier items) ->
  exists st1 n1 w1 st2 n2 w2 st3,
    main_on today1 sf1 (Some items) w = Some ((st1, n1), w1) /\
    main_on today2 sf2 (Some items) w1 = Some ((st2, n2), w2) /\
    main_on today3 sf3 (Some items) w2 = Some ((st3, 0), w2).
Proof.
  intros Hday Hnd Hplain.
  destruct (main_settles_same_day unicode_lower unicode_decimal fromisoformat_date
              today1 html_unescape sf1 sf2 sf3 items w Hnd Hplain)
    as (st1 & n1 & w1 & st2 & n2 & w2 & st3 & M1 & M2 & M3).
  exists st1, n1, w1, st2, n2, w2, st3.
  destruct Hday as [[-> ->]|Hd]; [auto|].
  rewrite (main_clock today1 today2 sf2 items w1 Hd).
  rewrite (main_clock today1 today3 sf3 items w2 Hd). auto.
Qed.

(** Two runs over the same feed, each on its own day.  Under the same
    conditions and when in addition every item with an identifier has a link
    (and no decimal digit is white space), the second run already changes no
    file and reports zero. *)
Theorem main_rerun_unchanged (today1 today2 : pydate)
    (sf1 sf2 : option (option FeedIndexState))
    (items : list FeedItem) (w : world) :
  (forall c v, unicode_decimal c = Some v -> is_space c = false) ->
  today2 = today1 \/
  Forall (fun item => read_from_pubDate item = true)
    (List.filter has_identifier items) ->
  NoDup (map (slug_on today1) (List.filter has_identifier items)) ->
  Forall (fun item => plain_on today1 item = true /\
                      link (record_on today1 item) <> [])
    (List.filter has_identifier items) ->
  exists st1 n1 w1 st2,
    main_on today1 sf1 (Some items) w = Some ((st1, n1), w1) /\
    main_on today2 sf2 (Some items) w1 = Some ((st2, 0), w1).
Proof.
  intros Hu Hday Hnd Hplain.
  destruct (main_rerun_same_day unicode_lower unicode_decimal fromisoformat_date
              today1 html_unescape sf1 sf2 items w Hu Hnd Hplain)
    as (st1 & n1 & w1 & st2 & M1 & M2).
  exists st1, n1, w1, st2.
  destruct Hday as [-> |Hd]; [auto|].
  rewrite (main_clock today1 today2 sf2 items w1 Hd). auto.
Qed.

End Clocks.

(** * Closed instances

    The statements above hold for every Unicode table, version of
    [fromisoformat] and clock.  The instances below fix them where a closed
    term is needed: no decimal digit and no case mapping outside ASCII, an
    ISO parser that accepts nothing, and a day of January 2024 as the
    current date. *)

(** A title of punctuation only. *)
Lemma slugify_never_empty_witness :
  slugify (fun s => s) (py " ?!") = py "episode".
Proof.
  apply (proj1 (proj2 (slugify_never_empty (fun s => s) (py " ?!")))).
  vm_compute. reflexivity.
Defined.

(** The file of the indented body: the text read is the text stored, and
    the body comes back without its two spaces. *)
Lemma normalize_keeps_trimmed_body_witness :
  files (one_file indented_text) !! example_path = Some indented_text /\
  universal_newlines indented_text = indented_text /\
  match_front_matter indented_text = Some (py "x: 1", indented_body) /\
  contains PLAYER_TOKEN indented_body = true /\
  normalize_file (fun s => s) (fun _ => None) example_path empty_link_record
    (one_file indented_text)
  = (let new := render_front_matter (fun s => s) empty_link_record
                ++ strip indented_body ++ [LF] in
     if str_eqb new indented_text then Some (false, one_file indented_text)
     else Some (true, {| files := <[example_path := new]> (files (one_file indented_text));
                         writes := writes (one_file indented_text)
                                   ++ [(example_path, new)] |})).
Proof.
  assert (H1 : files (one_file indented_text) !! example_path = Some indented_text)
    by (vm_compute; reflexivity).
  assert (H2 : match_front_matter indented_text = Some (py "x: 1", indented_body))
    by (vm_compute; reflexivity).
  assert (H3 : contains PLAYER_TOKEN indented_body = true)
    by (vm_compute; reflexivity).
  split; [exact H1|]. split; [vm_compute; reflexivity|].
  split; [exact H2|]. split; [exact H3|].
  exact (normalize_keeps_trimmed_body (fun s => s) (fun _ => None) example_path
           empty_link_record (one_file indented_text) indented_text
           (py "x: 1") indented_body H1 H2 H3).
Defined.

(** C2, as stated, fails: this body holds the player token after two
    spaces, and the text written has lost the spaces, so that the body is not
    even an end of it. *)
Lemma body_kept_verbatim_counterexample :
  universal_newlines indented_text = indented_text /\
  match_front_matter indented_text = Some (py "x: 1", indented_body) /\
  contains PLAYER_TOKEN indented_body = true /\
  forall (ul : str -> str) (ud : Z -> option Z),
    exists new,
      normalize_file ul ud example_path empty_link_record (one_file indented_text)
      = Some (true, {| files := <[example_path := new]> (files (one_file indented_text));
                       writes := [(example_path, new)] |}) /\
      new = render_front_matter ul empty_link_record
            ++ py "{{< episodeplayer >}}" ++ [LF] /\
      new <> render_front_matter ul empty_link_record ++ indented_body /\
      ends_with indented_body new = false.
Proof.
  split; [vm_compute; reflexivity|].
  split; [vm_compute; reflexivity|]. split; [vm_compute; reflexivity|].
  intros ul ud. eexists.
  split; [vm_compute; reflexivity|].
  split; [vm_compute; reflexivity|].
  split; [vm_compute; discriminate|].
  vm_compute. reflexivity.
Qed.

(** The file without front matter: its text is appended without the space. *)
Lemma normalize_malformed_keeps_trimmed_text_witness :
  files (one_file legacy_text) !! example_path = Some legacy_text /\
  universal_newlines legacy_text = legacy_text /\
  match_front_matter legacy_text = None /\
  normalize_file (fun s => s) (fun _ => None) example_path empty_link_record
    (one_file legacy_text)
  = (let new := render_front_matter (fun s => s) empty_link_record
                ++ standard_body (fun _ => None) empty_link_record
                ++ (if truthy (strip legacy_text)
                    then LEGACY_SEPARATOR ++ strip legacy_text ++ [LF] else []) in
     Some (true, {| files := <[example_path := new]> (files (one_file legacy_text));
                    writes := writes (one_file legacy_text)
                              ++ [(example_path, new)] |})).
Proof.
  assert (H1 : files (one_file legacy_text) !! example_path = Some legacy_text)
    by (vm_compute; reflexivity).
  assert (H2 : match_front_matter legacy_text = None) by (vm_compute; reflexivity).
  split; [exact H1|]. split; [vm_compute; reflexivity|]. split; [exact H2|].
  exact (proj1 (normalize_malformed_keeps_trimmed_text (fun s => s) (fun _ => None)
                  example_path empty_link_record (one_file legacy_text)
                  legacy_text H1 H2)).
Defined.

(** C3, as stated, fails: this text starts with a space, and the text
    written holds it only without the space; the old text occurs nowhere in
    the new one. *)
Lemma legacy_kept_verbatim_counterexample :
  universal_newlines legacy_text = legacy_text /\
  match_front_matter legacy_text = None /\
  forall (ul : str -> str) (ud : Z -> option Z),
    exists new,
      normalize_file ul ud example_path empty_link_record (one_file legacy_text)
      = Some (true, {| files := <[example_path := new]> (files (one_file legacy_text));
                       writes := [(example_path, new)] |}) /\
      new = render_front_matter ul empty_link_record
            ++ standard_body ud empty_link_record
            ++ LEGACY_SEPARATOR ++ py "x" ++ [LF] /\
      contains legacy_text new = false.
Proof.
  split; [vm_compute; reflexivity|]. split; [vm_compute; reflexivity|].
  intros ul ud. eexists.
  split; [vm_compute; reflexivity|].
  split; [vm_compute; reflexivity|].
  vm_compute. reflexivity.
Qed.

(** The item of the example: its embed holds the player address. *)
Lemma embed_contract_witness :
  contains (py "player.rss.com/lytte/12345")
    (rss_embed (build_front_matter (fun _ => None) (fun _ => None)
                  {| year := 2024; month := 1; day := 2 |} (fun s => s)
                  example_item)) = true.
Proof.
  apply (embed_contract (fun _ => None) (fun _ => None)
           {| year := 2024; month := 1; day := 2 |} (fun s => s) example_item).
  reflexivity.
Defined.

(** C4, as stated, fails: the title of this item is a double quote, and the
    embed holds it as it is, not escaped. *)
Lemma embed_escapes_title_counterexample :
  (forall (ud : Z -> option Z) (fi : str -> option pydate) (today : pydate)
          (hu : str -> str),
     episode_id_from_link ud (link (build_front_matter ud fi today hu quote_title_item))
       = Some (py "7") /\
     title (build_front_matter ud fi today hu quote_title_item) = [QUOTE] /\
     rss_embed (build_front_matter ud fi today hu quote_title_item)
       = iframe (py "7") [QUOTE]) /\
  yml_escape_inline [QUOTE] = [BACKSLASH; QUOTE] /\
  iframe (py "7") [QUOTE] <> iframe (py "7") (yml_escape_inline [QUOTE]).
Proof.
  split; [|split].
  - intros ud fi today hu. repeat split; vm_compute; reflexivity.
  - reflexivity.
  - vm_compute. discriminate.
Qed.

(** The item of the example: its two dates. *)
Lemma parse_date_cascade_witness :
  date (build_front_matter (fun _ => None) (fun _ => None)
          {| year := 2024; month := 1; day := 2 |} (fun s => s) example_item)
    = py "2024-01-02" /\
  display_date (build_front_matter (fun _ => None) (fun _ => None)
                  {| year := 2024; month := 1; day := 2 |} (fun s => s) example_item)
    = py "02-01-2024".
Proof.
  apply (parse_date_cascade (fun _ => None) (fun _ => None)
           {| year := 2024; month := 1; day := 2 |} (fun s => s) []).
  reflexivity.
Defined.

(** The record of the example item: the second run leaves its file alone. *)
Lemma rerun_unchanged_witness :
  exists w1,
    write_or_update_episode_file (fun s => s) (fun _ => None)
      (build_front_matter (fun _ => None) (fun _ => None)
         {| year := 2024; month := 1; day := 2 |} (fun s => s) example_item)
      example_slug no_files = Some (true, w1) /\
    files w1 !! episode_path example_slug
      = Some (render_front_matter (fun s => s)
                (build_front_matter (fun _ => None) (fun _ => None)
                   {| year := 2024; month := 1; day := 2 |} (fun s => s) example_item)
              ++ standard_body (fun _ => None)
                   (build_front_matter (fun _ => None) (fun _ => None)
                      {| year := 2024; month := 1; day := 2 |} (fun s => s)
                      example_item)) /\
    write_or_update_episode_file (fun s => s) (fun _ => None)
      (build_front_matter (fun _ => None) (fun _ => None)
         {| year := 2024; month := 1; day := 2 |} (fun s => s) example_item)
      example_slug w1 = Some (false, w1).
Proof.
  apply (rerun_unchanged (fun s => s) (fun _ => None)).
  - intros c v H. discriminate.
  - vm_compute. reflexivity.
  - vm_compute. discriminate.
  - vm_compute. reflexivity.
  - vm_compute. reflexivity.
  - vm_compute. reflexivity.
Defined.

(** A body without the player token gives way to the generated one. *)
Lemma normalize_regenerates_body_witness :
  files (one_file plain_text) !! example_path = Some plain_text /\
  match_front_matter (universal_newlines plain_text) = Some (py "x: 1", plain_body) /\
  contains PLAYER_TOKEN plain_body = false /\
  normalize_file (fun s => s) (fun _ => None) example_path empty_link_record
    (one_file plain_text)
  = (let new := render_front_matter (fun s => s) empty_link_record
                ++ standard_body (fun _ => None) empty_link_record in
     if str_eqb new (universal_newlines plain_text)
     then Some (false, one_file plain_text)
     else Some (true, after_write example_path new (one_file plain_text))).
Proof.
  assert (H1 : files (one_file plain_text) !! example_path = Some plain_text)
    by (vm_compute; reflexivity).
  assert (H2 : match_front_matter (universal_newlines plain_text)
               = Some (py "x: 1", plain_body))
    by (vm_compute; reflexivity).
  assert (H3 : contains PLAYER_TOKEN plain_body = false)
    by (vm_compute; reflexivity).
  split; [exact H1|]. split; [exact H2|]. split; [exact H3|].
  exact (normalize_regenerates_body (fun s => s) (fun _ => None) example_path
           empty_link_record (one_file plain_text) plain_text
           (py "x: 1") plain_body H1 H2 H3).
Defined.

(** The record without link, on a file without front matter: the third run
    leaves the file alone. *)
Lemma normalize_settles_in_two_witness :
  exists b1 w1 b2 w2,
    normalize_file (fun s => s) (fun _ => None) example_path empty_link_record
      (one_file legacy_text) = Some (b1, w1) /\
    normalize_file (fun s => s) (fun _ => None) example_path empty_link_record w1
      = Some (b2, w2) /\
    normalize_file (fun s => s) (fun _ => None) example_path empty_link_record w2
      = Some (false, w2).
Proof.
  apply (normalize_settles_in_two (fun s => s) (fun _ => None) example_path
           empty_link_record (one_file legacy_text) legacy_text).
  - vm_compute. reflexivity.
  - vm_compute. reflexivity.
  - vm_compute. reflexivity.
Defined.

(** The record of the example item, on a file without front matter: the
    second run leaves the file alone. *)
Lemma normalize_file_idempotent_witness :
  exists b1 w1,
    normalize_file (fun s => s) (fun _ => None) example_path
      (build_front_matter (fun _ => None) (fun _ => None)
         {| year := 2024; month := 1; day := 2 |} (fun s => s) example_item)
      (one_file legacy_text) = Some (b1, w1) /\
    normalize_file (fun s => s) (fun _ => None) example_path
      (build_front_matter (fun _ => None) (fun _ => None)
         {| year := 2024; month := 1; day := 2 |} (fun s => s) example_item)
      w1 = Some (false, w1).
Proof.
  apply (normalize_file_idempotent (fun s => s) (fun _ => None) example_path
           (build_front_matter (fun _ => None) (fun _ => None)
              {| year := 2024; month := 1; day := 2 |} (fun s => s) example_item)
           (one_file legacy_text) legacy_text).
  - intros c v H. discriminate.
  - vm_compute. reflexivity.
  - vm_compute. discriminate.
  - vm_compute. reflexivity.
  - vm_compute. reflexivity.
  - vm_compute. reflexivity.
Defined.

(** The last day of February of a leap year, late in the evening, eight
    hours west, under the name of the wrong day. *)
Lemma rfc822_date_read_as_written_witness :
  parse_date_rfc822 (fun _ => None) (fun _ => None)
    {| year := 2000; month := 1; day := 1 |}
    (rfc822_text (py "Mon") 29 2 2024 23 59 59 45 8 0)
    = {| year := 2024; month := 2; day := 29 |} /\
  isoformat (parse_date_rfc822 (fun _ => None) (fun _ => None)
               {| year := 2000; month := 1; day := 1 |}
               (rfc822_text (py "Mon") 29 2 2024 23 59 59 45 8 0))
    = pad4 2024 ++ [HYPHEN] ++ pad2 2 ++ [HYPHEN] ++ pad2 29.
Proof.
  apply (rfc822_date_read_as_written (fun _ => None) (fun _ => None)
           {| year := 2000; month := 1; day := 1 |}
           (py "Mon") 29 2 2024 23 59 59 45 8 0).
  - left. reflexivity.
  - lia.
  - lia.
  - vm_compute. split; discriminate.
  - lia.
  - lia.
  - lia.
  - right. reflexivity.
  - lia.
  - lia.
Defined.

(** A date whose zone is the name GMT: the first step refuses it, and with
    a second step that refuses it too the day of the run is the result. *)
Lemma rfc822_step_needs_numeric_zone_witness :
  strptime_rfc822 (fun _ => None) (py "Tue, 02 Jan 2024 10:00:00 GM" ++ [84]) = None /\
  parse_date_rfc822 (fun _ => None) (fun _ => None)
    {| year := 2000; month := 1; day := 1 |}
    (py "Tue, 02 Jan 2024 10:00:00 GM" ++ [84])
    = match (fun _ : str => @None pydate) (py "Tue, 02 Jan 2024 10:00:00 GM" ++ [84]) with
      | Some d => d
      | None => {| year := 2000; month := 1; day := 1 |}
      end.
Proof.
  apply (rfc822_step_needs_numeric_zone (fun _ => None) (fun _ => None)
           {| year := 2000; month := 1; day := 1 |}
           (py "Tue, 02 Jan 2024 10:00:00 GM") 84).
  - vm_compute. reflexivity.
  - discriminate.
Defined.

(** The fields of the record of the example item stay on their lines. *)
Lemma build_front_matter_one_line_witness :
  one_line_fields
    (build_front_matter (fun _ => None) (fun _ => None)
       {| year := 2024; month := 1; day := 2 |} (fun s => s) example_item) = true.
Proof.
  apply (build_front_matter_one_line (fun _ => None) (fun _ => None)
           {| year := 2024; month := 1; day := 2 |} (fun s => s) example_item).
  - vm_compute. reflexivity.
  - vm_compute. reflexivity.
  - vm_compute. reflexivity.
Defined.

(** A feed of two items, one of them without link, an empty content
    directory and three runs on three days: the third changes nothing. *)
Lemma main_settles_in_two_witness :
  exists st1 n1 w1 st2 n2 w2 st3,
    main (fun s => s) (fun _ => None) (fun _ => None)
      {| year := 2024; month := 1; day := 3 |} (fun s => s)
      None (Some [example_item; no_link_item]) no_files = Some ((st1, n1), w1) /\
    main (fun s => s) (fun _ => None) (fun _ => None)
      {| year := 2024; month := 1; day := 4 |} (fun s => s)
      None (Some [example_item; no_link_item]) w1 = Some ((st2, n2), w2) /\
    main (fun s => s) (fun _ => None) (fun _ => None)
      {| year := 2024; month := 1; day := 5 |} (fun s => s)
      None (Some [example_item; no_link_item]) w2 = Some ((st3, 0), w2).
Proof.
  apply (main_settles_in_two (fun s => s) (fun _ => None) (fun _ => None) (fun s => s)
           {| year := 2024; month := 1; day := 3 |}
           {| year := 2024; month := 1; day := 4 |}
           {| year := 2024; month := 1; day := 5 |}
           None None None [example_item; no_link_item] no_files).
  - right. constructor; [vm_compute; reflexivity|].
    constructor; [vm_compute; reflexivity|]. constructor.
  - refine (bool_decide_unpack _ _). vm_compute. exact I.
  - constructor; [vm_compute; reflexivity|].
    constructor; [vm_compute; reflexivity|]. constructor.
Defined.

(** A feed of two items with links, an empty content directory and two
    runs on two days: the second changes nothing. *)
Lemma main_rerun_unchanged_witness :
  exists st1 n1 w1 st2,
    main (fun s => s) (fun _ => None) (fun _ => None)
      {| year := 2024; month := 1; day := 3 |} (fun s => s)
      None (Some [example_item; second_item]) no_files = Some ((st1, n1), w1) /\
    main (fun s => s) (fun _ => None) (fun _ => None)
      {| year := 2024; month := 1; day := 4 |} (fun s => s)
      None (Some [example_item; second_item]) w1 = Some ((st2, 0), w1).
Proof.
  apply (main_rerun_unchanged (fun s => s) (fun _ => None) (fun _ => None) (fun s => s)
           {| year := 2024; month := 1; day := 3 |}
           {| year := 2024; month := 1; day := 4 |}
           None None [example_item; second_item] no_files).
  - intros c v H. discriminate.
  - right. constructor; [vm_compute; reflexivity|].
    constructor; [vm_compute; reflexivity|]. constructor.
  - refine (bool_decide_unpack _ _). vm_compute. exact I.
  - constructor; [split; [vm_compute; reflexivity|vm_compute; discriminate]|].
    constructor; [split; [vm_compute; reflexivity|vm_compute; discriminate]|].
    constructor.
Defined.

(** The first call for the record without link, on an empty directory. *)
Lemma writer_leaves_front_matter_and_player_witness :
  exists stored body,
    files (after_write example_path
             (render_front_matter (fun s => s) empty_link_record
              ++ standard_body (fun _ => None) empty_link_record) no_files)
      !! episode_path example_slug = Some stored /\
    contains PLAYER_TOKEN body = true /\
    stored = render_front_matter (fun s => s) empty_link_record ++ body.
Proof.
  apply (writer_leaves_front_matter_and_player (fun s => s) (fun _ => None)
           empty_link_record example_slug no_files true).
  vm_compute. reflexivity.
Defined.

(** A run over the example item on an empty directory: one file, one
    write. *)
Lemma main_counts_its_writes_witness :
  exists ws,
    writes (after_write (episode_path (py "2024-01-02-episode"))
              (render_front_matter (fun s => s)
                 (build_front_matter (fun _ => None) (fun _ => None)
                    {| year := 2024; month := 1; day := 3 |} (fun s => s) example_item)
               ++ standard_body (fun _ => None)
                    (build_front_matter (fun _ => None) (fun _ => None)
                       {| year := 2024; month := 1; day := 3 |} (fun s => s)
                       example_item))
              no_files)
      = writes no_files ++ ws /\
    1 = Z.of_nat (length ws) /\
    (length ws <= length (List.filter has_identifier [example_item]))%nat.
Proof.
  apply (main_counts_its_writes (fun s => s) (fun _ => None) (fun _ => None)
           {| year := 2024; month := 1; day := 3 |} (fun s => s)
           None [example_item] no_files
           {| seen := Some [py "guid-1"]; other_members := [] |}).
  vm_compute. reflexivity.
Defined.

(** The record without link: its quoted fields are on one line each, and
    the top-level lines are the marker, the nine keys and the marker. *)
Lemma render_front_matter_canonical_witness :
  one_line_fields empty_link_record = true /\
  front_matter_keys (render_front_matter (fun s => s) empty_link_record)
    = [MARKER] ++ FRONTMATTER_ORDER ++ [MARKER].
Proof.
  assert (H : one_line_fields empty_link_record = true) by reflexivity.
  split; [exact H|].
  destruct (render_front_matter_canonical (fun s => s) empty_link_record)
    as (_ & _ & _ & _ & _ & Hk).
  exact (Hk H).
Defined.

(** C5, as stated, fails.  The title of this item holds a line feed; the
    front matter of its record then has a second top-level line that starts
    with draft, before the line of date, so that its top-level lines are not
    the nine keys in their order.  With a marker line in the title, the
    pattern of the writer itself ends the front matter inside the title. *)
Lemma keys_not_canonical_counterexample :
  build_front_matter (fun _ => None) (fun _ => None)
    {| year := 2024; month := 1; day := 3 |} (fun s => s) newline_title_item
    = newline_title_record /\
  front_matter_keys (render_front_matter (fun s => s) newline_title_record)
    = [MARKER; py "title"; py "draft"; py "date"; py "display_date";
       py "description"; py "rss_embed"; py "audio_url"; py "link"; py "tags";
       py "draft"; MARKER] /\
  front_matter_keys (render_front_matter (fun s => s) newline_title_record)
    <> [MARKER] ++ FRONTMATTER_ORDER ++ [MARKER] /\
  exists rest,
    match_front_matter (render_front_matter (fun s => s) marker_title_record)
      = Some (py "title: " ++ [QUOTE] ++ py "x", py "y" ++ [QUOTE] ++ [LF] ++ rest).
Proof.
  split; [vm_compute; reflexivity|].
  split; [vm_compute; reflexivity|].
  split; [vm_compute; discriminate|].
  eexists. vm_compute. reflexivity.
Defined.
